(** * The '/init' boot supervisor of goes: root pivot, recovery, emergency shell

    A shallow embedding of package [slashinit]
    (src/goes/cmd/platina/mk1/bootc/bootc.go, second document of the file):
    the virtual file-system bootstrapper [init], the root pivot
    [pivotRoot] with its skeleton tables, the finalizer [runSbinInit], the
    recovery pathway [installer] and the emergency shell, all tied together
    by [Main] and its two nested deferred functions.

    The Go code is sequential and talks to the kernel and to a handful of
    collaborators ([goes.Main], [Hook], [grab.NewRequest], [url.FetchReqs]).
    It is embedded in a monad that threads a [world], records every call
    with its reply in an event list, and distinguishes a normal return from
    a panic and from a replaced process image. *)

From Stdlib Require Import ZArith String List Ascii Lia Bool.
From stdpp Require Import base option gmap strings list.

Local Open Scope string_scope.
Local Open Scope list_scope.
Local Open Scope Z_scope.

(** ** Values of the Go program *)

(** Go [error] values.  [io.EOF] is compared by identity in
    [emergencyShell]; [os.IsNotExist] recognises [ENOENT]. *)
Inductive error : Type :=
| EOF
| ENOENT
| EEXIST
| Errno (msg : string).

(** [err.Error()] *)
Definition Error (e : error) : string :=
  match e with
  | EOF => "EOF"
  | ENOENT => "no such file or directory"
  | EEXIST => "file exists"
  | Errno msg => msg
  end.

(** [os.IsNotExist(err)], with [None] for the nil error. *)
Definition IsNotExist (err : option error) : bool :=
  match err with
  | Some ENOENT => true
  | _ => false
  end.

#[global] Instance error_eq_dec : EqDecision error.
Proof. solve_decision. Defined.

(** [os.FileMode] permission bits, written in octal in the source. *)
Definition perm (u g o : Z) : Z := u * 64 + g * 8 + o.
Definition sticky : Z := 512.

(** [syscall.MS_MOVE] and the [zero] flag word of the source. *)
Definition MS_MOVE : Z := 8192.
Definition zero : Z := 0.

(** [const Name = "/init"] *)
Definition Name : string := "/init".

(** [*grab.Request], as far as [installer] touches it. *)
Record request : Type := Request { URL : string; Filename : string }.

(** ** The world the program runs in *)

(** Objects of the file system, keyed by the absolute path they are reached
    through.  [os.Stat] follows links, so a [Link] entry stands for a link
    that resolves. *)
Inductive node : Type :=
| Dir (mode : Z)
| File (data : string) (mode : Z)
| Link (target : string).

Record world : Type := World {
  fs : gmap string node;
  env : gmap string string;
  cwd : string;
  pid : Z;               (* os.Getpid() *)
  arg0 : string;         (* os.Args[0] *)
  clock : nat            (* calls issued so far *)
}.

(** Every call that leaves the program. *)
Inductive call : Type :=
| Stat (name : string)
| Mkdir (name : string) (mode : Z)
| Symlink (oldname newname : string)
| Open (name : string)
| Create (name : string)
| Copy (dst src : string)
| Chmod (name : string) (mode : Z)
| Unlink (name : string)
| Rmdir (name : string)
| Chdir (dir : string)
| Setenv (key value : string)
| Mount (source target fstype : string) (flags : Z) (data : string)
| Chroot (path : string)
| Exec (argv0 : string) (argv envv : list string)
| GoesMain (args : list string)
| BoardHook
| NewRequest (urlStr : string)
| FetchReqs (workers : Z) (reqs : list request) (successes : Z)
| Println (s : string)
| Printf (s : string)
| LogPrint (args : list string).

(** How a call ended: it returned nil, it returned an error, it panicked,
    or it never returned because the process image was replaced. *)
Inductive reply : Type :=
| Done
| Fail (e : error)
| Crash (v : string)
| Never.

Inductive event : Type := Ev (c : call) (r : reply).

Definition reply_of (err : option error) : reply :=
  match err with
  | None => Done
  | Some e => Fail e
  end.

(** What the program cannot decide itself.  [o_fault n] makes call number
    [n] fail for a reason the file-system model does not derive (I/O error,
    permissions, ...).  [o_kernel] answers mount, chroot and exec, and
    [o_collab] the Go collaborators; both may change the world at will.
    [o_fetch] is [url.FetchReqs], which also reports a success count. *)
Record oracle : Type := Oracle {
  o_fault : nat -> option string;
  o_kernel : nat -> call -> world -> option error * world;
  o_collab : nat -> call -> world -> reply * world;
  o_fetch : nat -> list request -> world -> Z * reply * world
}.

(** ** The monad: state, event log, and the three ways not to return *)

Inductive outcome (A : Type) : Type :=
| Ret (a : A)          (* normal return *)
| Panic (v : string)   (* unwinding with panic value v *)
| Gone                 (* exec or kexec succeeded: this program is over *)
| Spin.                (* still looping when the fuel ran out *)
Arguments Ret {A} a.
Arguments Panic {A} v.
Arguments Gone {A}.
Arguments Spin {A}.

Definition M (A : Type) : Type := world -> outcome A * world * list event.

Definition ret {A} (a : A) : M A := fun w => (Ret a, w, []).

Definition bind {A B} (m : M A) (f : A -> M B) : M B := fun w =>
  match m w with
  | (Ret a, w1, t1) => let '(r, w2, t2) := f a w1 in (r, w2, t1 ++ t2)
  | (Panic v, w1, t1) => (Panic v, w1, t1)
  | (Gone, w1, t1) => (Gone, w1, t1)
  | (Spin, w1, t1) => (Spin, w1, t1)
  end.

#[global] Instance M_ret : MRet M := @ret.
#[global] Instance M_bind : MBind M := fun A B f m => bind m f.

(** [panic(v)] *)
Definition panic {A} (v : string) : M A := fun w => (Panic v, w, []).

(** [for _, x := range table { body }] *)
Fixpoint forM_ {A} (table : list A) (body : A -> M unit) : M unit :=
  match table with
  | [] => ret tt
  | x :: rest => bind (body x) (fun _ => forM_ rest body)
  end.

Definition tick (w : world) : world :=
  World (fs w) (env w) (cwd w) (pid w) (arg0 w) (S (clock w)).

(** The part of a world an outside call may change. *)
Definition after (w w' : world) : world :=
  World (fs w') (env w') (cwd w') (pid w) (arg0 w) (S (clock w)).

Definition set_fs (f : gmap string node) (w : world) : world :=
  World f (env w) (cwd w) (pid w) (arg0 w) (clock w).

(** [os.Getenv]: a read of the process environment, empty when unset. *)
Definition Getenv (key : string) (w : world) : string :=
  default "" (env w !! key).

(** [len(s)] of a Go string. *)
Definition len (s : string) : Z := Z.of_nat (String.length s).

(** [strings.Split(s, sep)] for a one-character separator: at least one
    field, also for the empty string. *)
Fixpoint Split (s : string) (sep : ascii) : list string :=
  match s with
  | EmptyString => [EmptyString]
  | String c rest =>
      if Ascii.eqb c sep then EmptyString :: Split rest sep
      else match Split rest sep with
           | field :: fields => String c field :: fields
           | [] => [String c EmptyString]
           end
  end.

(** [os.PathListSeparator] on Linux. *)
Definition ListSeparator : ascii := ":"%char.

(** [filepath.SplitList]: no field at all for the empty string. *)
Definition SplitList (path : string) : list string :=
  match path with
  | EmptyString => []
  | _ => Split path ListSeparator
  end.

(** [rmdir] refuses a directory that still has entries. *)
Definition has_child (dir : string) (f : gmap string node) : bool :=
  existsb (fun q => String.prefix (dir +:+ "/") q) (map fst (map_to_list f)).

(** ** Calls *)

Section Program.

Variable orc : oracle.

(** A call the file-system model decides; [sem] is its effect when no
    fault is injected. *)
Definition sys (c : call) (sem : world -> option error * world)
  : M (option error) := fun w =>
  let '(err, w') := match o_fault orc (clock w) with
                    | Some msg => (Some (Errno msg), w)
                    | None => sem w
                    end in
  (Ret err, tick w', [Ev c (reply_of err)]).

Definition os_Stat (name : string) : M (option error) :=
  sys (Stat name) (fun w =>
    match fs w !! name with
    | Some _ => (None, w)
    | None => (Some ENOENT, w)
    end).

Definition os_Mkdir (name : string) (mode : Z) : M (option error) :=
  sys (Mkdir name mode) (fun w =>
    match fs w !! name with
    | Some _ => (Some EEXIST, w)
    | None => (None, set_fs (<[name := Dir mode]> (fs w)) w)
    end).

Definition os_Symlink (oldname newname : string) : M (option error) :=
  sys (Symlink oldname newname) (fun w =>
    match fs w !! newname with
    | Some _ => (Some EEXIST, w)
    | None => (None, set_fs (<[newname := Link oldname]> (fs w)) w)
    end).

Definition os_Open (name : string) : M (option error) :=
  sys (Open name) (fun w =>
    match fs w !! name with
    | Some _ => (None, w)
    | None => (Some ENOENT, w)
    end).

(** [os.Create]: create with mode 0666 or truncate, keeping the mode. *)
Definition os_Create (name : string) : M (option error) :=
  sys (Create name) (fun w =>
    match fs w !! name with
    | None => (None, set_fs (<[name := File "" (perm 6 6 6)]> (fs w)) w)
    | Some (File _ mode) => (None, set_fs (<[name := File "" mode]> (fs w)) w)
    | Some (Dir _) => (Some (Errno "is a directory"), w)
    | Some (Link _) => (Some (Errno "is a link"), w)
    end).

(** [io.Copy(w, r)] between the files opened at [dst] and [src]. *)
Definition io_Copy (dst src : string) : M (option error) :=
  sys (Copy dst src) (fun w =>
    match fs w !! src, fs w !! dst with
    | Some (File data _), Some (File _ mode) =>
        (None, set_fs (<[dst := File data mode]> (fs w)) w)
    | Some (File _ _), _ => (Some (Errno "bad file descriptor"), w)
    | _, _ => (Some (Errno "is a directory"), w)
    end).

Definition os_Chmod (name : string) (mode : Z) : M (option error) :=
  sys (Chmod name mode) (fun w =>
    match fs w !! name with
    | None => (Some ENOENT, w)
    | Some (Dir _) => (None, set_fs (<[name := Dir mode]> (fs w)) w)
    | Some (File data _) => (None, set_fs (<[name := File data mode]> (fs w)) w)
    | Some (Link _) => (None, w)
    end).

Definition syscall_Unlink (name : string) : M (option error) :=
  sys (Unlink name) (fun w =>
    match fs w !! name with
    | None => (Some ENOENT, w)
    | Some (Dir _) => (Some (Errno "is a directory"), w)
    | Some _ => (None, set_fs (delete name (fs w)) w)
    end).

Definition syscall_Rmdir (name : string) : M (option error) :=
  sys (Rmdir name) (fun w =>
    match fs w !! name with
    | None => (Some ENOENT, w)
    | Some (Dir _) =>
        if has_child name (fs w) then (Some (Errno "directory not empty"), w)
        else (None, set_fs (delete name (fs w)) w)
    | Some _ => (Some (Errno "not a directory"), w)
    end).

Definition os_Chdir (dir : string) : M (option error) :=
  sys (Chdir dir) (fun w =>
    match fs w !! dir with
    | None => (Some ENOENT, w)
    | Some (Dir _) =>
        (None, World (fs w) (env w) dir (pid w) (arg0 w) (clock w))
    | Some _ => (Some (Errno "not a directory"), w)
    end).

Definition os_Setenv (key value : string) : M (option error) :=
  sys (Setenv key value) (fun w =>
    (None, World (fs w) (<[key := value]> (env w)) (cwd w) (pid w) (arg0 w)
                 (clock w))).

Definition os_Getenv (key : string) : M string := fun w =>
  (Ret (Getenv key w), w, []).

(** Calls the kernel answers: mount and chroot. *)
Definition kernel (c : call) : M (option error) := fun w =>
  let '(err, w') := o_kernel orc (clock w) c w in
  (Ret err, after w w', [Ev c (reply_of err)]).

Definition syscall_Mount (source target fstype : string) (flags : Z)
  (data : string) : M (option error) :=
  kernel (Mount source target fstype flags data).

Definition syscall_Chroot (path : string) : M (option error) :=
  kernel (Chroot path).

(** [syscall.Exec] returns only when it failed. *)
Definition syscall_Exec (argv0 : string) (argv envv : list string)
  : M (option error) := fun w =>
  let c := Exec argv0 argv envv in
  match fst (o_kernel orc (clock w) c w) with
  | None => (Gone, w, [Ev c Never])
  | Some e => (Ret (Some e), tick w, [Ev c (Fail e)])
  end.

(** Calls into Go collaborators. *)
Definition collab (c : call) : M (option error) := fun w =>
  let '(r, w') := o_collab orc (clock w) c w in
  match r with
  | Done => (Ret None, after w w', [Ev c r])
  | Fail e => (Ret (Some e), after w w', [Ev c r])
  | Crash v => (Panic v, after w w', [Ev c r])
  | Never => (Gone, after w w', [Ev c r])
  end.

Definition goes_Main (args : list string) : M (option error) :=
  collab (GoesMain args).

(** [var Hook = func() error { return nil }], reassigned by the machine. *)
Definition Hook : M (option error) := collab BoardHook.

Definition grab_NewRequest (urlStr : string) : M (request * option error) :=
  err ← collab (NewRequest urlStr);
  ret (Request urlStr "", err).

Definition url_FetchReqs (workers : Z) (reqs : list request)
  : M (Z * option error) := fun w =>
  let '(n, r, w') := o_fetch orc (clock w) reqs w in
  let t := [Ev (FetchReqs workers reqs n) r] in
  match r with
  | Done => (Ret (n, None), after w w', t)
  | Fail e => (Ret (n, Some e), after w w', t)
  | Crash v => (Panic v, after w w', t)
  | Never => (Gone, after w w', t)
  end.

Definition fmt_Println (s : string) : M unit := fun w =>
  (Ret tt, tick w, [Ev (Println s) Done]).

Definition fmt_Printf (s : string) : M unit := fun w =>
  (Ret tt, tick w, [Ev (Printf s) Done]).

Definition log_Print (args : list string) : M unit := fun w =>
  (Ret tt, tick w, [Ev (LogPrint args) Done]).

(** [if err != nil { panic(fmt.Errorf(...)) }] *)
Definition must (m : M (option error)) (msg : error -> string) : M unit :=
  err ← m;
  match err with
  | Some e => panic (msg e)
  | None => ret tt
  end.

(** ** Virtual file-system bootstrapper: [func init()] *)

Definition init_mounts : list (string * string * string * Z) :=
  [ ("/dev", "devtmpfs", "devtmpfs", perm 7 5 5);
    ("/dev/pts", "devpts", "devpts", perm 7 5 5);
    ("/proc", "proc", "proc", perm 5 5 5);
    ("/sys", "sysfs", "sysfs", perm 5 5 5);
    ("/run", "tmpfs", "tmpfs", perm 7 5 5) ].

Definition init_links : list (string * string) :=
  [ ("../proc/self/fd/0", "/dev/stdin");
    ("../proc/self/fd/1", "/dev/stdout");
    ("../proc/self/fd/2", "/dev/stderr") ].

(** One round of the first loop; [true] from the first half is the
    [continue] after a failed mkdir. *)
Definition init_mount (mnt : string * string * string * Z) : M unit :=
  let '(dir, dev, fstype, mode) := mnt in
  skip ← (err ← os_Stat dir;
          if IsNotExist err then
            err ← os_Mkdir dir mode;
            match err with
            | Some e => log_Print ["err"; dir; ": "; Error e];; ret true
            | None => ret false
            end
          else ret false);
  if skip : bool then ret tt
  else
    err ← syscall_Mount dev dir fstype zero "";
    match err with
    | Some e => log_Print ["err"; dir; ": "; Error e]
    | None => ret tt
    end.

Definition init_link (ln : string * string) : M unit :=
  let '(src, dst) := ln in
  err ← os_Stat dst;
  if IsNotExist err then
    err ← os_Symlink src dst;
    match err with
    | Some e => log_Print ["err"; "ln"; dst; "->"; src; ":"; Error e]
    | None => ret tt
    end
  else ret tt.

Definition init : M unit := fun w =>
  if negb (pid w =? 1) then ret tt w
  else if negb (String.eqb (arg0 w) Name) then ret tt w
  else (forM_ init_mounts init_mount;; forM_ init_links init_link) w.

(** ** Skeleton of the new root *)

Definition rootDirs : list (string * Z) :=
  [ ("/bin", perm 7 7 5); ("/sbin", perm 7 5 5); ("/usr", perm 7 5 5);
    ("/usr/bin", perm 7 5 5) ].

Definition makeRootDirs (mountPoint : string) : M unit :=
  forM_ rootDirs (fun '(name, mode) =>
    err ← os_Stat (mountPoint +:+ name);
    if IsNotExist err then
      must (os_Mkdir (mountPoint +:+ name) mode)
           (fun e => "mkdir " +:+ (mountPoint +:+ name) +:+ ": " +:+ Error e)
    else ret tt).

Definition rootFiles : list (string * string) :=
  [ ("/init", "/usr/bin/goes");
    ("/usr/bin/gdbserver", "/usr/bin/gdbserver") ].

(** The deferred [r.Close()] and [w.Close()] only release descriptors and
    are left out. *)
Definition makeRootFiles (mountPoint : string) : M unit :=
  forM_ rootFiles (fun '(src, dst) =>
    err ← os_Stat (mountPoint +:+ dst);
    goes ← os_Getenv "goes";
    if IsNotExist err || String.eqb goes "overwrite" then
      must (os_Open src)
           (fun e => "open " +:+ src +:+ ": " +:+ Error e);;
      must (os_Create (mountPoint +:+ dst))
           (fun e => "create " +:+ (mountPoint +:+ dst) +:+ ": " +:+ Error e);;
      must (io_Copy (mountPoint +:+ dst) src)
           (fun e => "copy " +:+ src +:+ " to " +:+ (mountPoint +:+ dst)
                     +:+ ": " +:+ Error e);;
      must (os_Chmod dst (perm 7 5 5))
           (fun e => "chmod " +:+ (mountPoint +:+ dst) +:+ ": " +:+ Error e)
    else ret tt).

Definition rootLinks : list (string * string) :=
  [ ("../usr/bin/goes", "/sbin/init") ].

Definition makeRootLinks (mountPoint : string) : M unit :=
  forM_ rootLinks (fun '(src, dst) =>
    err ← os_Stat (mountPoint +:+ dst);
    if IsNotExist err then
      must (os_Symlink src (mountPoint +:+ dst))
           (fun e => "ln " +:+ src +:+ "->" +:+ (mountPoint +:+ dst)
                     +:+ ": " +:+ Error e)
    else ret tt).

Definition virtualFileSystems : list (string * string * Z) :=
  [ ("/run", "/run", perm 7 5 5); ("/sys", "/sysfs", perm 5 5 5);
    ("/proc", "/proc", perm 5 5 5); ("/dev", "/dev", perm 7 5 5) ].

Definition moveVirtualFileSystems (mountPoint : string) : M unit :=
  forM_ virtualFileSystems (fun '(src, dst, mode) =>
    err ← os_Stat (mountPoint +:+ dst);
    (if IsNotExist err then
       must (os_Mkdir (mountPoint +:+ dst) mode)
            (fun e => "mkdir " +:+ (mountPoint +:+ dst) +:+ ": " +:+ Error e)
     else ret tt);;
    must (syscall_Mount src (mountPoint +:+ dst) "" MS_MOVE "")
         (fun e => "mount -o move " +:+ src +:+ " " +:+ (mountPoint +:+ dst)
                   +:+ ": " +:+ Error e)).

Definition oldRootFiles : list string :=
  [ "/usr/bin/gdbserver"; "/init"; "/bin/goes" ].

Definition unlinkRootFiles : M unit :=
  forM_ oldRootFiles (fun fn => syscall_Unlink fn;; ret tt).

Definition oldRootDirs : list string :=
  [ "/run"; "/sys"; "/proc"; "/dev"; "/usr/bin"; "/usr"; "/bin" ].

Definition rmdirRootDirs : M unit :=
  forM_ oldRootDirs (fun dir => syscall_Rmdir dir;; ret tt).

(** ** Target environment *)

Definition targetDirs : list (string * Z) :=
  [ ("/root", perm 7 0 0); ("/tmp", sticky + perm 7 7 7);
    ("/var", perm 7 5 5) ].

Definition makeTargetDirs : M unit :=
  forM_ targetDirs (fun '(name, mode) =>
    err ← os_Stat name;
    if IsNotExist err then
      must (os_Mkdir name mode)
           (fun e => "mkdir " +:+ name +:+ ": " +:+ Error e)
    else ret tt).

Definition targetLinks : list (string * string) :=
  [ ("../run", "/var/run") ].

Definition makeTargetLinks : M unit :=
  forM_ targetLinks (fun '(src, dst) =>
    err ← os_Stat dst;
    if IsNotExist err then
      must (os_Symlink src dst)
           (fun e => "ln " +:+ dst +:+ " -> " +:+ src +:+ ": " +:+ Error e)
    else ret tt).

Definition targetMounts : list (string * string * string) :=
  [ ("/tmp", "tmpfs", "tmpfs") ].

Definition mountTargetVirtualFilesystems : M unit :=
  forM_ targetMounts (fun '(dir, dev, fstype) =>
    must (syscall_Mount dev dir fstype zero "")
         (fun e => "mount -t " +:+ fstype +:+ " " +:+ dev +:+ " " +:+ dir
                   +:+ ": " +:+ Error e)).

(** ** Root pivot *)

Definition pivotRoot (mountPoint root script : string) : M unit :=
  err ← os_Stat mountPoint;
  (if IsNotExist err then
     must (os_Mkdir mountPoint (perm 7 5 5))
          (fun e => "Error creating " +:+ mountPoint +:+ ": " +:+ Error e)
   else ret tt);;
  must (goes_Main ["mount"; root; mountPoint])
       (fun e => "Error mounting " +:+ root +:+ " on " +:+ mountPoint
                 +:+ ": " +:+ Error e);;
  (if 0 <? len script then
     must (goes_Main ["source"; script])
          (fun e => "Error running boot script " +:+ script +:+ " on "
                    +:+ root +:+ ": " +:+ Error e)
   else ret tt);;
  makeRootDirs mountPoint;;
  makeRootFiles mountPoint;;
  makeRootLinks mountPoint;;
  moveVirtualFileSystems mountPoint;;
  must (os_Chdir mountPoint)
       (fun e => "chdir " +:+ mountPoint +:+ ": " +:+ Error e);;
  unlinkRootFiles;;
  rmdirRootDirs;;
  must (syscall_Mount mountPoint "/" "" MS_MOVE "")
       (fun e => "mount " +:+ mountPoint +:+ " /: " +:+ Error e);;
  must (syscall_Chroot ".")
       (fun e => "chroot .:" +:+ Error e).

(** ** Finalizer *)

Definition sbininit : string := "/sbin/init".

Definition runSbinInit : M unit :=
  must (os_Setenv "PATH" "/bin:/usr/bin")
       (fun e => "Setenv PATH: " +:+ Error e);;
  must (os_Setenv "SHELL" "/bin/goes")
       (fun e => "Setenv SHELL: " +:+ Error e);;
  must (os_Chdir "/root")
       (fun e => "chdir /root: " +:+ Error e);;
  must (os_Setenv "HOME" "/root")
       (fun e => "Setenv HOME: " +:+ Error e);;
  term ← os_Getenv "TERM";
  (if len term =? 0 then
     must (os_Setenv "TERM" "linux")
          (fun e => "Setenv TERM: " +:+ Error e)
   else ret tt);;
  err ← os_Stat sbininit;
  match err with
  | Some e =>
      if IsNotExist (Some e) then ret tt
      else panic ("stat " +:+ sbininit +:+ ": " +:+ Error e)
  | None =>
      path ← os_Getenv "PATH";
      shell ← os_Getenv "SHELL";
      home ← os_Getenv "HOME";
      term ← os_Getenv "TERM";
      must (syscall_Exec sbininit [sbininit]
              [ "PATH=" +:+ path; "SHELL=" +:+ shell; "HOME=" +:+ home;
                "TERM=" +:+ term ])
           (fun e => "exec " +:+ sbininit +:+ ": " +:+ Error e)
  end.

(** ** Emergency shell *)

Definition newline : string := String (ascii_of_nat 10) EmptyString.

Definition shell_banner : string :=
  "Dropping into emergency goes shell..." +:+ newline.

(** The [for { ... }] loop, cut off after [fuel] rounds. *)
Fixpoint emergencyShell (fuel : nat) : M unit :=
  match fuel with
  | O => fun w => (Spin, w, [])
  | S rounds =>
      fmt_Println shell_banner;;
      err ← goes_Main ["cli"];
      match err with
      | Some e =>
          if bool_decide (e ≠ EOF) then fmt_Println (Error e) else ret tt
      | None => ret tt
      end;;
      emergencyShell rounds
  end.

(** ** Recovery pathway *)

Definition with_Filename (req : request) (name : string) : request :=
  Request (URL req) name.

Definition kexec_args : list string :=
  [ "kexec"; "-e"; "-k"; "kernel"; "-i"; "initramfs"; "-c";
    "console=ttyS0,115200" ].

Definition installer (params : list string) : M (option error) :=
  if (Z.of_nat (length params) <? 1) || (len (nth 0 params "") =? 0) then
    ret (Some (Errno "KERNEL: missing"))
  else
    '(req, err) ← grab_NewRequest (nth 0 params "");
    match err with
    | Some e => ret (Some e)
    | None =>
    let reqs := [] ++ [with_Filename req "kernel"] in
    r ← (if (2 <=? Z.of_nat (length params)) && (0 <? len (nth 1 params ""))
         then
           '(req, err) ← grab_NewRequest (nth 1 params "");
           match err with
           | Some e => ret (inr e)
           | None => ret (inl (reqs ++ [with_Filename req "initramfs"]))
           end
         else ret (inl reqs));
    match r with
    | inr e => ret (Some e)
    | inl reqs =>
    r ← (if (3 <=? Z.of_nat (length params)) && (0 <? len (nth 2 params ""))
         then
           '(req, err) ← grab_NewRequest (nth 2 params "");
           match err with
           | Some e => ret (inr e)
           | None => ret (inl (reqs ++ [with_Filename req "fdt"]))
           end
         else ret (inl reqs));
    match r with
    | inr e => ret (Some e)
    | inl reqs =>
    '(successes, err) ← url_FetchReqs 0 reqs;
    match err with
    | Some e => ret (Some e)
    | None =>
    (if successes =? Z.of_nat (length reqs)
     then fmt_Printf "All files loaded successfully!"
     else ret tt);;
    goes_Main kexec_args
    end end end end.

(** ** Main and its deferred functions *)

(** [defer d(); body] for a deferred function that begins with
    [recover()]: [d] runs when [body] returns or panics and is handed the
    panic value, if any.  When [d] returns, so does the function, with the
    result of [body] or, after a recovered panic, the zero value.  Once the
    process image is replaced nothing runs any more. *)
Definition deferred {A} (zero : A) (d : option string -> M unit) (body : M A)
  : M A := fun w =>
  match body w with
  | (Ret a, w1, t1) =>
      let '(r, w2, t2) := (d None;; ret a) w1 in (r, w2, t1 ++ t2)
  | (Panic v, w1, t1) =>
      let '(r, w2, t2) := (d (Some v);; ret zero) w1 in (r, w2, t1 ++ t2)
  | (Gone, w1, t1) => (Gone, w1, t1)
  | (Spin, w1, t1) => (Spin, w1, t1)
  end.

(** [if r := recover(); r != nil { fmt.Println(r) }] *)
Definition recovered (r : option string) : M unit :=
  match r with
  | Some v => fmt_Println v
  | None => ret tt
  end.

(** [fmt.Errorf("Error from board hook: ", err)]: the format has no verb,
    so fmt appends the operand as an EXTRA argument. *)
Definition hook_message (e : error) : string :=
  "Error from board hook: " +:+ "%!(EXTRA error=" +:+ Error e +:+ ")".

(** [var root, script string] and the two assignments that follow. *)
Definition root_of (goesRoot : list string) : string :=
  if (1 <=? Z.of_nat (length goesRoot)) && (0 <? len (nth 0 goesRoot ""))
  then nth 0 goesRoot "" else "".

Definition script_of (goesRoot : list string) : string :=
  if (2 <=? Z.of_nat (length goesRoot)) && (0 <? len (nth 1 goesRoot ""))
  then nth 1 goesRoot "" else "".

(** The body of [Main] after its two reads of the environment. *)
Definition boot (goesRoot : list string) : M (option error) :=
  err ← Hook;
  match err with
  | Some e => panic (hook_message e)
  | None =>
      let root := root_of goesRoot in
      let script := script_of goesRoot in
      (if 0 <? len root then pivotRoot "/newroot" root script else ret tt);;
      makeTargetDirs;;
      makeTargetLinks;;
      mountTargetVirtualFilesystems;;
      runSbinInit;;
      goes_Main ["start"]
  end.

(** The outer deferred function, without its own [defer]. *)
Definition recovery (goesinstaller : string) (r : option string) : M unit :=
  recovered r;;
  if 0 <? len goesinstaller then
    let params := Split goesinstaller ","%char in
    err ← installer params;
    match err with
    | Some e => log_Print ["err"; "installer"; nth 0 params ""; ":"; Error e]
    | None => ret tt
    end
  else ret tt.

Definition Main (fuel : nat) : M (option error) := fun w =>
  let goesRoot := SplitList (Getenv "goesroot" w) in
  let goesinstaller := Getenv "goesinstaller" w in
  deferred None
    (fun r =>
       deferred tt
         (fun r' => recovered r';; emergencyShell fuel)
         (recovery goesinstaller r))
    (boot goesRoot) w.

End Program.

(** * Vocabulary for runs *)

Definition result {A} (x : outcome A * world * list event) : outcome A := x.1.1.

Definition final {A} (x : outcome A * world * list event) : world := x.1.2.

Definition events {A} (x : outcome A * world * list event) : list event := x.2.

#[global] Instance reply_eq_dec : EqDecision reply.
Proof. solve_decision. Defined.

#[global] Instance request_eq_dec : EqDecision request.
Proof. solve_decision. Defined.

#[global] Instance call_eq_dec : EqDecision call.
Proof. solve_decision. Defined.

#[global] Instance event_eq_dec : EqDecision event.
Proof. solve_decision. Defined.

(** An oracle under which nothing fails: every call succeeds and the
    collaborators leave the world alone. *)
Definition quiet : oracle :=
  Oracle (fun _ => None) (fun _ _ w => (None, w)) (fun _ _ w => (Done, w))
         (fun _ reqs w => (Z.of_nat (length reqs), Done, w)).

(** ** The monad, step by step *)

Definition extend {A} (t : list event) (x : outcome A * world * list event)
  : outcome A * world * list event := (x.1.1, x.1.2, t ++ x.2).

(** ** Properties of event lists that sequencing preserves *)

Class Closed (P : list event → Prop) : Prop := {
  closed_nil : P [];
  closed_app : ∀ t1 t2, P t1 → P t2 → P (t1 ++ t2)
}.

Definition traces {A} (P : list event → Prop) (m : M A) : Prop :=
  ∀ w, P (events (m w)).

(** ** Code that always returns *)

(** [m] returns from every world, and [Q] holds of what it returned and of
    the events it emitted. *)
Definition always {A} (m : M A) (Q : A → list event → Prop) : Prop :=
  ∀ w, ∃ a w' t, m w = (Ret a, w', t) ∧ Q a t.

(** ** Emergency shell *)

(** The collaborator came back, with or without an error. *)
Definition is_return (rep : reply) : bool :=
  match rep with
  | Done | Fail _ => true
  | Crash _ | Never => false
  end.

(** What one round of the loop does when the shell answers [rep]. *)
Definition shell_round (rep : reply) : list event :=
  [Ev (Println shell_banner) Done; Ev (GoesMain ["cli"]) rep] ++
  match rep with
  | Fail e => if bool_decide (e ≠ EOF) then [Ev (Println (Error e)) Done] else []
  | _ => []
  end.

(** ** Virtual file-system bootstrapper *)

(** The calls the bootstrapper primes the environment with. *)
Definition is_priming (c : call) : bool :=
  match c with
  | Mkdir _ _ | Mount _ _ _ _ _ | Symlink _ _ => true
  | _ => false
  end.

(** Every failed priming call is followed at once by a log line that ends
    with its error. *)
Fixpoint Logged (t : list event) : Prop :=
  match t with
  | [] => True
  | Ev c (Fail e) :: rest =>
      (is_priming c = true →
       ∃ args rest', rest = Ev (LogPrint args) Done :: rest' ∧
                     last args = Some (Error e))
      ∧ Logged rest
  | _ :: rest => Logged rest
  end.

(** A ramdisk root as the kernel hands it over, before anything is
    mounted. *)
Definition initrd : world :=
  World (list_to_map
           [ ("/init", File "goes" (perm 7 5 5));
             ("/bin", Dir (perm 7 5 5));
             ("/bin/goes", Link "../init");
             ("/usr", Dir (perm 7 5 5));
             ("/usr/bin", Dir (perm 7 5 5));
             ("/usr/bin/goes", Link "../../init");
             ("/usr/bin/gdbserver", File "gdbserver" (perm 7 5 5)) ])
        ∅ "/" 1 "/init" 0.

(** ** Recovery pathway *)

Definition loaded_message : string := "All files loaded successfully!".

(** The hand-off policy the specification describes: no kexec unless every
    requested file was fetched. *)
Definition handoff_only_when_all_fetched : Prop :=
  ∀ orc params w reqs n rep rep',
    In (Ev (FetchReqs 0 reqs n) rep) (events (installer orc params w)) →
    In (Ev (GoesMain kexec_args) rep') (events (installer orc params w)) →
    n = Z.of_nat (length reqs).

(** A network on which every download fails although [url.FetchReqs]
    itself returns no error. *)
Definition offline : oracle :=
  Oracle (fun _ => None) (fun _ _ w => (None, w)) (fun _ _ w => (Done, w))
         (fun _ _ w => (0, Done, w)).

(** How the installer ends when the collaborator it has just called gave
    the reply [rep]. *)
Definition answered (rep : reply) : outcome (option error) :=
  match rep with
  | Done => Ret None
  | Fail e => Ret (Some e)
  | Crash v => Panic v
  | Never => Gone
  end.

(** The body of [Main] is over: it returned or it panicked, so that the
    deferred functions run. *)
Definition ended {A} (x : outcome A) : Prop :=
  match x with
  | Ret _ | Panic _ => True
  | Gone | Spin => False
  end.

(** What [recover()] hands to the outer deferred function. *)
Definition panic_value {A} (x : outcome A) : option string :=
  match x with
  | Panic v => Some v
  | _ => None
  end.

(** What the deferred functions of [Main] print between the end of the
    installer and the emergency shell: the log line for a returned error,
    the panic value for a panic. *)
Definition installer_report (params : list string)
  (x : outcome (option error)) : list event :=
  match x with
  | Ret (Some e) =>
      [Ev (LogPrint ["err"; "installer"; nth 0 params ""; ":"; Error e]) Done]
  | Panic v => [Ev (Println v) Done]
  | _ => []
  end.

(** A network on which [url.FetchReqs] returns an error. *)
Definition fetch_refused : oracle :=
  Oracle (fun _ => None) (fun _ _ w => (None, w)) (fun _ _ w => (Done, w))
         (fun _ _ w => (0, Fail (Errno "connection refused"), w)).

(** ** Skeleton population *)

(** The three population calls of [pivotRoot], in its order. *)
Definition populate (orc : oracle) (mountPoint : string) : M unit :=
  makeRootDirs orc mountPoint;;
  makeRootFiles orc mountPoint;;
  makeRootLinks orc mountPoint.

Definition skeleton_paths : list string :=
  map fst rootDirs ++ map snd rootFiles ++ map snd rootLinks.

(** The root mounted at [mountPoint] holds every object of the skeleton. *)
Definition has_skeleton (mountPoint : string) (f : gmap string node) : Prop :=
  Forall (λ name, is_Some (f !! (mountPoint +:+ name))) skeleton_paths.

Definition is_stat (ev : event) : Prop :=
  match ev with
  | Ev (Stat _) _ => True
  | _ => False
  end.

(** Calls that change the file system when they succeed. *)
Definition is_write (ev : event) : bool :=
  match ev with
  | Ev (Mkdir _ _) _ | Ev (Symlink _ _) _ | Ev (Create _) _ | Ev (Copy _ _) _
  | Ev (Chmod _ _) _ | Ev (Unlink _) _ | Ev (Rmdir _) _ => true
  | _ => false
  end.

(** Code that, run where the file system and environment are those of
    [w0], only stats, returns, and leaves both as they are. *)
Definition stat_only (w0 : world) (m : M unit) : Prop :=
  ∀ w, fs w = fs w0 → env w = env w0 →
    ∃ w' t, m w = (Ret tt, w', t) ∧ fs w' = fs w0 ∧ env w' = env w0 ∧
            Forall is_stat t.

(** A ramdisk with a root mounted at "/newroot" that already holds the
    whole skeleton, booted with [goes=overwrite]. *)
Definition populated_root : world :=
  World (list_to_map
           [ ("/init", File "goes-new" (perm 7 5 5));
             ("/bin", Dir (perm 7 5 5));
             ("/bin/goes", Link "../init");
             ("/usr", Dir (perm 7 5 5));
             ("/usr/bin", Dir (perm 7 5 5));
             ("/usr/bin/goes", Link "../../init");
             ("/usr/bin/gdbserver", File "gdbserver-new" (perm 7 5 5));
             ("/newroot", Dir (perm 7 5 5));
             ("/newroot/bin", Dir (perm 7 7 5));
             ("/newroot/sbin", Dir (perm 7 5 5));
             ("/newroot/usr", Dir (perm 7 5 5));
             ("/newroot/usr/bin", Dir (perm 7 5 5));
             ("/newroot/usr/bin/goes", File "goes-old" (perm 7 5 5));
             ("/newroot/usr/bin/gdbserver", File "gdbserver-old" (perm 7 5 5));
             ("/newroot/sbin/init", Link "../usr/bin/goes") ])
        {[ "goes" := "overwrite" ]} "/" 1 "/init" 0.

(** ** Where the mode change of a copied file lands *)

(** Paths: a staging prefix never turns one skeleton path into another. *)
Fixpoint last_char (s : string) : option ascii :=
  match s with
  | EmptyString => None
  | String c EmptyString => Some c
  | String _ rest => last_char rest
  end.

Definition chmod_unprefixed (ev : event) : Prop :=
  match ev with
  | Ev (Chmod name mode) _ => In name (map snd rootFiles) ∧ mode = perm 7 5 5
  | _ => True
  end.

(** ** Invariants over the world and the events so far *)

Definition keeps {A} (I : world → list event → Prop) (m : M A) : Prop :=
  ∀ w h, I w h → I (final (m w)) (h ++ events (m w)).

(** The file at [k] either is not there and was not created so far, or is
    a regular file with the mode [os.Create] gives a new file. *)
Definition fresh_mode (k : string) (w : world) (h : list event) : Prop :=
  (fs w !! k = None ∧ ¬ In (Ev (Create k) Done) h) ∨
  (∃ data, fs w !! k = Some (File data (perm 6 6 6))).

(** A ramdisk whose new root is mounted but still empty. *)
Definition mounted : world :=
  World (<["/newroot" := Dir (perm 7 5 5)]> (fs initrd)) ∅ "/" 1 "/init" 0.

(** ** Root pivot: staging, then the switch *)

(** Everything [pivotRoot] does before it touches the old root. *)
Definition stage (orc : oracle) (mountPoint root script : string) : M unit :=
  err ← os_Stat orc mountPoint;
  (if IsNotExist err then
     must (os_Mkdir orc mountPoint (perm 7 5 5))
          (fun e => "Error creating " +:+ mountPoint +:+ ": " +:+ Error e)
   else ret tt);;
  must (goes_Main orc ["mount"; root; mountPoint])
       (fun e => "Error mounting " +:+ root +:+ " on " +:+ mountPoint
                 +:+ ": " +:+ Error e);;
  (if 0 <? len script then
     must (goes_Main orc ["source"; script])
          (fun e => "Error running boot script " +:+ script +:+ " on "
                    +:+ root +:+ ": " +:+ Error e)
   else ret tt);;
  makeRootDirs orc mountPoint;;
  makeRootFiles orc mountPoint;;
  makeRootLinks orc mountPoint;;
  moveVirtualFileSystems orc mountPoint;;
  must (os_Chdir orc mountPoint)
       (fun e => "chdir " +:+ mountPoint +:+ ": " +:+ Error e).

(** The rest: cleanup of the old root, bind-move, chroot. *)
Definition switch (orc : oracle) (mountPoint : string) : M unit :=
  unlinkRootFiles orc;;
  rmdirRootDirs orc;;
  must (syscall_Mount orc mountPoint "/" "" MS_MOVE "")
       (fun e => "mount " +:+ mountPoint +:+ " /: " +:+ Error e);;
  must (syscall_Chroot orc ".")
       (fun e => "chroot .:" +:+ Error e).

(** *** What the events of a returning run contain *)

Definition rets {A} (m : M A) (Q : list event → Prop) : Prop :=
  ∀ w a w' t, m w = (Ret a, w', t) → Q t.

(** [Q] survives events added before and after. *)
Definition upward (Q : list event → Prop) : Prop :=
  ∀ t1 t t2, Q t → Q (t1 ++ t ++ t2).

(** The stat did not report a missing file, or the creation succeeded. *)
Definition ensured (p : string) (c : call) (t : list event) : Prop :=
  (∃ rep, rep ≠ Fail ENOENT ∧ In (Ev (Stat p) rep) t) ∨ In (Ev c Done) t.

(** *** What staging has achieved when it returns *)

Definition dirs_ok (mp : string) (t : list event) : Prop :=
  ∀ name mode, In (name, mode) rootDirs →
    ensured (mp +:+ name) (Mkdir (mp +:+ name) mode) t.

Definition files_ok (mp : string) (t : list event) : Prop :=
  ∀ src dst, In (src, dst) rootFiles →
    (∃ rep, rep ≠ Fail ENOENT ∧ In (Ev (Stat (mp +:+ dst)) rep) t) ∨
    (In (Ev (Copy (mp +:+ dst) src) Done) t ∧
     In (Ev (Chmod dst (perm 7 5 5)) Done) t).

Definition links_ok (mp : string) (t : list event) : Prop :=
  ∀ src dst, In (src, dst) rootLinks →
    ensured (mp +:+ dst) (Symlink src (mp +:+ dst)) t.

Definition relocated (mp : string) (t : list event) : Prop :=
  ∀ src dst mode, In (src, dst, mode) virtualFileSystems →
    In (Ev (Mount src (mp +:+ dst) "" MS_MOVE "") Done) t.

(** The new root is mounted, the boot script (if any) ran, the skeleton is
    in place, the virtual file systems are moved and the working directory
    is the staging path. *)
Definition staged (mp root script : string) (t : list event) : Prop :=
  In (Ev (GoesMain ["mount"; root; mp]) Done) t ∧
  (0 < len script → In (Ev (GoesMain ["source"; script]) Done) t) ∧
  dirs_ok mp t ∧ files_ok mp t ∧ links_ok mp t ∧ relocated mp t ∧
  In (Ev (Chdir mp) Done) t.

(** *** The events of staging and of the switch *)

Definition is_cleanup (ev : event) : bool :=
  match ev with
  | Ev (Unlink _) _ | Ev (Rmdir _) _ => true
  | _ => false
  end.

(** Staging never touches the old root, never mounts onto "/" and never
    changes the root. *)
Definition staging_event (ev : event) : Prop :=
  match ev with
  | Ev (Unlink _) _ | Ev (Rmdir _) _ | Ev (Chroot _) _ => False
  | Ev (Mount _ target _ _ _) _ => target ≠ "/"
  | _ => True
  end.

Definition cleanup (orc : oracle) : M unit :=
  unlinkRootFiles orc;; rmdirRootDirs orc.

Definition bind_move (mp : string) : call := Mount mp "/" "" MS_MOVE "".

(** The outcome of a bind whose first part did not return. *)
Definition halt {A B} (r : outcome A) : outcome B :=
  match r with
  | Ret _ => Spin
  | Panic v => Panic v
  | Gone => Gone
  | Spin => Spin
  end.

(** ** Main: the boot sequence inside its two deferred functions *)

(** Calls of the finalizer: nothing is mounted onto "/", the root is not
    changed, the old root is not touched. *)
Definition final_event (ev : event) : Prop :=
  match ev with
  | Ev (Stat _) _ | Ev (Mkdir _ _) _ | Ev (Symlink _ _) _ | Ev (Setenv _ _) _
  | Ev (Chdir _) _ | Ev (Exec _ _ _) _ | Ev (GoesMain _) _ => True
  | Ev (Mount _ target _ _ _) _ => target ≠ "/"
  | _ => False
  end.

(** Calls of the recovery pathway and of the emergency shell. *)
Definition recovery_event (ev : event) : Prop :=
  match ev with
  | Ev (Println _) _ | Ev (Printf _) _ | Ev (LogPrint _) _ | Ev (GoesMain _) _
  | Ev (NewRequest _) _ | Ev (FetchReqs _ _ _) _ => True
  | _ => False
  end.

(** The finalizer: what [Main] runs after the pivot. *)
Definition finalize (orc : oracle) : M (option error) :=
  makeTargetDirs orc;;
  makeTargetLinks orc;;
  mountTargetVirtualFilesystems orc;;
  runSbinInit orc;;
  goes_Main orc ["start"].

(** The pivot [Main] performs when a root is configured. *)
Definition pivot_if (orc : oracle) (root script : string) : M unit :=
  if 0 <? len root then pivotRoot orc "/newroot" root script else ret tt.

(** What runs when the boot sequence returned or panicked. *)
Definition boundary (orc : oracle) (fuel : nat) (goesinstaller : string)
  (r : option string) : M unit :=
  deferred tt (λ r', recovered r';; emergencyShell orc fuel)
    (recovery orc goesinstaller r).

(** *** Straight-line code does not loop *)

Definition nospin {A} (m : M A) : Prop := ∀ w, result (m w) ≠ Spin.

(** *** Failures of the boot sequence *)

(** A fatal failure of the boot sequence, with the panic value it raises:
    the hook returned an error or panicked, the pivot panicked, or the
    finalizer panicked. *)
Inductive fatal (orc : oracle) (w : world) : string → Prop :=
| fatal_hook_error e w0 :
    o_collab orc (clock w) BoardHook w = (Fail e, w0) →
    fatal orc w (hook_message e)
| fatal_hook_panic v w0 :
    o_collab orc (clock w) BoardHook w = (Crash v, w0) →
    fatal orc w v
| fatal_pivot v w0 :
    o_collab orc (clock w) BoardHook w = (Done, w0) →
    result (pivot_if orc (root_of (SplitList (Getenv "goesroot" w)))
              (script_of (SplitList (Getenv "goesroot" w))) (after w w0))
      = Panic v →
    fatal orc w v
| fatal_finalizer v w0 :
    o_collab orc (clock w) BoardHook w = (Done, w0) →
    result (pivot_if orc (root_of (SplitList (Getenv "goesroot" w)))
              (script_of (SplitList (Getenv "goesroot" w))) (after w w0))
      = Ret tt →
    result (finalize orc
              (final (pivot_if orc (root_of (SplitList (Getenv "goesroot" w)))
                        (script_of (SplitList (Getenv "goesroot" w)))
                        (after w w0))))
      = Panic v →
    fatal orc w v.

(** ** Parsing [goesroot] *)

(** What [pivotRoot] does before it populates the skeleton. *)
Definition prologue (orc : oracle) (mountPoint root script : string) : M unit :=
  err ← os_Stat orc mountPoint;
  (if IsNotExist err then
     must (os_Mkdir orc mountPoint (perm 7 5 5))
          (fun e => "Error creating " +:+ mountPoint +:+ ": " +:+ Error e)
   else ret tt);;
  must (goes_Main orc ["mount"; root; mountPoint])
       (fun e => "Error mounting " +:+ root +:+ " on " +:+ mountPoint
                 +:+ ": " +:+ Error e);;
  if 0 <? len script then
    must (goes_Main orc ["source"; script])
         (fun e => "Error running boot script " +:+ script +:+ " on "
                   +:+ root +:+ ": " +:+ Error e)
  else ret tt.

Definition epilogue (orc : oracle) (mountPoint : string) : M unit :=
  makeRootDirs orc mountPoint;;
  makeRootFiles orc mountPoint;;
  makeRootLinks orc mountPoint;;
  moveVirtualFileSystems orc mountPoint;;
  must (os_Chdir orc mountPoint)
       (fun e => "chdir " +:+ mountPoint +:+ ": " +:+ Error e);;
  unlinkRootFiles orc;;
  rmdirRootDirs orc;;
  must (syscall_Mount orc mountPoint "/" "" MS_MOVE "")
       (fun e => "mount " +:+ mountPoint +:+ " /: " +:+ Error e);;
  must (syscall_Chroot orc ".")
       (fun e => "chroot .:" +:+ Error e).

Definition mem (p : string) (l : list string) : bool :=
  existsb (String.eqb p) l.

(** Calls that populate the skeleton under "/newroot". *)
Definition skeleton_call (ev : event) : bool :=
  match ev with
  | Ev (Stat p) _ | Ev (Mkdir p _) _ | Ev (Create p) _ | Ev (Symlink _ p) _
  | Ev (Copy p _) _ => mem p (map (String.append "/newroot") skeleton_paths)
  | Ev (Open p) _ => mem p (map fst rootFiles)
  | Ev (Chmod p _) _ => mem p (map snd rootFiles)
  | _ => false
  end.

Definition prologue_event (ev : event) : Prop :=
  match ev with
  | Ev (Stat p) _ | Ev (Mkdir p _) _ => p = "/newroot"
  | Ev (GoesMain _) _ => True
  | _ => False
  end.

Definition colon_pair : string := "/dev/sda1:/etc/boot.conf".

Definition comma_pair : string := "/dev/sda1,/etc/boot.conf".

Definition mount_root : event :=
  Ev (GoesMain ["mount"; "/dev/sda1"; "/newroot"]) Done.

Definition source_script : event :=
  Ev (GoesMain ["source"; "/etc/boot.conf"]) Done.

(** A ramdisk booted with the comma-separated pair of the specification. *)
Definition comma_boot : world :=
  World (fs initrd) {[ "goesroot" := comma_pair ]} "/" 1 "/init" 0.

(** ** The finalizer inside [Main] *)

(** The environment set-up of [runSbinInit]. *)
Definition setup_event (ev : event) : Prop :=
  match ev with
  | Ev (Setenv _ _) _ | Ev (Chdir _) _ => True
  | _ => False
  end.

Definition stat_init (rep : reply) : event := Ev (Stat sbininit) rep.

(** Before [runSbinInit], nothing stats "/sbin/init" or executes anything. *)
Definition before_init (ev : event) : Prop :=
  match ev with
  | Ev (Stat p) _ => p ≠ sbininit
  | Ev (Exec _ _ _) _ => False
  | _ => True
  end.

(** The boot sequence between the hook and [runSbinInit]. *)
Definition approach (orc : oracle) (root script : string) : M unit :=
  pivot_if orc root script;;
  makeTargetDirs orc;;
  makeTargetLinks orc;;
  mountTargetVirtualFilesystems orc.

(** ** Concrete oracles and worlds *)

(** An interactive shell that fails every time it is started. *)
Definition grumpy : oracle :=
  Oracle (fun _ => None) (fun _ _ w => (None, w))
         (fun _ c w => match c with
                       | GoesMain ["cli"] => (Fail (Errno "exit status 1"), w)
                       | _ => (Done, w)
                       end)
         (fun _ reqs w => (Z.of_nat (length reqs), Done, w)).

(** A kernel that refuses to move a mount onto "/". *)
Definition stuck : oracle :=
  Oracle (fun _ => None)
         (fun _ c w =>
            match c with
            | Mount _ target _ _ _ =>
                if String.eqb target "/"
                then (Some (Errno "device or resource busy"), w)
                else (None, w)
            | _ => (None, w)
            end)
         (fun _ _ w => (Done, w))
         (fun _ reqs w => (Z.of_nat (length reqs), Done, w)).

(** The ramdisk booted with [goesroot=/dev/sda1]. *)
Definition sda1_boot : world :=
  World (fs initrd) {[ "goesroot" := "/dev/sda1" ]} "/" 1 "/init" 0.

(** A disk that cannot be mounted and a network that delivers nothing,
    with a recovery descriptor of two URLs. *)
Definition no_disk : oracle :=
  Oracle (fun _ => None) (fun _ _ w => (None, w))
         (fun _ c w =>
            match c with
            | GoesMain ("mount" :: _) => (Fail (Errno "no such device"), w)
            | GoesMain ("kexec" :: _) => (Fail (Errno "kernel: no such file"), w)
            | _ => (Done, w)
            end)
         (fun _ _ w => (0, Done, w)).

Definition recovery_boot : world :=
  World (fs initrd)
        {[ "goesroot" := "/dev/sda1"; "goesinstaller" := "http://x/k,http://x/i" ]}
        "/" 1 "/init" 0.

Definition mount_failure : string :=
  "Error mounting /dev/sda1 on /newroot: no such device".

(** The ramdisk booted with the colon-separated pair. *)
Definition colon_boot : world :=
  World (fs initrd) {[ "goesroot" := colon_pair ]} "/" 1 "/init" 0.

(** The root that already holds the skeleton, booted without the flag. *)
Definition settled_root : world :=
  World (fs populated_root) ∅ "/" 1 "/init" 0.

(** ** What [Main] does around the boot sequence *)

(** The daemon start that ends the boot sequence. *)
Definition start_event (rep : reply) : event := Ev (GoesMain ["start"]) rep.

Definition not_start (ev : event) : Prop :=
  match ev with
  | Ev (GoesMain args) _ => args ≠ ["start"]
  | _ => True
  end.

(** The first URL of [goesinstaller], the kernel. *)
Definition kernel_url (goesinstaller : string) : string :=
  nth 0 (Split goesinstaller ","%char) "".

(** What follows a return of [goes.Main("start")]. *)
Definition after_start (goesinstaller : string) (post : list event) : Prop :=
  if len goesinstaller =? 0 then
    ∃ rep post',
      post = Ev (Println shell_banner) Done :: Ev (GoesMain ["cli"]) rep :: post'
  else if len (kernel_url goesinstaller) =? 0 then
    ∃ post',
      post = Ev (LogPrint ["err"; "installer"; ""; ":"; "KERNEL: missing"]) Done
             :: Ev (Println shell_banner) Done :: post'
  else
    ∃ rep post', post = Ev (NewRequest (kernel_url goesinstaller)) rep :: post'.

(** Calls that belong to the root pivot and to nothing else in [Main]. *)
Definition pivot_event (ev : event) : bool :=
  match ev with
  | Ev (Chroot _) _ | Ev (Unlink _) _ | Ev (Rmdir _) _ | Ev (Open _) _
  | Ev (Create _) _ | Ev (Copy _ _) _ | Ev (Chmod _ _) _ => true
  | Ev (Mount _ _ _ flags _) _ => flags =? MS_MOVE
  | Ev (GoesMain (name :: _)) _ =>
      String.eqb name "mount" || String.eqb name "source"
  | Ev (Stat p) _ | Ev (Mkdir p _) _ | Ev (Symlink _ p) _ | Ev (Chdir p) _ =>
      String.prefix "/newroot" p
  | _ => false
  end.

(** The environment [runSbinInit] hands to "/sbin/init". *)
Definition init_environment (w : world) : list string :=
  [ "PATH=/bin:/usr/bin"; "SHELL=/bin/goes"; "HOME=/root";
    "TERM=" +:+ (if len (Getenv "TERM" w) =? 0 then "linux"
                 else Getenv "TERM" w) ].

(** The cleanup calls in the order of their tables, each with its reply. *)
Definition cleanup_calls (ureps rreps : list reply) : list event :=
  zip_with (λ fn rep, Ev (Unlink fn) rep) oldRootFiles ureps ++
  zip_with (λ dir rep, Ev (Rmdir dir) rep) oldRootDirs rreps.

Definition not_chdir (ev : event) : Prop :=
  match ev with
  | Ev (Chdir _) _ => False
  | _ => True
  end.

(** A run that changes directory at most once, as its last call, and
    returns when and only when that call succeeded. *)
Definition ends_chdir (mp : string) (x : outcome unit * world * list event)
  : Prop :=
  ∃ t, Forall not_chdir t ∧
    ((events x = t ∧ ∀ a, result x ≠ Ret a) ∨
     (∃ err, events x = t ++ [Ev (Chdir mp) (reply_of err)] ∧
             (err = None → result x = Ret tt) ∧
             (∀ e, err = Some e → ∀ a, result x ≠ Ret a))).

(** The files the installer asks for: the kernel, then the initramfs and
    the device tree when their URLs are given. *)
Definition wanted (params : list string) : list request :=
  Request (nth 0 params "") "kernel"
  :: (if len (nth 1 params "") =? 0 then []
      else [Request (nth 1 params "") "initramfs"])
  ++ (if len (nth 2 params "") =? 0 then []
      else [Request (nth 2 params "") "fdt"]).

(** The ramdisk booted without a root, with a recovery kernel. *)
Definition installer_boot : world :=
  World (fs initrd) {[ "goesinstaller" := "http://x/k" ]} "/" 1 "/init" 0.

(** The ramdisk booted with a script and no root. *)
Definition script_only_boot : world :=
  World (fs initrd) {[ "goesroot" := ":/etc/boot.conf" ]} "/" 1 "/init" 0.

(** A root that has an init, entered with a terminal type and a path. *)
Definition served_root : world :=
  World (list_to_map [ ("/root", Dir (perm 7 0 0)); ("/sbin", Dir (perm 7 5 5));
                       ("/sbin/init", File "init" (perm 7 5 5)) ])
        {[ "TERM" := "vt100"; "PATH" := "/opt/bin" ]} "/" 1 "/init" 0.

(** * Commands as runs: a call counter, an event log, panics

    The other commands of the repository are embedded in one small monad: a
    run counts the calls it has issued, so that what answers them can be
    asked by number, logs its events, and returns a value, panics, blocks
    or goes on looping. *)

Inductive res (A : Type) : Type :=
| Val (a : A)          (* normal return *)
| Throw (v : string)   (* unwinding with panic value v *)
| Block                (* blocked for ever on a channel *)
| Loop.                (* still looping when the fuel ran out *)
Arguments Val {A} a.
Arguments Throw {A} v.
Arguments Block {A}.
Arguments Loop {A}.

Definition Run (E A : Type) : Type := nat -> res A * nat * list E.

Definition run_ret {E A} (a : A) : Run E A := fun n => (Val a, n, []).

Definition run_bind {E A B} (m : Run E A) (f : A -> Run E B) : Run E B :=
  fun n =>
  match m n with
  | (Val a, n1, t1) => let '(r, n2, t2) := f a n1 in (r, n2, t1 ++ t2)
  | (Throw v, n1, t1) => (Throw v, n1, t1)
  | (Block, n1, t1) => (Block, n1, t1)
  | (Loop, n1, t1) => (Loop, n1, t1)
  end.

#[global] Instance Run_ret {E} : MRet (Run E) := @run_ret E.
#[global] Instance Run_bind {E} : MBind (Run E) :=
  fun A B f m => run_bind m f.

(** [panic(v)] *)
Definition throw {E A} (v : string) : Run E A := fun n => (Throw v, n, []).

(** An event that needs no answer. *)
Definition emit {E} (ev : E) : Run E unit := fun n => (Val tt, n, [ev]).

Definition run_result {E A} (x : res A * nat * list E) : res A := x.1.1.
Definition run_events {E A} (x : res A * nat * list E) : list E := x.2.

(** The run-time panics of the Go code. *)
Definition nil_dereference : string :=
  "runtime error: invalid memory address or nil pointer dereference".

Definition index_out_of_range : string := "runtime error: index out of range".

(** [fields[i]] *)
Definition index {E} (fields : list string) (i : nat) : Run E string :=
  match nth_error fields i with
  | Some field => run_ret field
  | None => throw index_out_of_range
  end.

(** * The mount command behind [goes.Main("mount", ...)]

    A shallow embedding of package [mount]
    (src/internal/required/mount/mount.go).  The command reads
    "/proc/filesystems" and "/etc/fstab" with [bufio.Scanner] and calls
    [syscall.Mount]; what the scanner delivers and what the kernel answers
    are parameters, and so are the library functions [strings.Fields] and
    [strings.TrimSpace], [flags.New] and [parms.New], and the two functions
    that start goroutines, [mountall] and [mountprobe]. *)

Module mount.

(** [const Name = "mount"] *)
Definition Name : string := "mount".

(** The mount flags of Go's [syscall] package on Linux.  [MS_ASYNC] is a
    flag of msync(2) and has the value of [MS_RDONLY], 1. *)
Definition MS_RDONLY : Z := 1.
Definition MS_NOSUID : Z := 2.
Definition MS_NODEV : Z := 4.
Definition MS_NOEXEC : Z := 8.
Definition MS_SYNCHRONOUS : Z := 16.
Definition MS_REMOUNT : Z := 32.
Definition MS_MANDLOCK : Z := 64.
Definition MS_DIRSYNC : Z := 128.
Definition MS_NOATIME : Z := 1024.
Definition MS_NODIRATIME : Z := 2048.
Definition MS_BIND : Z := 4096.
Definition MS_SILENT : Z := 32768.
Definition MS_POSIXACL : Z := 65536.
Definition MS_UNBINDABLE : Z := 131072.
Definition MS_PRIVATE : Z := 262144.
Definition MS_SLAVE : Z := 524288.
Definition MS_SHARED : Z := 1048576.
Definition MS_RELATIME : Z := 2097152.
Definition MS_I_VERSION : Z := 8388608.
Definition MS_STRICTATIME : Z := 16777216.
Definition MS_ASYNC : Z := 1.

(** [const MS_NOUSER uintptr = (1 << 31)] *)
Definition MS_NOUSER : Z := Z.shiftl 1 31.

Definition procFilesystems : string := "/proc/filesystems".

Record fstabEntry : Type := FstabEntry {
  fsSpec : string;
  fsFile : string;
  fsType : string;
  mntOpts : string
}.

Record filesystems : Type := Filesystems {
  isNoDev : gmap string bool;
  autoList : list string
}.

(** [flags.Flag] and [parms.Parm], indexed as maps by the source: a missing
    flag reads false and a missing parameter reads empty. *)
Definition Flag : Type := gmap string bool.
Definition Parm : Type := gmap string string.

Definition on (flag : Flag) (name : string) : bool :=
  default false (flag !! name).

Definition get (parm : Parm) (name : string) : string :=
  default "" (parm !! name).

(** [var translations]: name, bits, set. *)
Definition translations : list (string * Z * bool) :=
  [ ("-read-only", MS_RDONLY, true);
    ("-read-write", MS_RDONLY, false);
    ("-suid", MS_NOSUID, false);
    ("-no-suid", MS_NOSUID, true);
    ("-dev", MS_NODEV, false);
    ("-no-dev", MS_NODEV, true);
    ("-exec", MS_NOEXEC, false);
    ("-no-exec", MS_NOEXEC, true);
    ("-synchronous", MS_SYNCHRONOUS, true);
    ("-no-synchronous", MS_SYNCHRONOUS, true);
    ("-remount", MS_REMOUNT, true);
    ("-mand", MS_MANDLOCK, true);
    ("-no-mand", MS_MANDLOCK, false);
    ("-dirsync", MS_DIRSYNC, true);
    ("-no-dirsync", MS_DIRSYNC, false);
    ("-atime", MS_NOATIME, false);
    ("-no-atime", MS_NOATIME, true);
    ("-diratime", MS_NODIRATIME, false);
    ("-no-diratime", MS_NODIRATIME, true);
    ("-bind", MS_BIND, true);
    ("-move", MS_MOVE, true);
    ("-silent", MS_SILENT, true);
    ("-loud", MS_SILENT, false);
    ("-posixacl", MS_POSIXACL, true);
    ("-no-posixacl", MS_POSIXACL, false);
    ("-bindable", MS_UNBINDABLE, false);
    ("-unbindable", MS_UNBINDABLE, true);
    ("-private", MS_PRIVATE, true);
    ("-slave", MS_SLAVE, true);
    ("-shared", MS_SHARED, true);
    ("-relatime", MS_RELATIME, true);
    ("-no-relatime", MS_RELATIME, false);
    ("-iversion", MS_I_VERSION, true);
    ("-no-iversion", MS_I_VERSION, false);
    ("-strictatime", MS_STRICTATIME, true);
    ("-no-strictatime", MS_STRICTATIME, false) ].

Record MountResult : Type := Result {
  err : option error;
  dev : string;
  fstype : string;
  dir : string;
  flag : Flag
}.

(** [func (r *MountResult) String() string] *)
Definition String (r : MountResult) : string :=
  match err r with
  | Some e => dev r +:+ ": " +:+ Error e
  | None =>
      if on (flag r) "--fake" then
        "Would mount " +:+ dev r +:+ " type " +:+ fstype r +:+ " at " +:+ dir r
      else if on (flag r) "-v" then
        "Mounted " +:+ dev r +:+ " type " +:+ fstype r +:+ " at " +:+ dir r
      else ""
  end.

(** ** Effects *)

(** What leaves the command: mounts and lines of output. *)
Inductive call : Type :=
| Mount (source target fstype : string) (flags : Z) (data : string)
| Println (s : string)             (* fmt.Println *)
| Print (s : string)               (* fmt.Print *)
| Eprintln (s : string).           (* fmt.Fprintln(os.Stderr, ...) *)

Inductive event : Type := Ev (c : call) (r : option error).

Abbreviation M := (Run event).

Definition say (c : call) : M unit := emit (Ev c None).

(** [fs.autoList], [fs.isNoDev] through a pointer that may be nil. *)
Definition deref (fs : option filesystems) : M filesystems :=
  match fs with
  | Some f => run_ret f
  | None => throw nil_dereference
  end.

(** [strings.Index(line, "#") < 0] *)
Definition no_hash (line : string) : bool :=
  negb (existsb (Ascii.eqb "#"%char) (list_ascii_of_string line)).

(** [strings.TrimPrefix] *)
Definition TrimPrefix (s pre : string) : string :=
  if String.prefix pre s
  then String.substring (String.length pre)
         (String.length s - String.length pre) s
  else s.

(** [fmt.Errorf("%v: unexpected", args)]: a slice prints in brackets, its
    elements separated by spaces. *)
Definition show_slice (args : list string) : string :=
  "[" +:+ String.concat " " args +:+ "]".

Section Command.

(** [syscall.Mount], answered by the kernel. *)
Variable kernel : nat -> call -> option error.

(** [os.Open] and [bufio.Scanner] on a path: the error of the open, or the
    lines the scanner delivers and its final [Err()]. *)
Variable scan : string -> error + (list string * option error).

Variable Fields : string -> list string.
Variable TrimSpace : string -> string.

(** [flags.New] and [parms.New], which sort the arguments. *)
Variable flags_New : list string -> list string -> Flag * list string.
Variable parms_New : list string -> list string -> Parm * list string.

Definition syscall_Mount (source target fstype : string) (flags : Z)
  (data : string) : M (option error) := fun n =>
  let c := Mount source target fstype flags data in
  (Val (kernel n c), S n, [Ev c (kernel n c)]).

(** [func readSuperBlock(dev string) (superBlock, error)] *)
Definition readSuperBlock (dev : string) : unit * option error := (tt, None).

(** [func (r *MountResult) ShowResult()] *)
Definition ShowResult (r : MountResult) : M unit :=
  let s := String r in
  if negb (String.eqb s "") then say (Println s) else run_ret tt.

(** The flag word of [mountone], from [var flags uintptr] to the end of the
    loop over [translations].  No bit above 31 is involved, so nothing
    wraps. *)
Definition mount_flags (flag : Flag) : Z :=
  let flags := 0 in
  let flags :=
    if on flag "-defaults" then
      let flags := Z.ldiff flags MS_RDONLY in
      let flags := Z.ldiff flags MS_NOSUID in
      let flags := Z.ldiff flags MS_NODEV in
      let flags := Z.ldiff flags MS_NOEXEC in
      let flags := Z.lor flags MS_NOUSER in
      Z.lor flags MS_ASYNC
    else flags in
  fold_left (fun flags '(name, bits, set) =>
               if on flag name then
                 if set : bool then Z.lor flags bits else Z.ldiff flags bits
               else flags)
            translations flags.

(** [for _, t := range tryTypes]: the type that mounted, or the last
    error. *)
Fixpoint try_types (dev dir : string) (flags : Z) (data : string)
  (tryTypes : list string) (err : option error) : M (string + option error) :=
  match tryTypes with
  | [] => run_ret (inr err)
  | t :: rest =>
      err ← syscall_Mount dev dir t flags data;
      match err with
      | None => run_ret (inl t)
      | Some e => try_types dev dir flags data rest (Some e)
      end
  end.

Definition mountone (fs : option filesystems) (t dev dir : string)
  (flag : Flag) (parm : Parm) : M MountResult :=
  let t := if on flag "-defaults" && String.eqb t "" then "auto" else t in
  let flags := mount_flags flag in
  if on flag "--fake" then run_ret (Result None dev t dir flag)
  else
    '(tryTypes, nodev) ←
      (if String.eqb t "auto" then
         f ← deref fs; run_ret (autoList f, false)
       else
         f ← deref fs; run_ret ([t], default false (isNoDev f !! t)));
    match (if negb nodev then snd (readSuperBlock dev) else None) with
    | Some e => run_ret (Result (Some e) dev t dir flag)
    | None =>
        r ← try_types dev dir flags (get parm "-o") tryTypes None;
        match r with
        | inl t' => run_ret (Result None dev t' dir flag)
        | inr err => run_ret (Result err dev t dir flag)
        end
    end.

(** The body of the scanning loop of [loadFstab]. *)
Definition fstab_line (fstab : list fstabEntry) (line : string)
  : M (list fstabEntry) :=
  if no_hash line then
    let fields := Fields line in
    f0 ← index fields 0;
    f1 ← index fields 1;
    f2 ← index fields 2;
    f3 ← index fields 3;
    run_ret (fstab ++ [FstabEntry f0 f1 f2 f3])
  else run_ret fstab.

Fixpoint scanning {A} (body : A -> string -> M A) (lines : list string)
  (acc : A) : M A :=
  match lines with
  | [] => run_ret acc
  | line :: rest => acc ← body acc line; scanning body rest acc
  end.

Definition loadFstab : M (list fstabEntry * option error) :=
  match scan "/etc/fstab" with
  | inl e => run_ret ([], Some e)
  | inr (lines, serr) =>
      fstab ← scanning fstab_line lines [];
      run_ret (fstab, serr)
  end.

(** [for _, x := range fstab] of [fstab]: the first entry named. *)
Fixpoint fstab_entries (fs : option filesystems) (name : string)
  (flag : Flag) (parm : Parm) (entries : list fstabEntry)
  : M (option error) :=
  match entries with
  | [] => run_ret None
  | x :: rest =>
      if String.eqb name (fsSpec x) || String.eqb name (fsFile x) then
        r ← mountone fs (fsType x) (fsSpec x) (fsFile x) flag parm;
        ShowResult r;;
        run_ret (err r)
      else fstab_entries fs name flag parm rest
  end.

Definition fstab (fs : option filesystems) (name : string) (flag : Flag)
  (parm : Parm) : M (option error) :=
  '(entries, err) ← loadFstab;
  match err with
  | Some e => run_ret (Some e)
  | None => fstab_entries fs name flag parm entries
  end.

(** The body of the scanning loop of [show]. *)
Definition show_line (_ : unit) (line : string) : M unit :=
  let fields := Fields line in
  f0 ← index fields 0;
  f1 ← index fields 1;
  f2 ← index fields 2;
  f3 ← index fields 3;
  say (Print (f0 +:+ " on " +:+ f1 +:+ " type " +:+ f2 +:+ "(" +:+ f3 +:+ ")"
              +:+ newline)).

Definition show : M (option error) :=
  match scan "/proc/mounts" with
  | inl e => run_ret (Some e)
  | inr (lines, serr) => scanning show_line lines tt;; run_ret serr
  end.

(** The body of the scanning loop of [getFilesystems]. *)
Definition filesystems_line (fs : filesystems) (line : string) : filesystems :=
  let nodev := String.prefix "nodev" line in
  let line := if nodev then TrimPrefix line "nodev" else line in
  let line := TrimSpace line in
  Filesystems (<[line := nodev]> (isNoDev fs))
              (if negb nodev then autoList fs ++ [line] else autoList fs).

Definition getFilesystems : M (option filesystems * option error) :=
  match scan procFilesystems with
  | inl e => run_ret (None, Some e)
  | inr (lines, serr) =>
      let fs := fold_left filesystems_line lines (Filesystems ∅ []) in
      match serr with
      | Some e =>
          say (Eprintln ("scan: " +:+ procFilesystems +:+ " " +:+ Error e));;
          run_ret (None, Some e)
      | None => run_ret (Some fs, None)
      end
  end.

(** The two functions that mount from goroutines. *)
Variable mountall : option filesystems -> Flag -> Parm -> M (option error).
Variable mountprobe :
  option filesystems -> string -> Flag -> Parm -> M (option error).

Definition known_flags : list string :=
  [ "--fake"; "-v"; "-a"; "-F"; "-defaults"; "-p"; "-r"; "-read-write";
    "-suid"; "-no-suid"; "-dev"; "-no-dev"; "-exec"; "-no-exec";
    "-synchronous"; "-no-synchronous"; "-remount"; "-mand"; "-no-mand";
    "-dirsync"; "-no-dirsync"; "-atime"; "-no-atime"; "-diratime";
    "-no-diratime"; "-bind"; "-move"; "-silent"; "-loud"; "-posixacl";
    "-no-posixacl"; "-bindable"; "-unbindable"; "-private"; "-slave";
    "-shared"; "-relatime"; "-no-relatime"; "-iversion"; "-no-iversion";
    "-strictatime"; "-no-strictatime" ].

(** [func (cmd) Main(args ...string) error].  The error of
    [getFilesystems] is overwritten by every branch. *)
Definition Main (args : list string) : M (option error) :=
  let '(flag, args) := flags_New args known_flags in
  let '(parm, args) := parms_New args ["-match"; "-o"; "-t"] in
  let parm := if len (get parm "-t") =? 0 then <["-t" := "auto"]> parm
              else parm in
  '(fs, _) ← getFilesystems;
  if on flag "-a" then mountall fs flag parm
  else
    match args with
    | [] => show
    | [a0] =>
        if on flag "-p" then mountprobe fs a0 flag parm
        else fstab fs a0 flag parm
    | [a0; a1] =>
        r ← mountone fs (get parm "-t") a0 a1 flag parm;
        ShowResult r;;
        run_ret (err r)
    | _ :: _ :: rest =>
        run_ret (Some (Errno (show_slice rest +:+ ": unexpected")))
    end.

End Command.

(** The entry [loadFstab] makes of a line with four fields or more. *)
Definition entry_of (Fields : string -> list string) (line : string)
  : fstabEntry :=
  let fields := Fields line in
  FstabEntry (nth 0 fields "") (nth 1 fields "") (nth 2 fields "")
             (nth 3 fields "").

(** [name == x.fsSpec || name == x.fsFile] *)
Definition names (name : string) (x : fstabEntry) : bool :=
  String.eqb name (fsSpec x) || String.eqb name (fsFile x).

(** Mounts of [dev] on [dir], one per type, each with its reply. *)
Definition attempts (dev dir : string) (flags : Z) (data : string)
  (types : list string) (errs : list (option error)) : list event :=
  zip_with (fun t e => Ev (Mount dev dir t flags data) e) types errs.

End mount.

(** ** A concrete machine for the mount command *)

(** [strings.Fields] on text whose only white space is blanks and tabs. *)
Fixpoint fields_from (s word : string) : list string :=
  match s with
  | EmptyString => if String.eqb word "" then [] else [word]
  | String c rest =>
      if Ascii.eqb c " " || Ascii.eqb c (ascii_of_nat 9) then
        if String.eqb word "" then fields_from rest ""
        else word :: fields_from rest ""
      else fields_from rest (word +:+ String c EmptyString)
  end.

Definition blank_fields (s : string) : list string := fields_from s "".

Definition sample_fstab : list string :=
  [ "# <file system> <mount point> <type> <options>";
    "/dev/sda1 / ext4 errors=remount-ro 0 1";
    "/dev/sda2 /home ext4 defaults 0 2 # home";
    "/dev/sda6 /var xfs noatime" ].

Definition sample_filesystems : list string :=
  [ "nodev" +:+ String (ascii_of_nat 9) "sysfs";
    String (ascii_of_nat 9) "ext2";
    String (ascii_of_nat 9) "ext4";
    String (ascii_of_nat 9) "vfat" ].

Definition sample_scan (path : string)
  : error + (list string * option error) :=
  if String.eqb path "/etc/fstab" then inr (sample_fstab, None)
  else if String.eqb path "/proc/filesystems" then inr (sample_filesystems, None)
  else inl ENOENT.

(** "/proc" is not mounted. *)
Definition no_proc (path : string) : error + (list string * option error) :=
  inl ENOENT.

(** A kernel that mounts ext4 and nothing else. *)
Definition ext4_only (n : nat) (c : mount.call) : option error :=
  match c with
  | mount.Mount _ _ fstype _ _ =>
      if String.eqb fstype "ext4" then None
      else Some (Errno "invalid argument")
  | _ => None
  end.

Definition sample_types : mount.filesystems :=
  mount.Filesystems {[ "sysfs" := true; "ext2" := false; "ext4" := false;
                       "vfat" := false ]}
                    [ "ext2"; "ext4"; "vfat" ].

(** Argument sorting that finds no flag and no parameter. *)
Definition no_flags (args names : list string) : mount.Flag * list string :=
  (∅, args).

Definition no_parms (args names : list string) : mount.Parm * list string :=
  (∅, args).

Definition not_called (fs : option mount.filesystems) (flag : mount.Flag)
  (parm : mount.Parm) : Run mount.event (option error) := run_ret None.

Definition not_probed (fs : option mount.filesystems) (mountpoint : string)
  (flag : mount.Flag) (parm : mount.Parm) : Run mount.event (option error) :=
  run_ret None.

(** * The boot client of coreboot

    A shallow embedding of package [bootc]
    (src/goes/cmd/platina/mk1/bootc/bootc.go, first document of the file).
    The helpers of the package that are defined in its other files
    ([getMasterIP], [register], [dumpvars], ...), the goes machine [c.g],
    [ioutil.ReadFile] and [ioutil.WriteFile] are answered from outside, by
    call number. *)

(** [strings.Split(s, sep)] for a separator that is not empty: the pieces
    between the occurrences of the separator, found from the left and not
    overlapping.  [skip] counts the bytes of an occurrence still to pass. *)
Fixpoint split_from (sep s cur : string) (skip : nat) : list string :=
  match s with
  | EmptyString => [cur]
  | String c rest =>
      match skip with
      | S k => split_from sep rest cur k
      | O =>
          if String.prefix sep s
          then cur :: split_from sep rest "" (String.length sep - 1)
          else split_from sep rest (cur +:+ String c EmptyString) 0
      end
  end.

Definition SplitStr (s sep : string) : list string := split_from sep s "" 0.

Definition slice_out_of_range : string :=
  "runtime error: slice bounds out of range".

(** [strconv.ParseUint(s, 10, 32)]: decimal digits only, no sign, below
    2^32; the first offending byte decides between the two errors. *)
Inductive NumError : Type := ErrSyntax | ErrRange.

Definition digit (c : ascii) : option Z :=
  let n := Z.of_nat (nat_of_ascii c) in
  if (48 <=? n) && (n <=? 57) then Some (n - 48) else None.

Fixpoint parse_digits (s : string) (n : Z) : Z + NumError :=
  match s with
  | EmptyString => inl n
  | String c rest =>
      match digit c with
      | None => inr ErrSyntax
      | Some d =>
          if 4294967295 <? n * 10 + d then inr ErrRange
          else parse_digits rest (n * 10 + d)
      end
  end.

Definition ParseUint (s : string) : Z + NumError :=
  match s with
  | EmptyString => inr ErrSyntax
  | _ => parse_digits s 0
  end.

Module bootc.

Inductive call : Type :=
| Println (s : string)
| GetMasterIP
| GetMAC
| GetIP
| GetMAC3
| GetIP3
| Register (mip mac ip : string)
| ReadFile (path : string)
| WriteFile (path data : string) (perm : Z)
| GoesMain (args : list string)            (* c.g.Main *)
| Dumpvars (mip : string)
| Dashboard (mip : string)
| Getnumclients (mip : string)
| Getclientdata (mip : string) (j : Z)
| Getscript (mip name : string)
| Getbinary (mip name : string)
| Test404 (mip : string).

Inductive event : Type := Ev (c : call) (r : option error).

Abbreviation M := (Run event).

Definition usage : string :=
  "enter 1 for sda1 install, 6 for normal sda6 boot".

Section Command.

(** What the helpers return: their text, the reply code and name of
    [register], the content [ioutil.ReadFile] read, and every error. *)
Variable text : nat -> call -> string.
Variable reply : nat -> call -> Z * string.
Variable content : nat -> string -> string.
Variable answer : nat -> call -> option error.

(** [strconv.Quote] in the text of a [*strconv.NumError]. *)
Variable Quote : string -> string.

(** [bootd.RegReplyRegistered] *)
Variable RegReplyRegistered : Z.

Definition fmt_Println (s : string) : M unit := emit (Ev (Println s) None).

Definition getter (c : call) : M string := fun n =>
  (Val (text n c), S n, [Ev c None]).

Definition getMasterIP : M string := getter GetMasterIP.
Definition getMAC : M string := getter GetMAC.
Definition getIP : M string := getter GetIP.
Definition getMAC3 : M string := getter GetMAC3.
Definition getIP3 : M string := getter GetIP3.

Definition helper (c : call) : M (option error) := fun n =>
  (Val (answer n c), S n, [Ev c (answer n c)]).

Definition register (mip mac ip : string) : M (Z * string * option error) :=
  fun n =>
  let c := Register mip mac ip in
  (Val (reply n c, answer n c), S n, [Ev c (answer n c)]).

Definition ioutil_ReadFile (path : string) : M (string * option error) :=
  fun n =>
  let c := ReadFile path in
  (Val (content n path, answer n c), S n, [Ev c (answer n c)]).

Definition ioutil_WriteFile (path data : string) (perm : Z)
  : M (option error) := helper (WriteFile path data perm).

Definition NumError_Error (s : string) (e : NumError) : string :=
  "strconv.ParseUint: parsing " +:+ Quote s +:+ ": " +:+
  match e with
  | ErrSyntax => "invalid syntax"
  | ErrRange => "value out of range"
  end.

(** [dat3[0:len3]] with [len3 := len(dat3) - 1] *)
Definition but_last (dat3 : string) : M string :=
  if len dat3 =? 0 then throw slice_out_of_range
  else run_ret (String.substring 0 (String.length dat3 - 1) dat3).

(** The line cases 1, 2 and 6 write to "kexec1". *)
Definition kexec_line (vmlinuz initrd uuid : string) : string :=
  "kexec -k " +:+ vmlinuz +:+ " -i " +:+ initrd
  +:+ " -c 'root=UUID=" +:+ uuid
  +:+ " console=ttyS0,115200 netcfg/get_hostname=platina netcfg/get_domain=platinasystems.com interface=auto auto' -e".

(** Cases 1, 2 and 6 of [Main], which differ in the three paths: read the
    UUID of the root from the fstab, write a kexec line to "kexec1" and
    source it. *)
Definition install (fstab vmlinuz initrd : string) : M (option error) :=
  '(dat, er) ← ioutil_ReadFile fstab;
  let dat1 := SplitStr dat "UUID=" in
  piece ← index dat1 2;
  let dat2 := Split piece "/"%char in
  dat3 ← index dat2 0;
  dat4 ← but_last dat3;
  let uuid := dat4 in
  fmt_Println uuid;;
  let kexc := kexec_line vmlinuz initrd uuid in
  fmt_Println kexc;;
  err ← ioutil_WriteFile "kexec1" kexc (perm 6 4 4);
  (match err with
   | Some _ => fmt_Println "error writing kexec1"
   | None => run_ret tt
   end);;
  err ← helper (GoesMain ["source"; "kexec1"]);
  match err with
  | Some e => run_ret (Some e)
  | None => run_ret None
  end.

(** [func runScript(name string) (err error)] *)
Definition runScript (name : string) : M (option error) := run_ret None.

(** A case that registers and prints the name it was given. *)
Definition enroll (mip : string) (getmac getip : M string)
  : M (option error) :=
  mac ← getmac;
  ip ← getip;
  '(_, name, err) ← register mip mac ip;
  match err with
  | Some e => run_ret (Some e)
  | None => fmt_Println name;; run_ret None
  end.

Definition Main (args : list string) : M (option error) :=
  match args with
  | [] =>
      fmt_Println usage;;
      run_ret (Some (Errno "args: missing"))
  | arg0 :: _ =>
      match ParseUint arg0 with
      | inr e => run_ret (Some (Errno (arg0 +:+ ": " +:+ NumError_Error arg0 e)))
      | inl cm =>
          mip ← getMasterIP;
          if cm =? 0 then enroll mip getMAC getIP
          else if cm =? 1 then
            install "/newroot/sda1/etc/fstab" "/newroot/sda1/boot/vmlinuz"
                    "/newroot/sda1/boot/initrd.gz"
          else if cm =? 2 then
            install "/newroot/sda1/etc/fstab"
                    "/newroot/sda1/boot/vmlinuz-3.16.0-4-amd64"
                    "/newroot/sda1/boot/initrd.img-3.16.0-4-amd64"
          else if cm =? 3 then enroll mip getMAC3 getIP3
          else if cm =? 4 then helper (Dumpvars mip)
          else if cm =? 5 then helper (Dashboard mip)
          else if cm =? 6 then
            install "/newroot/sda6/etc/fstab"
                    "/newroot/sda6/boot/vmlinuz-3.16.0-4-amd64"
                    "/newroot/sda6/boot/initrd.img-3.16.0-4-amd64"
          else if cm =? 7 then helper (Getnumclients mip)
          else if cm =? 8 then helper (Getclientdata mip 3)
          else if cm =? 9 then helper (Getscript mip "testscript")
          else if cm =? 10 then helper (Getbinary mip "test.bin")
          else if cm =? 11 then runScript "testscript"
          else if cm =? 12 then helper (Test404 mip)
          else if cm =? 13 then helper (Dashboard "192.168.101.129")
          else if cm =? 14 then
            fmt_Println "kexec -k /newroot/sda1/boot/vmlinuz -i /newroot/sda1/boot/initrd.gz -c 'console=ttyS0,115200 keymap=us debian-installer/locale=en_US netcfg/get_hostname=platina netcfg/get_domain=platinasystems.com interface=auto auto' -e";;
            run_ret None
          else if cm =? 15 then
            fmt_Println "kexec -k /newroot/sda1/boot/vmlinuz-3.16.0-4-amd64 -i /newroot/sda1/boot/initrd.img-3.16.0-4-amd64 -c 'console=ttyS0,115200 keymap=us debian-installer/locale=en_US netcfg/get_hostname=platina netcfg/get_domain=platinasystems.com interface=auto auto' -e";;
            run_ret None
          else fmt_Println usage;; run_ret None
      end
  end.

(** [func boot() (err error)], the "init" of coreboot. *)
Definition boot : M (option error) :=
  mip ← getMasterIP;
  mac ← getMAC;
  ip ← getIP;
  '(reply, _, err) ← register mip mac ip;
  if bool_decide (err ≠ None) || negb (reply =? RegReplyRegistered) then
    '(reply, _, err) ← register mip mac ip;
    if bool_decide (err ≠ None) || negb (reply =? RegReplyRegistered)
    then run_ret err
    else run_ret None
  else run_ret None.

End Command.

(** The argument, fstab, kernel and initrd of the three install cases. *)
Definition install_cases : list (string * string * string * string) :=
  [ ("1", "/newroot/sda1/etc/fstab", "/newroot/sda1/boot/vmlinuz",
     "/newroot/sda1/boot/initrd.gz");
    ("2", "/newroot/sda1/etc/fstab",
     "/newroot/sda1/boot/vmlinuz-3.16.0-4-amd64",
     "/newroot/sda1/boot/initrd.img-3.16.0-4-amd64");
    ("6", "/newroot/sda6/etc/fstab",
     "/newroot/sda6/boot/vmlinuz-3.16.0-4-amd64",
     "/newroot/sda6/boot/initrd.img-3.16.0-4-amd64") ].

(** What follows the read of the fstab when a UUID was found. *)
Definition install_events (vmlinuz initrd uuid : string)
  (written sourced : option error) : list event :=
  [ Ev (Println uuid) None;
    Ev (Println (kexec_line vmlinuz initrd uuid)) None;
    Ev (WriteFile "kexec1" (kexec_line vmlinuz initrd uuid) (perm 6 4 4))
       written ]
  ++ (match written with
      | Some _ => [Ev (Println "error writing kexec1") None]
      | None => []
      end)
  ++ [ Ev (GoesMain ["source"; "kexec1"]) sourced ].

End bootc.

Definition has_slash (s : string) : bool :=
  existsb (Ascii.eqb "/"%char) (list_ascii_of_string s).

(** All of a string but its last byte. *)
Definition chop (s : string) : string :=
  String.substring 0 (String.length s - 1) s.

(** ** A concrete machine for the boot client *)

Definition debian_fstab : string :=
  "# use UUID= to name devices" +:+ newline +:+
  "UUID=0a1b-2c3d / ext4 errors=remount-ro 0 1" +:+ newline.

Definition master_ip (k : nat) (c : bootc.call) : string := "192.168.101.1".

Definition no_reply (k : nat) (c : bootc.call) : Z * string := (0, "").

Definition disk_with_fstab (k : nat) (path : string) : string := debian_fstab.

Definition unreadable (k : nat) (path : string) : string := "".

(** Everything succeeds except writing. *)
Definition read_only_disk (k : nat) (c : bootc.call) : option error :=
  match c with
  | bootc.WriteFile _ _ _ => Some (Errno "read-only file system")
  | _ => None
  end.

(** Reading fails. *)
Definition no_disk_at_all (k : nat) (c : bootc.call) : option error :=
  match c with
  | bootc.ReadFile _ => Some ENOENT
  | _ => None
  end.

(** * The start command behind [goes.Main("start")]

    A shallow embedding of package [start]
    (src/goes/machine/start/start.go).  The machine's hooks, the goes
    commands, redis, the network and the operating system are answered from
    outside, by call number; the package variables and [goes.Daemon] are
    parameters. *)

Module start.

(** [const Name = "start"] *)
Definition Name : string := "start".

Inductive call : Type :=
| Interfaces                 (* net.Interfaces *)
| AssertRoot                 (* internal.AssertRoot *)
| Stat (path : string)       (* os.Stat *)
| StartHook                  (* Hook *)
| GoesMain (args : list string)
| Publish (channel : string) (* redis.Publish *)
| Close                      (* the deferred close(pub) *)
| Hostname                   (* os.Hostname *)
| Send (s : string)          (* pub <- s *)
| Cmdline                    (* cmdline.New *)
| PubHook
| ConfHook
| Find (name : string)       (* goes.Find *)
| Println (s : string)
| Sleep (seconds : Z).       (* time.Sleep *)

Inductive event : Type := Ev (c : call) (r : option error).

Abbreviation M := (Run event).

Section Command.

(** [parms.New] *)
Variable parms_New :
  list string -> list string -> gmap string string * list string.

(** The package variables [RedisDevs] and [Machine], [redis.Machine],
    [Version], [sockfile.Path], [goes.Daemon] in the order the range
    statement visits it, and [os.Getpid()]. *)
Variable RedisDevs : list string.
Variable Machine : string.
Variable redis_Machine : string.
Variable Version : string.
Variable sockfile_Path : string -> string.
Variable Daemon : list (string * Z).
Variable pid : Z.

(** The errors of the calls, and what three of them return besides. *)
Variable answer : nat -> call -> option error.
Variable interfaces : nat -> list string.
Variable hostname : nat -> string.
Variable cmdline : nat -> list string * gmap string string.

Definition ask (c : call) : M (option error) := fun n =>
  (Val (answer n c), S n, [Ev c (answer n c)]).

Definition say (c : call) : M unit := fun n => (Val tt, S n, [Ev c None]).

Definition net_Interfaces : M (list string * option error) := fun n =>
  (Val (interfaces n, answer n Interfaces), S n,
   [Ev Interfaces (answer n Interfaces)]).

Definition os_Hostname : M (string * option error) := fun n =>
  (Val (hostname n, answer n Hostname), S n, [Ev Hostname (answer n Hostname)]).

Definition cmdline_New
  : M (list string * gmap string string * option error) := fun n =>
  (Val (cmdline n, answer n Cmdline), S n, [Ev Cmdline (answer n Cmdline)]).

(** [<-make(chan struct{})] *)
Definition block {A} : M A := fun n => (Block, n, []).

(** [defer close(pub)]: runs when the rest of the function returns or
    panics. *)
Definition defer_close {A} (body : M A) : M A := fun n =>
  match body n with
  | (Val a, n1, t1) => (Val a, S n1, t1 ++ [Ev Close None])
  | (Throw v, n1, t1) => (Throw v, S n1, t1 ++ [Ev Close None])
  | (Block, n1, t1) => (Block, n1, t1)
  | (Loop, n1, t1) => (Loop, n1, t1)
  end.

(** [for _, x := range xs { body }], left by the first error. *)
Fixpoint each {A} (xs : list A) (body : A -> M (option error))
  : M (option error) :=
  match xs with
  | [] => run_ret None
  | x :: rest =>
      err ← body x;
      match err with
      | Some e => run_ret (Some e)
      | None => each rest body
      end
  end.

(** The arguments of redisd. *)
Definition redisd_args (args : list string) : M (list string) :=
  let redisd := ["redisd"] in
  if 0 <? Z.of_nat (length args) then run_ret (redisd ++ args)
  else if 0 <? Z.of_nat (length RedisDevs) then run_ret (redisd ++ RedisDevs)
  else
    '(itfs, err) ← net_Interfaces;
    match err with
    | None => run_ret (redisd ++ itfs)
    | Some _ => run_ret redisd
    end.

(** The [for { ... }] of process 1, cut off after [fuel] rounds. *)
Fixpoint serve (login : bool) (fuel : nat) : M (option error) :=
  match fuel with
  | O => fun n => (Loop, n, [])
  | S rounds =>
      let cli :=
        err ← ask (GoesMain ["cli"]);
        match err with
        | Some e =>
            if bool_decide (e ≠ EOF) then say (Println (Error e));; block
            else serve login rounds
        | None => serve login rounds
        end in
      if login then
        err ← ask (GoesMain ["login"]);
        match err with
        | Some e =>
            say (Println ("login: " +:+ Error e));;
            say (Sleep 3);;
            serve login rounds
        | None => cli
        end
      else cli
  end.

(** Lines 118-137: process 1 serves shells, any other process returns. *)
Definition shells (fuel : nat) : M (option error) :=
  if pid =? 1 then
    err ← ask (Find "login");
    serve (bool_decide (err = None)) fuel
  else run_ret None.

(** Lines 110-117: the script named by [-conf], then the shells. *)
Definition configure (parm : gmap string string) (fuel : nat)
  : M (option error) :=
  err ← (let s := default "" (parm !! "-conf") in
         if 0 <? len s then
           err ← ask ConfHook;
           match err with
           | Some e => run_ret (Some e)
           | None => ask (GoesMain ["source"; s])
           end
         else run_ret None);
  match err with
  | Some e => run_ret (Some e)
  | None => shells fuel
  end.

(** Lines 102-109: the daemons, then the rest. *)
Definition daemons (parm : gmap string string) (fuel : nat)
  : M (option error) :=
  err ← each Daemon (fun '(daemon, lvl) =>
           if lvl <? 0 then run_ret None else ask (GoesMain [daemon]));
  match err with
  | Some e => run_ret (Some e)
  | None => configure parm fuel
  end.

(** Lines 83-101: what [Main] publishes, then the rest. *)
Definition published (parm : gmap string string) (fuel : nat)
  : M (option error) :=
  '(hostname, err) ← os_Hostname;
  match err with
  | Some e => run_ret (Some e)
  | None =>
  say (Send ("hostname: " +:+ hostname));;
  say (Send ("version: " +:+ Version));;
  (if 0 <? len Machine then say (Send ("machine: " +:+ Machine))
   else run_ret tt);;
  '(keys, cl, err) ← cmdline_New;
  match err with
  | Some e => run_ret (Some e)
  | None =>
  each keys (fun k =>
    say (Send ("cmdline." +:+ k +:+ ": " +:+ default "" (cl !! k)));;
    run_ret None);;
  err ← ask PubHook;
  match err with
  | Some e => run_ret (Some e)
  | None => daemons parm fuel
  end end end.

Definition Main (fuel : nat) (args : list string) : M (option error) :=
  let '(parm, args) := parms_New args ["-conf"] in
  redisd ← redisd_args args;
  err ← ask AssertRoot;
  match err with
  | Some e => run_ret (Some e)
  | None =>
  err ← ask (Stat (sockfile_Path "redisd"));
  match err with
  | None => run_ret (Some (Errno "already started"))
  | Some _ =>
  err ← ask StartHook;
  match err with
  | Some e => run_ret (Some e)
  | None =>
  err ← ask (GoesMain redisd);
  match err with
  | Some e => run_ret (Some e)
  | None =>
  err ← ask (Publish redis_Machine);
  match err with
  | Some e => run_ret (Some e)
  | None => defer_close (published parm fuel)
  end end end end end.

End Command.

End start.

(** Every event of every run of [m] satisfies [φ]. *)
Definition run_all {E A} (φ : E -> Prop) (m : Run E A) : Prop :=
  forall n, Forall φ (run_events (m n)).

(** The daemons [start.Main] starts: those of level zero and above. *)
Definition wanted_daemons (Daemon : list (string * Z)) : list string :=
  map fst (List.filter (fun '(_, lvl) => negb (lvl <? 0)) Daemon).

Definition started (daemons : list string) (errs : list (option error))
  : list start.event :=
  zip_with (fun d e => start.Ev (start.GoesMain [d]) e) daemons errs.

(** A run that does not return, and in which a shell error other than
    end-of-input is followed by its message and nothing else. *)
Definition serving {A} (run : res A * nat * list start.event) : Prop :=
  (run_result run = Block \/ run_result run = Loop) /\
  forall mid e post,
    run_events run
      = mid ++ start.Ev (start.GoesMain ["cli"]) (Some e) :: post ->
    e <> EOF ->
    post = [start.Ev (start.Println (Error e)) None] /\
    run_result run = Block.

(** The checks [start.Main] makes before it starts anything. *)
Definition preliminary (ev : start.event) : Prop :=
  match ev with
  | start.Ev start.Interfaces _ => True
  | start.Ev start.AssertRoot _ => True
  | start.Ev (start.Stat _) _ => True
  | _ => False
  end.



(** What the deferred [close(pub)] adds to the log. *)
Definition closing {A} (r : res A) : list start.event :=
  match r with
  | Val _ | Throw _ => [start.Ev start.Close None]
  | Block | Loop => []
  end.


(** The calls [start.Main] issues only after [redis.Publish]. *)
Definition published_event (ev : start.event) : Prop :=
  match ev with
  | start.Ev start.Hostname _ | start.Ev (start.Send _) _
  | start.Ev start.Cmdline _ | start.Ev start.PubHook _
  | start.Ev start.ConfHook _ | start.Ev (start.Find _) _
  | start.Ev (start.Println _) _ | start.Ev (start.Sleep _) _ => True
  | _ => False
  end.

(** What follows one [goes.Main("login")] of process 1 in the log: after a
    failure the message, the sleep and, if the loop goes on, login again;
    after a success the shell. *)
Definition after_login (rep : option error) (post : list start.event)
  : Prop :=
  match rep with
  | Some e =>
      exists post',
        post = start.Ev (start.Println ("login: " +:+ Error e)) None
               :: start.Ev (start.Sleep 3) None :: post' /\
        (post' = [] \/
         exists rep' post'',
           post' = start.Ev (start.GoesMain ["login"]) rep' :: post'')
  | None =>
      exists rep' post',
        post = start.Ev (start.GoesMain ["cli"]) rep' :: post'
  end.

(** ** A concrete machine for the start command *)

(** A command line without [-conf]. *)
Definition keep_args (args names : list string)
  : gmap string string * list string := (∅, args).

Definition sample_daemons : list (string * Z) :=
  [ ("vnetd", 0); ("qsfp", -1); ("uptimed", 1) ].

Definition socks (name : string) : string := "/run/goes/socks/" +:+ name.

Definition no_interfaces (n : nat) : list string := [].

Definition sample_hostname (n : nat) : string := "mk1".

Definition sample_cmdline (n : nat) : list string * gmap string string :=
  (["console"], {[ "console" := "ttyS0" ]}).

(** redisd is running: every call succeeds, [os.Stat] too. *)
Definition running (n : nat) (c : start.call) : option error := None.

(** A fresh machine on which one command fails. *)
Definition fails (name : string) (n : nat) (c : start.call) : option error :=
  match c with
  | start.Stat _ => Some ENOENT
  | start.GoesMain [d] =>
      if String.eqb d name then Some (Errno "exit status 1") else None
  | _ => None
  end.

Definition sample_start (pid : Z) (answer : nat -> start.call -> option error)
    (fuel : nat) :=
  start.Main keep_args ["eth0"] "mk1" "platina" "1.0" socks sample_daemons
    pid answer no_interfaces sample_hostname sample_cmdline fuel [] 0%nat.

(** * Properties *)

(** ** The monad, step by step *)

Lemma bind_run {A B} (m : M A) (f : A → M B) (w : world) :
  (m ≫= f) w =
  match m w with
  | (Ret a, w1, t1) => extend t1 (f a w1)
  | (Panic v, w1, t1) => (Panic v, w1, t1)
  | (Gone, w1, t1) => (Gone, w1, t1)
  | (Spin, w1, t1) => (Spin, w1, t1)
  end.
Proof.
  unfold mbind, M_bind, bind, extend.
  destruct (m w) as [[[a|v| |] w1] t1]; try reflexivity.
  by destruct (f a w1) as [[r w2] t2].
Qed.

Lemma bind_Ret {A B} (m : M A) (f : A → M B) w a w1 t1 :
  m w = (Ret a, w1, t1) → (m ≫= f) w = extend t1 (f a w1).
Proof. intros E. by rewrite bind_run, E. Qed.

Lemma sys_run orc c sem w :
  ∃ err w1, sys orc c sem w = (Ret err, tick w1, [Ev c (reply_of err)]) ∧
    ((∃ msg, o_fault orc (clock w) = Some msg ∧ err = Some (Errno msg) ∧ w1 = w)
     ∨ (o_fault orc (clock w) = None ∧ sem w = (err, w1))).
Proof.
  unfold sys. destruct (o_fault orc (clock w)) as [msg|] eqn:F.
  - exists (Some (Errno msg)), w. split; [done|]. left. by exists msg.
  - destruct (sem w) as [err w1] eqn:E. exists err, w1. split; [done|]. by right.
Qed.

Lemma kernel_run orc c w :
  ∃ err w1, kernel orc c w = (Ret err, w1, [Ev c (reply_of err)]).
Proof.
  unfold kernel. destruct (o_kernel orc (clock w) c w) as [err w1]. by eexists _, _.
Qed.

(** ** Properties of event lists that sequencing preserves *)

#[global] Instance Forall_Closed (φ : event → Prop) : Closed (Forall φ).
Proof. split; [constructor | intros; by apply Forall_app]. Qed.

Section Traces.

Context (P : list event → Prop) `{!Closed P}.

Lemma traces_ret {A} (a : A) : traces P (ret a).
Proof. intros w. apply closed_nil. Qed.

Lemma traces_mret {A} (a : A) : traces P (mret a : M A).
Proof. intros w. apply closed_nil. Qed.

Lemma traces_panic {A : Type} (v : string) : traces P (panic v : M A).
Proof. intros w. apply closed_nil. Qed.

Lemma traces_bind {A B} (m : M A) (f : A → M B) :
  traces P m → (∀ a, traces P (f a)) → traces P (m ≫= f).
Proof.
  intros Hm Hf w. unfold events. rewrite bind_run.
  specialize (Hm w). unfold events in Hm.
  destruct (m w) as [[[a|v| |] w1] t1]; try done.
  cbn. apply closed_app; [done | apply Hf].
Qed.

Lemma traces_forM_ {A} (table : list A) (body : A → M unit) :
  (∀ x, In x table → traces P (body x)) → traces P (forM_ table body).
Proof.
  induction table as [|x rest IH]; intros Hb; [apply traces_ret|].
  cbn [forM_]. apply (traces_bind (body x) (λ _, forM_ rest body)).
  - apply Hb. by left.
  - intros _. apply IH. intros y Hy. apply Hb. by right.
Qed.

Lemma traces_sys orc c sem : (∀ rep, P [Ev c rep]) → traces P (sys orc c sem).
Proof.
  intros H w. destruct (sys_run orc c sem w) as (err & w1 & -> & _). apply H.
Qed.

Lemma traces_kernel orc c : (∀ rep, P [Ev c rep]) → traces P (kernel orc c).
Proof.
  intros H w. destruct (kernel_run orc c w) as (err & w1 & ->). apply H.
Qed.

Lemma traces_collab orc c : (∀ rep, P [Ev c rep]) → traces P (collab orc c).
Proof.
  intros H w. unfold collab, events.
  destruct (o_collab orc (clock w) c w) as [[|e|v|] w1]; apply H.
Qed.

Lemma traces_must (m : M (option error)) (msg : error → string) :
  traces P m → traces P (must m msg).
Proof.
  intros Hm. unfold must. apply traces_bind; [done|].
  intros [e|]; [apply traces_panic | apply traces_ret].
Qed.

Lemma traces_Getenv (key : string) : traces P (os_Getenv key).
Proof. intros w. apply closed_nil. Qed.

End Traces.

(** ** Code that always returns *)

Lemma always_weaken {A} (m : M A) (Q Q' : A → list event → Prop) :
  always m Q → (∀ a t, Q a t → Q' a t) → always m Q'.
Proof.
  intros Hm HQ w. destruct (Hm w) as (a & w' & t & E & H). eauto 6.
Qed.

Lemma always_ret {A} (a : A) (Q : A → list event → Prop) :
  Q a [] → always (ret a) Q.
Proof. intros H w. by exists a, w, []. Qed.

Lemma always_bind {A B} (m : M A) (f : A → M B) Q1 (Q : B → list event → Prop) :
  always m Q1 →
  (∀ a t1, Q1 a t1 → always (f a) (λ b t2, Q b (t1 ++ t2))) →
  always (m ≫= f) Q.
Proof.
  intros Hm Hf w. destruct (Hm w) as (a & w1 & t1 & E & H1).
  destruct (Hf a t1 H1 w1) as (b & w2 & t2 & E2 & H2).
  exists b, w2, (t1 ++ t2). by rewrite (bind_Ret _ _ _ _ _ _ E), E2.
Qed.

Lemma always_sys orc c sem (Q : option error → list event → Prop) :
  (∀ err, Q err [Ev c (reply_of err)]) → always (sys orc c sem) Q.
Proof.
  intros H w. destruct (sys_run orc c sem w) as (err & w1 & E & _). eauto 6.
Qed.

Lemma always_kernel orc c (Q : option error → list event → Prop) :
  (∀ err, Q err [Ev c (reply_of err)]) → always (kernel orc c) Q.
Proof.
  intros H w. destruct (kernel_run orc c w) as (err & w1 & E). eauto 6.
Qed.

Lemma always_log args (Q : unit → list event → Prop) :
  Q tt [Ev (LogPrint args) Done] → always (log_Print args) Q.
Proof. intros H w. by eexists _, _, _. Qed.

Lemma always_forM_ {A} (table : list A) (body : A → M unit)
  (Q : A → list event → Prop) :
  (∀ x t t', Q x t → incl t t' → Q x t') →
  (∀ x, In x table → always (body x) (λ _ t, Q x t)) →
  always (forM_ table body) (λ _ t, ∀ x, In x table → Q x t).
Proof.
  intros Hmono. induction table as [|x rest IH]; intros Hb.
  { apply always_ret. by intros x []. }
  cbn [forM_]. apply (always_bind (body x) (λ _, forM_ rest body) (λ _ t, Q x t)).
  { apply Hb. by left. }
  intros _ t1 H1. eapply always_weaken.
  { apply IH. intros y Hy. apply Hb. by right. }
  cbn beta. intros _ t2 H2 y [<-|Hy].
  - apply (Hmono _ t1); [done|]. apply incl_appl, incl_refl.
  - apply (Hmono _ t2); [by apply H2|]. apply incl_appr, incl_refl.
Qed.

(** ** Emergency shell *)

Lemma emergencyShell_not_Ret orc fuel w a :
  result (emergencyShell orc fuel w) ≠ Ret a.
Proof.
  revert w. induction fuel as [|fuel IH]; intros w; [done|].
  cbn [emergencyShell]. unfold mbind, M_bind, bind, fmt_Println, goes_Main, collab.
  destruct (o_collab orc (clock (tick w)) (GoesMain ["cli"]) (tick w)) as [rep w1].
  destruct rep as [|e|v|]; try done.
  - specialize (IH (after (tick w) w1)). unfold ret.
    destruct (emergencyShell orc fuel _) as [[r w2] t2]. by destruct r.
  - unfold fmt_Println, ret. destruct (bool_decide (e ≠ EOF)).
    + specialize (IH (tick (after (tick w) w1))).
      destruct (emergencyShell orc fuel _) as [[r w2] t2]. by destruct r.
    + specialize (IH (after (tick w) w1)).
      destruct (emergencyShell orc fuel _) as [[r w2] t2]. by destruct r.
Qed.

(** C7. The emergency shell never returns.  Whatever the interactive shell
    returns, round after round, the loop is still running after any number
    of rounds: each round prints the banner and invokes the shell again, an
    error other than end-of-input is printed and the loop goes on, and so it
    does after end-of-input or a nil error. *)
Theorem emergencyShell_loops_forever (orc : oracle)
  (Hcli : ∀ n w, is_return (o_collab orc n (GoesMain ["cli"]) w).1 = true)
  (fuel : nat) (w : world) :
  ∃ replies w',
    emergencyShell orc fuel w = (Spin, w', concat (map shell_round replies)) ∧
    length replies = fuel ∧
    Forall (fun rep => is_return rep = true) replies.
Proof.
  revert w. induction fuel as [|fuel IH]; intros w.
  { by exists [], w. }
  cbn [emergencyShell]. unfold mbind, M_bind, bind, fmt_Println, goes_Main, collab.
  pose proof (Hcli (clock (tick w)) (tick w)) as Hrep.
  destruct (o_collab orc (clock (tick w)) (GoesMain ["cli"]) (tick w)) as [rep w1].
  destruct rep as [|e|v|]; try done.
  - unfold ret; cbv beta iota.
    destruct (IH (after (tick w) w1)) as (replies & w' & -> & <- & Hall).
    exists (Done :: replies), w'. split; [done|]. split; [done|]. by constructor.
  - unfold fmt_Println, ret. destruct (bool_decide (e ≠ EOF)) eqn:He; cbv beta iota.
    + destruct (IH (tick (after (tick w) w1))) as (replies & w' & -> & <- & Hall).
      exists (Fail e :: replies), w'. cbn [map concat]. unfold shell_round. rewrite He.
      split; [done|]. split; [done|]. by constructor.
    + destruct (IH (after (tick w) w1)) as (replies & w' & -> & <- & Hall).
      exists (Fail e :: replies), w'. cbn [map concat]. unfold shell_round. rewrite He.
      split; [done|]. split; [done|]. by constructor.
Qed.

(** ** Virtual file-system bootstrapper *)

Lemma traces_sys_bind {B} (P : list event → Prop) orc c sem
  (f : option error → M B) :
  (∀ err w1, P (Ev c (reply_of err) :: events (f err w1))) →
  traces P (sys orc c sem ≫= f).
Proof.
  intros H w. destruct (sys_run orc c sem w) as (err & w1 & E & _).
  unfold events. rewrite (bind_Ret _ _ _ _ _ _ E). apply H.
Qed.

Lemma traces_kernel_bind {B} (P : list event → Prop) orc c
  (f : option error → M B) :
  (∀ err w1, P (Ev c (reply_of err) :: events (f err w1))) →
  traces P (kernel orc c ≫= f).
Proof.
  intros H w. destruct (kernel_run orc c w) as (err & w1 & E).
  unfold events. rewrite (bind_Ret _ _ _ _ _ _ E). apply H.
Qed.

Lemma Logged_tail ev t : Logged (ev :: t) → Logged t.
Proof. destruct ev as [c [|e|v|]]; cbn; tauto. Qed.

#[global] Instance Logged_Closed : Closed Logged.
Proof.
  split; [exact I|].
  induction t1 as [|[c r] t1 IH]; intros t2 H1 H2; [done|].
  pose proof (IH t2 (Logged_tail _ _ H1) H2) as Hrest.
  destruct r as [|e|v|]; try exact Hrest.
  destruct H1 as [Hlog _]. split; [|exact Hrest].
  intros Hc. destruct (Hlog Hc) as (args & rest' & -> & Hlast).
  by exists args, (rest' ++ t2).
Qed.

Lemma Logged_split pre c e post :
  Logged (pre ++ Ev c (Fail e) :: post) → is_priming c = true →
  ∃ args post', post = Ev (LogPrint args) Done :: post' ∧
                last args = Some (Error e).
Proof.
  induction pre as [|ev pre IH]; intros H Hc.
  - destruct H as [Hlog _]. by apply Hlog.
  - apply IH; [|done]. by apply (Logged_tail ev).
Qed.

Lemma init_mount_Logged orc mnt : traces Logged (init_mount orc mnt).
Proof.
  destruct mnt as [[[dir dev] fstype] mode]. unfold init_mount.
  apply traces_bind; [apply _| |].
  - apply traces_sys_bind. intros err w1.
    destruct (IsNotExist err).
    + assert (traces Logged
        (err0 ← os_Mkdir orc dir mode;
         match err0 with
         | Some e => log_Print ["err"; dir; ": "; Error e];; ret true
         | None => ret false
         end)) as Hm.
      { apply traces_sys_bind. intros [e|] w2; cbn; [|done].
        split; [|done]. intros _. by eexists _, _. }
      specialize (Hm w1). by destruct err as [[]|].
    + by destruct err as [[]|].
  - intros [|]; [apply traces_ret, _|].
    apply traces_kernel_bind. intros [e|] w1; cbn; [|done].
    split; [|done]. intros _. by eexists _, _.
Qed.

Lemma init_link_Logged orc ln : traces Logged (init_link orc ln).
Proof.
  destruct ln as [src dst]. unfold init_link.
  apply traces_sys_bind. intros err w1. destruct (IsNotExist err).
  - assert (traces Logged
      (err0 ← os_Symlink orc src dst;
       match err0 with
       | Some e => log_Print ["err"; "ln"; dst; "->"; src; ":"; Error e]
       | None => ret ()
       end)) as Hm.
    { apply traces_sys_bind. intros [e|] w2; cbn; [|done].
      split; [|done]. intros _. by eexists _, _. }
    specialize (Hm w1). by destruct err as [[]|].
  - by destruct err as [[]|].
Qed.

(** Each round of the two loops returns, having looked at its entry. *)
Lemma init_mount_always orc mnt :
  always (init_mount orc mnt) (λ _ t, ∃ rep, In (Ev (Stat mnt.1.1.1) rep) t).
Proof.
  destruct mnt as [[[dir dev] fstype] mode]. unfold init_mount. cbn [fst].
  eapply always_bind with (Q1 := λ _ t, ∃ rep, In (Ev (Stat dir) rep) t).
  - eapply always_bind with (Q1 := λ _ t, ∃ rep, In (Ev (Stat dir) rep) t).
    + apply always_sys. intros err. exists (reply_of err). by left.
    + intros err t1 [rep Hin].
      assert (∀ B (m : M B), always m (λ _ _, True) →
              always m (λ _ t2, ∃ rep, In (Ev (Stat dir) rep) (t1 ++ t2))) as Hk.
      { intros B m Hm. eapply always_weaken; [exact Hm|].
        intros _ t2 _. exists rep. apply in_or_app. by left. }
      destruct (IsNotExist err); [|by apply Hk, always_ret].
      apply Hk. eapply always_bind with (Q1 := λ _ _, True).
      * by apply always_sys.
      * intros [e|] _ _; [|by apply always_ret].
        eapply always_bind with (Q1 := λ _ _, True);
          [by apply always_log | intros; by apply always_ret].
  - intros skip t1 [rep Hin].
    assert (∀ B (m : M B), always m (λ _ _, True) →
            always m (λ _ t2, ∃ rep, In (Ev (Stat dir) rep) (t1 ++ t2))) as Hk.
    { intros B m Hm. eapply always_weaken; [exact Hm|].
      intros _ t2 _. exists rep. apply in_or_app. by left. }
    destruct skip; [by apply Hk, always_ret|].
    apply Hk. eapply always_bind with (Q1 := λ _ _, True).
    + by apply always_kernel.
    + intros [e|] _ _; [by apply always_log | by apply always_ret].
Qed.

Lemma init_link_always orc ln :
  always (init_link orc ln) (λ _ t, ∃ rep, In (Ev (Stat ln.2) rep) t).
Proof.
  destruct ln as [src dst]. unfold init_link. cbn [snd].
  eapply always_bind with (Q1 := λ _ t, ∃ rep, In (Ev (Stat dst) rep) t).
  - apply always_sys. intros err. exists (reply_of err). by left.
  - intros err t1 [rep Hin].
    assert (∀ B (m : M B), always m (λ _ _, True) →
            always m (λ _ t2, ∃ rep, In (Ev (Stat dst) rep) (t1 ++ t2))) as Hk.
    { intros B m Hm. eapply always_weaken; [exact Hm|].
      intros _ t2 _. exists rep. apply in_or_app. by left. }
    destruct (IsNotExist err); [|by apply Hk, always_ret].
    apply Hk. eapply always_bind with (Q1 := λ _ _, True).
    + by apply always_sys.
    + intros [e|] _ _; [by apply always_log | by apply always_ret].
Qed.

Lemma init_loops_always orc :
  always (forM_ init_mounts (init_mount orc);; forM_ init_links (init_link orc))
    (λ _ t,
       (∀ mnt, In mnt init_mounts → ∃ rep, In (Ev (Stat mnt.1.1.1) rep) t) ∧
       (∀ ln, In ln init_links → ∃ rep, In (Ev (Stat ln.2) rep) t)).
Proof.
  eapply always_bind.
  - apply (always_forM_ init_mounts (init_mount orc)
             (λ mnt t, ∃ rep, In (Ev (Stat mnt.1.1.1) rep) t)).
    + intros mnt t t' [rep Hin] Hincl. exists rep. by apply Hincl.
    + intros mnt _. apply init_mount_always.
  - intros [] t1 H1. cbn beta in H1. eapply always_weaken.
    + apply (always_forM_ init_links (init_link orc)
               (λ ln t, ∃ rep, In (Ev (Stat ln.2) rep) t)).
      * intros ln t t' [rep Hin] Hincl. exists rep. by apply Hincl.
      * intros ln _. apply init_link_always.
    + cbn beta. intros _ t2 H2. split.
      * intros mnt Hm. destruct (H1 mnt Hm) as [rep Hin].
        exists rep. apply in_or_app. by left.
      * intros ln Hl. destruct (H2 ln Hl) as [rep Hin].
        exists rep. apply in_or_app. by right.
Qed.

Lemma init_loops_Logged orc :
  traces Logged
    (forM_ init_mounts (init_mount orc);; forM_ init_links (init_link orc)).
Proof.
  apply traces_bind; [apply _| |intros _].
  - apply traces_forM_; [apply _|]. intros mnt _. apply init_mount_Logged.
  - apply traces_forM_; [apply _|]. intros ln _. apply init_link_Logged.
Qed.

(** C9. The bootstrapper mounts and links only when the process is
    number 1 and was started as "/init"; then it looks at every entry of
    both tables whatever failed before, every failed mkdir, mount or symlink
    is followed at once by a log line with its error, and in every case the
    function returns normally. *)
Theorem init_best_effort (orc : oracle) (w : world) :
  result (init orc w) = Ret tt ∧
  (events (init orc w) ≠ [] → pid w = 1 ∧ arg0 w = Name) ∧
  (pid w = 1 ∧ arg0 w = Name →
     (∀ mnt, In mnt init_mounts →
        ∃ rep, In (Ev (Stat mnt.1.1.1) rep) (events (init orc w))) ∧
     (∀ ln, In ln init_links →
        ∃ rep, In (Ev (Stat ln.2) rep) (events (init orc w)))) ∧
  (∀ pre c e post,
     events (init orc w) = pre ++ Ev c (Fail e) :: post →
     is_priming c = true →
     ∃ args post', post = Ev (LogPrint args) Done :: post' ∧
                   last args = Some (Error e)).
Proof.
  unfold init.
  destruct (pid w =? 1) eqn:Hpid; cbn [negb].
  2: { apply Z.eqb_neq in Hpid. split; [done|]. split; [done|].
       split; [by intros [? _]|]. intros pre c e post Heq. by destruct pre. }
  destruct (String.eqb (arg0 w) Name) eqn:Harg; cbn [negb].
  2: { apply String.eqb_neq in Harg. split; [done|]. split; [done|].
       split; [by intros [_ ?]|]. intros pre c e post Heq. by destruct pre. }
  apply Z.eqb_eq in Hpid. apply String.eqb_eq in Harg.
  destruct (init_loops_always orc w) as ([] & w' & t & E & Hm & Hl).
  pose proof (init_loops_Logged orc w) as Hlog.
  rewrite E in *. unfold result, events in *. cbn [fst snd] in *.
  repeat split; try done.
  intros pre c e post Heq Hc. rewrite Heq in Hlog.
  by apply (Logged_split pre c e post).
Qed.

(** ** Finalizer *)

(** Symbolic execution of straight-line code: unfold the calls and split on
    every answer of the oracle and of the file-system model. *)
Ltac unfold_calls :=
  unfold must, os_Stat, os_Mkdir, os_Symlink, os_Open, os_Create, io_Copy,
    os_Chmod, os_Chdir, os_Setenv, os_Getenv, syscall_Unlink, syscall_Rmdir,
    syscall_Mount, syscall_Chroot, syscall_Exec, goes_Main, Hook,
    grab_NewRequest, url_FetchReqs, fmt_Println, fmt_Printf, log_Print,
    kernel, collab, sys, panic, mbind, M_bind, bind, mret, M_ret, ret,
    result, events, final.

Ltac split_answers :=
  cbn [fst snd tick after set_fs clock fs env cwd pid arg0 reply_of IsNotExist];
  repeat match goal with
    | |- context [match o_fault ?o ?n with _ => _ end] =>
        destruct (o_fault o n); cbn [fst snd tick after set_fs clock fs env cwd pid arg0 reply_of IsNotExist]
    | |- context [match o_kernel ?o ?n ?c ?w with _ => _ end] =>
        destruct (o_kernel o n c w) as [[?|] ?]; cbn [fst snd tick after set_fs clock fs env cwd pid arg0 reply_of IsNotExist]
    | |- context [o_kernel ?o ?n ?c ?w] =>
        destruct (o_kernel o n c w) as [[?|] ?]; cbn [fst snd tick after set_fs clock fs env cwd pid arg0 reply_of IsNotExist]
    | |- context [match o_collab ?o ?n ?c ?w with _ => _ end] =>
        destruct (o_collab o n c w) as [[|?|?|] ?]; cbn [fst snd tick after set_fs clock fs env cwd pid arg0 reply_of IsNotExist]
    | |- context [match o_fetch ?o ?n ?r ?w with _ => _ end] =>
        destruct (o_fetch o n r w) as [[? [|?|?|]] ?]; cbn [fst snd tick after set_fs clock fs env cwd pid arg0 reply_of IsNotExist]
    | |- context [match ?m !! ?k with _ => _ end] =>
        destruct (m !! k) as [[?|? ?|?]|]; cbn [fst snd tick after set_fs clock fs env cwd pid arg0 reply_of IsNotExist]
    | |- context [if ?b then _ else _] =>
        destruct b eqn:?; cbn [fst snd tick after set_fs clock fs env cwd pid arg0 reply_of IsNotExist]
    end.

(** Split a membership in an explicit event list into its cases. *)
Ltac in_list H :=
  cbn [In app] in H;
  repeat match type of H with _ ∨ _ => destruct H as [H|H] end;
  try discriminate H; try contradiction.

(** ** Recovery pathway *)

(** Put an event of an explicit list in evidence. *)
Ltac find_in := cbn [In app]; repeat first [left; reflexivity | right].

(** C1, as stated, fails: with two files requested and none fetched, the
    installer still calls kexec. *)
Lemma installer_hands_off_after_failed_fetch :
  ¬ handoff_only_when_all_fetched.
Proof.
  intros H.
  specialize (H offline ["http://x/k"; "http://x/i"] initrd
                [Request "http://x/k" "kernel"; Request "http://x/i" "initramfs"]
                0 Done Done).
  assert (0 = Z.of_nat 2) as Habs; [|done].
  apply H; vm_compute; auto.
Qed.

(** ** Skeleton population *)

Lemma stat_only_seq w0 (m1 m2 : M unit) :
  stat_only w0 m1 → stat_only w0 m2 → stat_only w0 (m1;; m2).
Proof.
  intros H1 H2 w Hf He.
  destruct (H1 w Hf He) as (w1 & t1 & E1 & Hf1 & He1 & Ht1).
  destruct (H2 w1 Hf1 He1) as (w2 & t2 & E2 & Hf2 & He2 & Ht2).
  exists w2, (t1 ++ t2). rewrite (bind_Ret _ _ _ _ _ _ E1), E2.
  repeat split; try done. by apply Forall_app.
Qed.

Lemma stat_only_forM_ {A} w0 (table : list A) (body : A → M unit) :
  (∀ x, In x table → stat_only w0 (body x)) → stat_only w0 (forM_ table body).
Proof.
  induction table as [|x rest IH]; intros Hb.
  { intros w Hf He. by exists w, []. }
  cbn [forM_]. apply (stat_only_seq w0 (body x) (forM_ rest body)).
  - apply Hb. by left.
  - apply IH. intros y Hy. apply Hb. by right.
Qed.

(** A stat of an object that exists does not report a missing file. *)
Lemma os_Stat_present orc name w :
  is_Some (fs w !! name) →
  ∃ err, os_Stat orc name w = (Ret err, tick w, [Ev (Stat name) (reply_of err)])
         ∧ IsNotExist err = false.
Proof.
  intros [n Hn]. unfold os_Stat, sys. rewrite Hn.
  destruct (o_fault orc (clock w)) as [msg|]; by eexists.
Qed.

Lemma Getenv_bind {B} key (f : string → M B) w :
  (os_Getenv key ≫= f) w = f (Getenv key w) w.
Proof.
  rewrite bind_run. unfold os_Getenv, extend. by destruct (f _ w) as [[r w1] t].
Qed.

Lemma stat_only_no_write t : Forall is_stat t → List.filter is_write t = [].
Proof.
  induction 1 as [|[c r] t Hc _ IH]; [done|].
  by destruct c.
Qed.

(** Population is idempotent without the overwrite flag: on a root that
    already holds the skeleton it only stats, returns, and leaves the file
    system and the environment as they were. *)
Theorem populate_idempotent (orc : oracle) (mountPoint : string) (w : world) :
  has_skeleton mountPoint (fs w) →
  Getenv "goes" w ≠ "overwrite" →
  result (populate orc mountPoint w) = Ret tt ∧
  fs (final (populate orc mountPoint w)) = fs w ∧
  env (final (populate orc mountPoint w)) = env w ∧
  Forall is_stat (events (populate orc mountPoint w)) ∧
  List.filter is_write (events (populate orc mountPoint w)) = [].
Proof.
  intros Hsk Hgoes.
  assert (∀ name, In name skeleton_paths → is_Some (fs w !! (mountPoint +:+ name)))
    as Hin by (apply List.Forall_forall; exact Hsk).
  assert (∀ w1 name, fs w1 = fs w → In name skeleton_paths →
            ∃ err, os_Stat orc (mountPoint +:+ name) w1 =
                     (Ret err, tick w1,
                      [Ev (Stat (mountPoint +:+ name)) (reply_of err)])
                   ∧ IsNotExist err = false) as Hstat.
  { intros w1 name Hf Hname. apply os_Stat_present. rewrite Hf. by apply Hin. }
  assert (stat_only w (populate orc mountPoint)) as Hpop.
  { unfold populate.
    apply stat_only_seq; [|apply stat_only_seq]; apply stat_only_forM_.
    - intros [name mode] Hx w1 Hf He.
      destruct (Hstat w1 name Hf) as (err & E & Hne).
      { apply in_or_app. left. by apply (in_map fst) in Hx. }
      rewrite (bind_Ret _ _ _ _ _ _ E), Hne.
      eexists _, _. split; [reflexivity|]. by repeat constructor.
    - intros [src dst] Hx w1 Hf He.
      destruct (Hstat w1 dst Hf) as (err & E & Hne).
      { apply in_or_app. right. apply in_or_app. left.
        by apply (in_map snd) in Hx. }
      rewrite (bind_Ret _ _ _ _ _ _ E), Getenv_bind, Hne.
      assert (String.eqb (Getenv "goes" (tick w1)) "overwrite" = false) as ->.
      { apply String.eqb_neq. unfold Getenv in *. cbn [env tick]. by rewrite He. }
      eexists _, _. split; [reflexivity|]. by repeat constructor.
    - intros [src dst] Hx w1 Hf He.
      destruct (Hstat w1 dst Hf) as (err & E & Hne).
      { apply in_or_app. right. apply in_or_app. right.
        by apply (in_map snd) in Hx. }
      rewrite (bind_Ret _ _ _ _ _ _ E), Hne.
      eexists _, _. split; [reflexivity|]. by repeat constructor. }
  destruct (Hpop w eq_refl eq_refl) as (w' & t & E & Hf & He & Ht).
  rewrite E. unfold result, final, events. cbn [fst snd].
  repeat split; try done. by apply stat_only_no_write.
Qed.

Lemma populated_root_has_skeleton : has_skeleton "/newroot" (fs populated_root).
Proof.
  apply List.Forall_forall. intros name Hin.
  unfold skeleton_paths in Hin. cbn in Hin. in_list Hin; subst name; vm_compute; by eexists.
Qed.

(** C2 at its failing input.  With [goes=overwrite] on a root that holds
    the whole skeleton, population rewrites both entries of the file table,
    the debugger as well as the supervisor binary, and changes modes on the
    ramdisk. *)
Theorem overwrite_recopies_every_file :
  has_skeleton "/newroot" (fs populated_root) ∧
  Getenv "goes" populated_root = "overwrite" ∧
  result (populate quiet "/newroot" populated_root) = Ret tt ∧
  List.filter is_write (events (populate quiet "/newroot" populated_root)) =
    [ Ev (Create "/newroot/usr/bin/goes") Done;
      Ev (Copy "/newroot/usr/bin/goes" "/init") Done;
      Ev (Chmod "/usr/bin/goes" (perm 7 5 5)) Done;
      Ev (Create "/newroot/usr/bin/gdbserver") Done;
      Ev (Copy "/newroot/usr/bin/gdbserver" "/usr/bin/gdbserver") Done;
      Ev (Chmod "/usr/bin/gdbserver" (perm 7 5 5)) Done ] ∧
  fs (final (populate quiet "/newroot" populated_root)) !! "/newroot/usr/bin/gdbserver"
    = Some (File "gdbserver-new" (perm 7 5 5)) ∧
  fs populated_root !! "/newroot/usr/bin/gdbserver"
    = Some (File "gdbserver-old" (perm 7 5 5)).
Proof. split; [exact populated_root_has_skeleton|]. by vm_compute. Qed.

(** ** Where the mode change of a copied file lands *)

Lemma last_char_append (a b : string) :
  b ≠ "" → last_char (a +:+ b) = last_char b.
Proof.
  intros Hb. induction a as [|c a IH]; [done|].
  change (String c a +:+ b) with (String c (a +:+ b)). rewrite <- IH.
  destruct (a +:+ b) eqn:E; [|done].
  destruct a; cbv [String.append] in E; congruence.
Qed.

Lemma length_append (a b : string) :
  String.length (a +:+ b) = (String.length a + String.length b)%nat.
Proof.
  induction a as [|c a IH]; [done|].
  change (String c a +:+ b) with (String c (a +:+ b)).
  cbn [String.length]. by rewrite IH.
Qed.

Lemma append_self (a b : string) : a +:+ b = b → a = "".
Proof.
  intros H. apply (f_equal String.length) in H. rewrite length_append in H.
  destruct a; [done|]. cbn [String.length] in H. lia.
Qed.

Lemma append_inj (a b c : string) : a +:+ b = a +:+ c → b = c.
Proof.
  induction a as [|x a IH]; [done|].
  change (String x a +:+ b) with (String x (a +:+ b)).
  change (String x a +:+ c) with (String x (a +:+ c)).
  intros [= H]. by apply IH.
Qed.

(** Walk through a program and reduce a [traces] goal to its calls. *)
Ltac head_of t := lazymatch t with ?f _ => head_of f | _ => t end.

Ltac closed_side := lazymatch goal with |- Closed _ => apply _ | _ => idtac end.

Ltac traces_step :=
  lazymatch goal with
  | |- traces _ (ret _) => apply traces_ret
  | |- traces _ (mret _) => apply traces_mret
  | |- traces _ (panic _) => apply traces_panic
  | |- traces _ (os_Getenv _) => apply traces_Getenv
  | |- traces _ (must _ _) => apply traces_must
  | |- traces _ (forM_ _ _) => apply traces_forM_; [.. | intros ? ?]
  | |- traces _ (sys _ _ _) => apply traces_sys
  | |- traces _ (kernel _ _) => apply traces_kernel
  | |- traces _ (collab _ _) => apply traces_collab
  | |- traces _ (_ ≫= _) => apply traces_bind; [.. | | intros ?]
  | |- traces _ (if ?b then _ else _) => destruct b
  | |- traces _ (match ?x with _ => _ end) => destruct x
  | |- traces _ ?m => let h := head_of m in unfold h
  end; closed_side.

Ltac traces_auto := repeat traces_step.

Lemma makeRootFiles_chmods orc mp :
  traces (Forall chmod_unprefixed) (makeRootFiles orc mp).
Proof.
  unfold makeRootFiles. apply traces_forM_; [apply _|].
  intros [src dst] Hin. apply (in_map snd) in Hin. cbn [snd] in Hin.
  traces_auto.
  all: intros rep; (constructor; [|constructor]); cbn; auto.
Qed.

(** ** Invariants over the world and the events so far *)

Lemma keeps_ret {A} I (a : A) : keeps I (ret a).
Proof. intros w h H. cbn. by rewrite app_nil_r. Qed.

Lemma keeps_panic {A} I v : keeps I (panic v : M A).
Proof. intros w h H. cbn. by rewrite app_nil_r. Qed.

Lemma keeps_Getenv I key : keeps I (os_Getenv key).
Proof. intros w h H. cbn. by rewrite app_nil_r. Qed.

Lemma keeps_bind {A B} I (m : M A) (f : A → M B) :
  keeps I m → (∀ a, keeps I (f a)) → keeps I (m ≫= f).
Proof.
  intros Hm Hf w h H. specialize (Hm w h H). unfold final, events in *.
  rewrite bind_run. destruct (m w) as [[[a|v| |] w1] t1]; try done.
  cbn in *. rewrite app_assoc. by apply Hf.
Qed.

Lemma keeps_must I (m : M (option error)) msg : keeps I m → keeps I (must m msg).
Proof.
  intros Hm. apply keeps_bind; [done|].
  intros [e|]; [apply keeps_panic | apply keeps_ret].
Qed.

Lemma keeps_forM_ {A} I (table : list A) (body : A → M unit) :
  (∀ x, In x table → keeps I (body x)) → keeps I (forM_ table body).
Proof.
  induction table as [|x rest IH]; intros Hb; [apply keeps_ret|].
  cbn [forM_]. apply (keeps_bind I (body x) (λ _, forM_ rest body)).
  - apply Hb. by left.
  - intros _. apply IH. intros y Hy. apply Hb. by right.
Qed.

Lemma keeps_sys I orc c sem :
  (∀ w h msg, I w h → I (tick w) (h ++ [Ev c (Fail (Errno msg))])) →
  (∀ w h, I w h → I (tick (sem w).2) (h ++ [Ev c (reply_of (sem w).1)])) →
  keeps I (sys orc c sem).
Proof.
  intros Hfault Hsem w h H.
  destruct (sys_run orc c sem w) as (err & w1 & E & Hrun). rewrite E. cbn.
  destruct Hrun as [(msg & _ & -> & ->)|[_ Hs]]; [by apply Hfault|].
  specialize (Hsem w h H). by rewrite Hs in Hsem.
Qed.

Lemma fresh_mode_same k w w' h c rep :
  fresh_mode k w h → fs w' = fs w → Ev c rep ≠ Ev (Create k) Done →
  fresh_mode k w' (h ++ [Ev c rep]).
Proof.
  intros [[Hn Hc]|[data Hd]] Hf Hne; unfold fresh_mode; rewrite Hf.
  - left. split; [done|]. intros Hin. apply in_app_or in Hin as [Hin|Hin]; [done|].
    in_list Hin.
  - right. by exists data.
Qed.

Lemma fresh_mode_other k k' n w w' h c rep :
  fresh_mode k w h → fs w' = <[k' := n]> (fs w) → k' ≠ k →
  Ev c rep ≠ Ev (Create k) Done →
  fresh_mode k w' (h ++ [Ev c rep]).
Proof.
  intros [[Hn Hc]|[data Hd]] Hf Hk Hne; unfold fresh_mode; rewrite Hf;
    rewrite lookup_insert_ne by done.
  - left. split; [done|]. intros Hin. apply in_app_or in Hin as [Hin|Hin]; [done|].
    in_list Hin.
  - right. by exists data.
Qed.

Lemma fresh_mode_here k data w' h :
  fs w' = <[k := File data (perm 6 6 6)]> (fs w') ∨
  fs w' !! k = Some (File data (perm 6 6 6)) →
  fresh_mode k w' h.
Proof.
  intros [H|H]; right; exists data; [rewrite H; apply lookup_insert_eq | done].
Qed.

Ltac fresh_case H :=
  cbn [fst snd reply_of tick set_fs fs];
  first
    [ by (eapply fresh_mode_same; [exact H | reflexivity | congruence])
    | by (eapply fresh_mode_other; [exact H | reflexivity | congruence | congruence])
    | by (right; eexists; cbn [fs tick set_fs]; apply lookup_insert_eq)
    | by (destruct H as [[? ?]|[? ?]]; simplify_eq; right; eexists;
          cbn [fs tick set_fs]; apply lookup_insert_eq) ].

(** With a staging prefix, no path of the file table names a staged copy. *)
Lemma staged_path_differs mp dst dst0 :
  mp ≠ "" → In dst (map snd rootFiles) → In dst0 (map snd rootFiles) →
  dst ≠ mp +:+ dst0.
Proof.
  intros Hmp Hdst Hdst0 Heq.
  destruct (decide (dst = dst0)) as [->|Hne].
  - symmetry in Heq. by apply append_self in Heq.
  - apply (f_equal last_char) in Heq.
    rewrite last_char_append in Heq by (cbn in Hdst0; in_list Hdst0; by subst).
    cbn in Hdst, Hdst0. in_list Hdst; in_list Hdst0; by subst.
Qed.

Lemma makeRootFiles_keeps_fresh orc mp dst0 :
  mp ≠ "" → In dst0 (map snd rootFiles) →
  keeps (fresh_mode (mp +:+ dst0)) (makeRootFiles orc mp).
Proof.
  intros Hmp Hdst0.
  pose proof (λ dst H, staged_path_differs mp dst dst0 Hmp H Hdst0) as Hun.
  assert (∀ dst, dst ≠ dst0 → mp +:+ dst ≠ mp +:+ dst0) as Hpre.
  { intros dst Hne Heq. by apply append_inj in Heq. }
  unfold makeRootFiles. apply keeps_forM_. intros [src dst] Hin.
  apply (in_map snd) in Hin. cbn [snd] in Hin. specialize (Hun dst Hin).
  assert (mp +:+ dst = mp +:+ dst0 ∨ mp +:+ dst ≠ mp +:+ dst0) as Hk.
  { destruct (decide (dst = dst0)) as [->|Hne]; [by left | right; by apply Hpre]. }
  apply keeps_bind.
  { apply keeps_sys; [intros w h msg H; fresh_case H|].
    intros w h H. destruct (fs w !! (mp +:+ dst)); fresh_case H. }
  intros err. apply keeps_bind; [apply keeps_Getenv|]. intros goes.
  destruct (IsNotExist err || String.eqb goes "overwrite"); [|apply keeps_ret].
  apply keeps_bind; [|intros _; apply keeps_bind; [|intros _; apply keeps_bind; intros]].
  - apply keeps_must, keeps_sys; [intros w h msg H; fresh_case H|].
    intros w h H. destruct (fs w !! src); fresh_case H.
  - apply keeps_must, keeps_sys; [intros w h msg H; fresh_case H|].
    intros w h H. destruct Hk as [Hk|Hk].
    + rewrite Hk in *. destruct (fs w !! (mp +:+ dst0)) as [[m|d m|t]|] eqn:E;
        fresh_case H.
    + destruct (fs w !! (mp +:+ dst)) as [[m|d m|t]|] eqn:E; fresh_case H.
  - apply keeps_must, keeps_sys; [intros w h msg H; fresh_case H|].
    intros w h H. destruct Hk as [Hk|Hk].
    + rewrite Hk in *.
      destruct (fs w !! src) as [[m|d m|t]|] eqn:Es;
        destruct (fs w !! (mp +:+ dst0)) as [[m'|d' m'|t']|] eqn:E; fresh_case H.
    + destruct (fs w !! src) as [[m|d m|t]|] eqn:Es;
        destruct (fs w !! (mp +:+ dst)) as [[m'|d' m'|t']|] eqn:E; fresh_case H.
  - apply keeps_must, keeps_sys; [intros w h msg H; fresh_case H|].
    intros w h H. destruct (fs w !! dst) as [[m|d m|t]|] eqn:E; fresh_case H.
Qed.

(** C10. Every mode change [makeRootFiles] issues goes to a destination
    path of its table as written, without the staging prefix, with mode
    0755.  So, under a non-empty staging prefix, no staged copy is ever the
    target of a chmod, and a copy the function newly created under the
    staging root is left a regular file with mode 0666, the mode
    [os.Create] gave it, not 0755. *)
Theorem chmod_misses_staged_copy (orc : oracle) (mountPoint : string)
  (w : world) :
  (∀ name mode rep,
     In (Ev (Chmod name mode) rep) (events (makeRootFiles orc mountPoint w)) →
     In name (map snd rootFiles) ∧ mode = perm 7 5 5) ∧
  (mountPoint ≠ "" →
     (∀ dst mode rep, In dst (map snd rootFiles) →
        ¬ In (Ev (Chmod (mountPoint +:+ dst) mode) rep)
             (events (makeRootFiles orc mountPoint w))) ∧
     (∀ dst, In dst (map snd rootFiles) →
        fs w !! (mountPoint +:+ dst) = None →
        In (Ev (Create (mountPoint +:+ dst)) Done)
           (events (makeRootFiles orc mountPoint w)) →
        ∃ data, fs (final (makeRootFiles orc mountPoint w))
                  !! (mountPoint +:+ dst) = Some (File data (perm 6 6 6)))) ∧
  perm 6 6 6 ≠ perm 7 5 5.
Proof.
  assert (∀ name mode rep,
     In (Ev (Chmod name mode) rep) (events (makeRootFiles orc mountPoint w)) →
     In name (map snd rootFiles) ∧ mode = perm 7 5 5) as Hchmod.
  { intros name mode rep Hin.
    pose proof (makeRootFiles_chmods orc mountPoint w) as Hall.
    rewrite List.Forall_forall in Hall. exact (Hall _ Hin). }
  split; [exact Hchmod|]. split; [|vm_compute; congruence].
  intros Hmp. split.
  - intros dst mode rep Hdst Hin. destruct (Hchmod _ _ _ Hin) as [Hname _].
    by apply (staged_path_differs mountPoint (mountPoint +:+ dst) dst).
  - intros dst Hdst Hnone Hcreate.
    destruct (makeRootFiles_keeps_fresh orc mountPoint dst Hmp Hdst w [])
      as [[_ Hno]|Hfile].
    + left. split; [done | by intros []].
    + by cbn [app] in Hno.
    + done.
Qed.

Example fresh_copy_keeps_create_mode :
  fs mounted !! "/newroot/usr/bin/goes" = None ∧
  In (Ev (Create "/newroot/usr/bin/goes") Done)
     (events (makeRootFiles quiet "/newroot" mounted)) ∧
  In (Ev (Chmod "/usr/bin/goes" (perm 7 5 5)) Done)
     (events (makeRootFiles quiet "/newroot" mounted)) ∧
  fs (final (makeRootFiles quiet "/newroot" mounted)) !! "/newroot/usr/bin/goes"
    = Some (File "goes" (perm 6 6 6)).
Proof. vm_compute. repeat split; auto 10. Qed.

(** ** Root pivot: staging, then the switch *)

Lemma bind_assoc {A B C} (m : M A) (f : A → M B) (g : B → M C) w :
  ((m ≫= f) ≫= g) w = (m ≫= (λ a, f a ≫= g)) w.
Proof.
  rewrite !bind_run. destruct (m w) as [[[a|v| |] w1] t1]; try done.
  rewrite bind_run. unfold extend.
  destruct (f a w1) as [[[b|v| |] w2] t2]; try done.
  cbn. destruct (g b w2) as [[r w3] t3]. cbn. by rewrite app_assoc.
Qed.

Lemma bind_ext {A B} (m : M A) (f g : A → M B) w :
  (∀ a w1, f a w1 = g a w1) → (m ≫= f) w = (m ≫= g) w.
Proof.
  intros H. rewrite !bind_run. destruct (m w) as [[[a|v| |] w1] t1]; try done.
  by rewrite H.
Qed.

Lemma pivotRoot_stages orc mountPoint root script w :
  pivotRoot orc mountPoint root script w =
  (stage orc mountPoint root script;; switch orc mountPoint) w.
Proof.
  unfold pivotRoot, stage, switch.
  repeat (rewrite bind_assoc; apply bind_ext; intros ? ?).
  reflexivity.
Qed.

(** *** What the events of a returning run contain *)

Lemma upward_In ev : upward (λ t, In ev t).
Proof. intros t1 t t2 H. apply in_or_app. right. apply in_or_app. by left. Qed.

Lemma upward_and Q1 Q2 : upward Q1 → upward Q2 → upward (λ t, Q1 t ∧ Q2 t).
Proof. intros H1 H2 t1 t t2 [? ?]. split; [by apply H1 | by apply H2]. Qed.

Lemma upward_or Q1 Q2 : upward Q1 → upward Q2 → upward (λ t, Q1 t ∨ Q2 t).
Proof. intros H1 H2 t1 t t2 [?|?]; [left; by apply H1 | right; by apply H2]. Qed.

Lemma upward_ex {X} (Q : X → list event → Prop) :
  (∀ x, upward (Q x)) → upward (λ t, ∃ x, Q x t).
Proof. intros H t1 t t2 [x Hx]. exists x. by apply H. Qed.

Lemma upward_all {X} (Q : X → list event → Prop) :
  (∀ x, upward (Q x)) → upward (λ t, ∀ x, Q x t).
Proof. intros H t1 t t2 Hx x. by apply H. Qed.

Lemma upward_impl (P : Prop) Q : upward Q → upward (λ t, P → Q t).
Proof. intros H t1 t t2 Hx HP. by apply H, Hx. Qed.

Lemma upward_left Q t t2 : upward Q → Q t → Q (t ++ t2).
Proof. intros H Ht. exact (H [] t t2 Ht). Qed.

Lemma upward_right Q t1 t : upward Q → Q t → Q (t1 ++ t).
Proof. intros H Ht. specialize (H t1 t [] Ht). by rewrite app_nil_r in H. Qed.

Lemma bind_Ret_inv {A B} (m : M A) (f : A → M B) w b w' t :
  (m ≫= f) w = (Ret b, w', t) →
  ∃ a w1 t1 t2, m w = (Ret a, w1, t1) ∧ f a w1 = (Ret b, w', t2) ∧ t = t1 ++ t2.
Proof.
  rewrite bind_run. destruct (m w) as [[[a|v| |] w1] t1]; try done.
  unfold extend. destruct (f a w1) as [[r w2] t2] eqn:Ef. cbn.
  intros [= -> -> <-]. by exists a, w1, t1, t2.
Qed.

Lemma rets_bind_l {A B} (m : M A) (f : A → M B) Q :
  upward Q → rets m Q → rets (m ≫= f) Q.
Proof.
  intros HQ Hm w b w' t E.
  apply bind_Ret_inv in E as (a & w1 & t1 & t2 & E1 & _ & ->).
  apply upward_left; [done|]. by apply (Hm w a w1).
Qed.

Lemma rets_bind_r {A B} (m : M A) (f : A → M B) Q :
  upward Q → (∀ a, rets (f a) Q) → rets (m ≫= f) Q.
Proof.
  intros HQ Hf w b w' t E.
  apply bind_Ret_inv in E as (a & w1 & t1 & t2 & _ & E2 & ->).
  apply upward_right; [done|]. by apply (Hf a w1 b w').
Qed.

Lemma rets_and {A} (m : M A) Q1 Q2 :
  rets m Q1 → rets m Q2 → rets m (λ t, Q1 t ∧ Q2 t).
Proof. intros H1 H2 w a w' t E. split; [by apply (H1 w a w') | by apply (H2 w a w')]. Qed.

Lemma rets_forM_ {A} (table : list A) (body : A → M unit)
  (Q : A → list event → Prop) :
  (∀ x, upward (Q x)) →
  (∀ x, In x table → rets (body x) (Q x)) →
  rets (forM_ table body) (λ t, ∀ x, In x table → Q x t).
Proof.
  intros HQ. induction table as [|x rest IH]; intros Hb w a w' t E.
  { by intros x []. }
  cbn [forM_] in E.
  apply (bind_Ret_inv (body x) (λ _, forM_ rest body)) in E
    as ([] & w1 & t1 & t2 & E1 & E2 & ->).
  intros y [<-|Hy].
  - apply upward_left; [apply HQ|]. apply (Hb x (or_introl eq_refl) w () w1 t1 E1).
  - apply upward_right; [apply HQ|].
    apply (IH (λ z Hz, Hb z (or_intror Hz)) w1 a w' t2 E2 y Hy).
Qed.

Lemma rets_must_sys orc c sem msg :
  rets (must (sys orc c sem) msg) (λ t, In (Ev c Done) t).
Proof.
  intros w a w' t E. unfold must in E.
  apply bind_Ret_inv in E as ([e|] & w1 & t1 & t2 & E1 & E2 & ->); [done|].
  destruct (sys_run orc c sem w) as (err & w2 & Er & _). rewrite Er in E1.
  injection E1 as -> _ <-. by left.
Qed.

Lemma rets_must_kernel orc c msg :
  rets (must (kernel orc c) msg) (λ t, In (Ev c Done) t).
Proof.
  intros w a w' t E. unfold must in E.
  apply bind_Ret_inv in E as ([e|] & w1 & t1 & t2 & E1 & E2 & ->); [done|].
  destruct (kernel_run orc c w) as (err & w2 & Er). rewrite Er in E1.
  injection E1 as -> _ <-. by left.
Qed.

Lemma rets_must_collab orc c msg :
  rets (must (collab orc c) msg) (λ t, In (Ev c Done) t).
Proof.
  intros w a w' t E. unfold must in E.
  apply bind_Ret_inv in E as ([e|] & w1 & t1 & t2 & E1 & E2 & ->); [done|].
  unfold collab in E1.
  destruct (o_collab orc (clock w) c w) as [[|e|v|] w2]; try done.
  injection E1 as _ <-. by left.
Qed.

Lemma upward_ensured p c : upward (ensured p c).
Proof.
  apply upward_or; [|apply upward_In].
  apply upward_ex. intros rep. apply upward_and; [by intros ???|apply upward_In].
Qed.

Lemma IsNotExist_reply err : IsNotExist err = false → reply_of err ≠ Fail ENOENT.
Proof. by destruct err as [[]|]. Qed.

Lemma os_Stat_reply orc p w :
  ∃ err w1, os_Stat orc p w = (Ret err, w1, [Ev (Stat p) (reply_of err)]).
Proof.
  destruct (sys_run orc (Stat p)
              (λ w, match fs w !! p with
                    | Some _ => (None, w)
                    | None => (Some ENOENT, w)
                    end) w) as (err & w1 & E & _).
  by exists err, (tick w1).
Qed.

Lemma rets_ensure orc p (create : M unit) c :
  rets create (λ t, In (Ev c Done) t) →
  rets (err ← os_Stat orc p; if IsNotExist err then create else ret tt)
       (ensured p c).
Proof.
  intros Hc w a w' t E.
  apply bind_Ret_inv in E as (err & w1 & t1 & t2 & E1 & E2 & ->).
  destruct (sys_run orc (Stat p)
              (λ w, match fs w !! p with
                    | Some _ => (None, w)
                    | None => (Some ENOENT, w)
                    end) w) as (err' & w2 & Er & _).
  fold (os_Stat orc p) in Er. rewrite Er in E1. injection E1 as -> _ <-.
  destruct (IsNotExist err) eqn:Hne.
  - right. apply in_or_app. right. by apply (Hc w1 a w').
  - left. exists (reply_of err). split; [by apply IsNotExist_reply|]. by left.
Qed.

(** *** What staging has achieved when it returns *)

Ltac upward_tac :=
  repeat first
    [ apply upward_ensured | apply upward_In
    | apply upward_and | apply upward_or
    | apply upward_ex; intros ? | apply upward_all; intros ?
    | apply upward_impl | by intros ??? ].

Lemma upward_staged mp root script : upward (staged mp root script).
Proof. unfold staged, dirs_ok, files_ok, links_ok, relocated. upward_tac. Qed.

Lemma makeRootDirs_rets orc mp : rets (makeRootDirs orc mp) (dirs_ok mp).
Proof.
  intros w a w' t E name mode Hin. unfold makeRootDirs in E.
  refine (rets_forM_ rootDirs _
            (λ x, ensured (mp +:+ x.1) (Mkdir (mp +:+ x.1) x.2))
            _ _ w a w' t E (name, mode) Hin).
  - intros x. apply upward_ensured.
  - intros [name' mode'] _. apply rets_ensure, rets_must_sys.
Qed.

Lemma makeRootLinks_rets orc mp : rets (makeRootLinks orc mp) (links_ok mp).
Proof.
  intros w a w' t E src dst Hin. unfold makeRootLinks in E.
  refine (rets_forM_ rootLinks _
            (λ x, ensured (mp +:+ x.2) (Symlink x.1 (mp +:+ x.2)))
            _ _ w a w' t E (src, dst) Hin).
  - intros x. apply upward_ensured.
  - intros [src' dst'] _. apply rets_ensure, rets_must_sys.
Qed.

Lemma moveVirtualFileSystems_rets orc mp :
  rets (moveVirtualFileSystems orc mp) (relocated mp).
Proof.
  intros w a w' t E src dst mode Hin. unfold moveVirtualFileSystems in E.
  refine (rets_forM_ virtualFileSystems _
            (λ x, In (Ev (Mount x.1.1 (mp +:+ x.1.2) "" MS_MOVE "") Done))
            _ _ w a w' t E (src, dst, mode) Hin).
  - intros x. apply upward_In.
  - intros [[src' dst'] mode'] _. cbn [fst snd].
    apply rets_bind_r; [apply upward_In|]. intros err.
    apply rets_bind_r; [apply upward_In|]. intros _.
    apply rets_must_kernel.
Qed.

Lemma makeRootFiles_rets orc mp : rets (makeRootFiles orc mp) (files_ok mp).
Proof.
  intros w a w' t E src dst Hin. unfold makeRootFiles in E.
  refine (rets_forM_ rootFiles _
            (λ x t0,
               (∃ rep, rep ≠ Fail ENOENT ∧ In (Ev (Stat (mp +:+ x.2)) rep) t0)
               ∨ (In (Ev (Copy (mp +:+ x.2) x.1) Done) t0 ∧
                  In (Ev (Chmod x.2 (perm 7 5 5)) Done) t0))
            _ _ w a w' t E (src, dst) Hin).
  - intros x. upward_tac.
  - intros [src' dst'] _. cbn [fst snd]. clear. intros w a w' t E.
    apply bind_Ret_inv in E as (err & w1 & t1 & t2 & E1 & E2 & ->).
    rewrite Getenv_bind in E2.
    destruct (os_Stat_reply orc (mp +:+ dst') w) as (err' & w2 & Er).
    rewrite Er in E1. injection E1 as -> _ <-.
    destruct (IsNotExist err || _) eqn:Hc.
    + right. split; apply in_or_app; right.
      * revert E2. apply rets_bind_r; [apply upward_In|]. intros _.
        apply rets_bind_r; [apply upward_In|]. intros _.
        apply rets_bind_l; [apply upward_In|]. apply rets_must_sys.
      * revert E2. apply rets_bind_r; [apply upward_In|]. intros _.
        apply rets_bind_r; [apply upward_In|]. intros _.
        apply rets_bind_r; [apply upward_In|]. intros _. apply rets_must_sys.
    + left. apply orb_false_iff in Hc as [Hc _].
      exists (reply_of err). split; [by apply IsNotExist_reply|]. by left.
Qed.

Lemma rets_weaken {A} (m : M A) (Q Q' : list event → Prop) :
  rets m Q → (∀ t, Q t → Q' t) → rets m Q'.
Proof. intros Hm HQ w a w' t E. apply HQ. by apply (Hm w a w'). Qed.

Ltac rets_skip :=
  apply rets_bind_r;
  [unfold dirs_ok, files_ok, links_ok, relocated; upward_tac | intros ?].

Ltac rets_here :=
  apply rets_bind_l;
  [unfold dirs_ok, files_ok, links_ok, relocated; upward_tac |].

Lemma stage_rets orc mp root script :
  rets (stage orc mp root script) (staged mp root script).
Proof.
  unfold staged, stage. repeat apply rets_and.
  - do 2 rets_skip. rets_here. apply rets_must_collab.
  - do 3 rets_skip. rets_here. destruct (0 <? len script) eqn:Hs.
    + eapply rets_weaken; [apply rets_must_collab | by intros t Hin _].
    + intros w0 x w' t _ Hlt. apply Z.ltb_ge in Hs. lia.
  - do 4 rets_skip. rets_here. apply makeRootDirs_rets.
  - do 5 rets_skip. rets_here. apply makeRootFiles_rets.
  - do 6 rets_skip. rets_here. apply makeRootLinks_rets.
  - do 7 rets_skip. rets_here. apply moveVirtualFileSystems_rets.
  - do 8 rets_skip. apply rets_must_sys.
Qed.

(** *** The events of staging and of the switch *)

Lemma append_not_root (mp s : string) :
  (2 ≤ String.length s)%nat → mp +:+ s ≠ "/".
Proof.
  intros Hs Heq. apply (f_equal String.length) in Heq.
  rewrite length_append in Heq. cbn [String.length] in Heq. lia.
Qed.

Lemma stage_events orc mp root script :
  traces (Forall staging_event) (stage orc mp root script).
Proof.
  unfold stage. traces_auto.
  all: try (intros rep; (constructor; [|constructor]); exact I).
  intros rep. constructor; [|constructor]. cbn.
  match goal with H : In _ virtualFileSystems |- _ =>
    unfold virtualFileSystems in H; in_list H; simplify_eq;
    apply append_not_root; cbn; lia end.
Qed.

Lemma always_traces {A} (m : M A) (P : list event → Prop) :
  always m (λ _ _, True) → traces P m → always m (λ _ t, P t).
Proof.
  intros Ha Ht w. destruct (Ha w) as (a & w' & t & E & _).
  exists a, w', t. split; [done|]. specialize (Ht w). by rewrite E in Ht.
Qed.

Lemma cleanup_always orc :
  always (cleanup orc) (λ _ t, Forall (λ ev, is_cleanup ev = true) t).
Proof.
  apply always_traces.
  - unfold cleanup, unlinkRootFiles, rmdirRootDirs.
    eapply always_bind with (Q1 := λ _ _, True).
    + eapply always_weaken.
      * apply (always_forM_ _ _ (λ _ _, True)); [done|]. intros fn _.
        eapply always_bind with (Q1 := λ _ _, True);
          [by apply always_sys | intros; by apply always_ret].
      * done.
    + intros _ _ _. eapply always_weaken.
      * apply (always_forM_ _ _ (λ _ _, True)); [done|]. intros dir _.
        eapply always_bind with (Q1 := λ _ _, True);
          [by apply always_sys | intros; by apply always_ret].
      * done.
  - unfold cleanup. traces_auto.
    all: intros rep; (constructor; [|constructor]); reflexivity.
Qed.

(** The switch: cleanup events, then the bind-move; a chroot follows when
    and only when the bind-move succeeded. *)
Lemma switch_run orc mp w :
  ∃ tc err w1,
    Forall (λ ev, is_cleanup ev = true) tc ∧
    match err with
    | Some e =>
        switch orc mp w =
          (Panic ("mount " +:+ mp +:+ " /: " +:+ Error e), w1,
           tc ++ [Ev (bind_move mp) (Fail e)])
    | None =>
        ∃ err2,
          switch orc mp w =
            (match err2 with
             | Some e2 => Panic ("chroot .:" +:+ Error e2)
             | None => Ret tt
             end, w1,
             tc ++ [Ev (bind_move mp) Done; Ev (Chroot ".") (reply_of err2)])
    end.
Proof.
  destruct (cleanup_always orc w) as ([] & w1 & tc & Ec & Hc).
  assert (switch orc mp w =
          extend tc ((must (syscall_Mount orc mp "/" "" MS_MOVE "")
                        (λ e, "mount " +:+ mp +:+ " /: " +:+ Error e);;
                      must (syscall_Chroot orc ".")
                        (λ e, "chroot .:" +:+ Error e)) w1)) as ->.
  { rewrite <- (bind_Ret (cleanup orc) (λ _, _) _ _ _ _ Ec).
    unfold switch, cleanup. symmetry.
    apply (bind_assoc (unlinkRootFiles orc) (λ _, rmdirRootDirs orc)). }
  unfold must, syscall_Mount, syscall_Chroot.
  destruct (kernel_run orc (bind_move mp) w1) as (err & w2 & Em).
  fold (bind_move mp). rewrite bind_assoc, (bind_Ret _ _ _ _ _ _ Em).
  destruct err as [e|].
  - exists tc, (Some e), w2. split; [done|]. reflexivity.
  - destruct (kernel_run orc (Chroot ".") w2) as (err2 & w3 & Ech).
    exists tc, None, w3. split; [done|]. exists err2.
    assert ((ret tt ≫= λ _ : (),
              kernel orc (Chroot ".") ≫= λ err : option error,
                match err with
                | Some e => panic ("chroot .:" +:+ Error e)
                | None => ret ()
                end) w2 =
            (match err2 with
             | Some e2 => Panic ("chroot .:" +:+ Error e2)
             | None => Ret tt
             end, w3, [Ev (Chroot ".") (reply_of err2)])) as ->.
    { rewrite bind_run. cbn. rewrite (bind_Ret _ _ _ _ _ _ Ech).
      by destruct err2. }
    reflexivity.
Qed.

Lemma prefix_before (φ : event → Prop) t1 ts pre e post :
  Forall φ t1 → ¬ φ e → t1 ++ ts = pre ++ e :: post → ∃ pre', pre = t1 ++ pre'.
Proof.
  revert pre. induction t1 as [|x t1 IH]; intros pre Hall He Heq.
  { by exists pre. }
  apply Forall_cons in Hall as [Hx Hall].
  destruct pre as [|y pre]; cbn in Heq; injection Heq as -> Heq; [done|].
  destruct (IH pre Hall He Heq) as [pre' ->]. by exists pre'.
Qed.

Lemma staging_not_cleanup ev : is_cleanup ev = true → ¬ staging_event ev.
Proof. destruct ev as [c r]; destruct c; cbn; intros H; try done; auto. Qed.

(** The two ways [pivotRoot] can go: staging stopped it, or staging
    returned and the switch ran. *)
Lemma pivotRoot_run orc mp root script w :
  (∃ r w1 t1,
     stage orc mp root script w = (r, w1, t1) ∧ (∀ a, r ≠ Ret a) ∧
     Forall staging_event t1 ∧
     pivotRoot orc mp root script w = (halt r, w1, t1)) ∨
  (∃ w1 t1,
     stage orc mp root script w = (Ret tt, w1, t1) ∧
     Forall staging_event t1 ∧ staged mp root script t1 ∧
     pivotRoot orc mp root script w = extend t1 (switch orc mp w1)).
Proof.
  pose proof (stage_events orc mp root script w) as Hev.
  pose proof (stage_rets orc mp root script w) as Hret.
  rewrite pivotRoot_stages, bind_run.
  destruct (stage orc mp root script w) as [[[[]|v| |] w1] t1]; unfold events in Hev;
    cbn [snd] in Hev.
  - right. exists w1, t1. split; [done|]. split; [done|].
    split; [by apply (Hret () w1) | done].
  - left. by exists (Panic v), w1, t1.
  - left. by exists Gone, w1, t1.
  - left. by exists Spin, w1, t1.
Qed.

(** C4. In every run of [pivotRoot], whenever an unlink or rmdir of the
    old root is issued, the events before it already show the new root
    mounted, the boot script run (if one was given), every directory, file
    and link of the skeleton in place, every virtual file system moved into
    the new root, and the working directory changed to the staging path. *)
Theorem cleanup_after_staging (orc : oracle) (mountPoint root script : string)
  (w : world) (pre post : list event) (e : event) :
  events (pivotRoot orc mountPoint root script w) = pre ++ e :: post →
  is_cleanup e = true →
  staged mountPoint root script pre.
Proof.
  intros Heq He.
  destruct (pivotRoot_run orc mountPoint root script w)
    as [(r & w1 & t1 & _ & _ & Hall & E)|(w1 & t1 & _ & Hall & Hst & E)];
    rewrite E in Heq; unfold events, extend in Heq; cbn [snd] in Heq.
  - exfalso. rewrite Heq in Hall. apply Forall_app in Hall as [_ Hall].
    apply Forall_cons in Hall as [Hall _]. by apply (staging_not_cleanup e).
  - destruct (prefix_before staging_event t1 _ pre e post Hall
                (staging_not_cleanup e He) Heq) as [pre' ->].
    by apply upward_left; [apply upward_staged|].
Qed.

(** A failed bind-move is the last thing [pivotRoot] does: no chroot is
    issued, before or after, and the function panics with the mount error. *)
Lemma pivotRoot_bind_move_fatal (orc : oracle) (mountPoint root script : string)
  (w : world) (e : error) :
  In (Ev (bind_move mountPoint) (Fail e))
     (events (pivotRoot orc mountPoint root script w)) →
  result (pivotRoot orc mountPoint root script w) =
    Panic ("mount " +:+ mountPoint +:+ " /: " +:+ Error e) ∧
  (∀ path rep, ¬ In (Ev (Chroot path) rep)
                    (events (pivotRoot orc mountPoint root script w))) ∧
  ∃ pre, events (pivotRoot orc mountPoint root script w) =
           pre ++ [Ev (bind_move mountPoint) (Fail e)].
Proof.
  intros Hin.
  assert (∀ t ev, Forall staging_event t → In ev t →
            ev ≠ Ev (bind_move mountPoint) (Fail e) ∧
            ∀ path rep, ev ≠ Ev (Chroot path) rep) as Hst.
  { intros t ev Hall Hev. rewrite List.Forall_forall in Hall.
    specialize (Hall ev Hev). split; [|intros path rep]; by intros ->. }
  assert (∀ t ev, Forall (λ ev, is_cleanup ev = true) t → In ev t →
            ev ≠ Ev (bind_move mountPoint) (Fail e) ∧
            ∀ path rep, ev ≠ Ev (Chroot path) rep) as Hcl.
  { intros t ev Hall Hev. rewrite List.Forall_forall in Hall.
    specialize (Hall ev Hev). split; [|intros path rep]; by intros ->. }
  destruct (pivotRoot_run orc mountPoint root script w)
    as [(r & w1 & t1 & _ & _ & Hall & E)|(w1 & t1 & _ & Hall & _ & E)];
    rewrite E in *; unfold events, result, extend in *; cbn [fst snd] in *.
  { by destruct (Hst t1 _ Hall Hin) as [? _]. }
  destruct (switch_run orc mountPoint w1) as (tc & err & w2 & Hc & Hsw).
  destruct err as [e'|]; [|destruct Hsw as [err2 Hsw]];
    rewrite Hsw in *; cbn [fst snd] in *.
  - apply in_app_or in Hin as [Hin|Hin]; [by destruct (Hst t1 _ Hall Hin)|].
    apply in_app_or in Hin as [Hin|Hin]; [by destruct (Hcl tc _ Hc Hin)|].
    in_list Hin. injection Hin as ->. split; [done|]. split.
    + intros path rep Hch.
      apply in_app_or in Hch as [Hch|Hch];
        [by destruct (Hst t1 _ Hall Hch) as [_ H]; apply (H path rep)|].
      apply in_app_or in Hch as [Hch|Hch];
        [by destruct (Hcl tc _ Hc Hch) as [_ H]; apply (H path rep)|].
      in_list Hch.
    + exists (t1 ++ tc). by rewrite app_assoc.
  - exfalso.
    apply in_app_or in Hin as [Hin|Hin]; [by destruct (Hst t1 _ Hall Hin)|].
    apply in_app_or in Hin as [Hin|Hin]; [by destruct (Hcl tc _ Hc Hin)|].
    in_list Hin.
Qed.

(** ** Main: the boot sequence inside its two deferred functions *)

Lemma traces_Exec (P : list event → Prop) orc argv0 argv envv :
  (∀ rep, P [Ev (Exec argv0 argv envv) rep]) →
  traces P (syscall_Exec orc argv0 argv envv).
Proof.
  intros H w. unfold syscall_Exec, events.
  destruct (o_kernel orc (clock w) _ w).1; apply H.
Qed.

Lemma traces_FetchReqs (P : list event → Prop) orc workers reqs :
  (∀ n rep, P [Ev (FetchReqs workers reqs n) rep]) →
  traces P (url_FetchReqs orc workers reqs).
Proof.
  intros H w. unfold url_FetchReqs, events.
  destruct (o_fetch orc (clock w) reqs w) as [[n [|e|v|]] w1]; apply H.
Qed.

Lemma traces_Println (P : list event → Prop) s :
  P [Ev (Println s) Done] → traces P (fmt_Println s).
Proof. by intros H w. Qed.

Lemma traces_Printf (P : list event → Prop) s :
  P [Ev (Printf s) Done] → traces P (fmt_Printf s).
Proof. by intros H w. Qed.

Lemma traces_log (P : list event → Prop) args :
  P [Ev (LogPrint args) Done] → traces P (log_Print args).
Proof. by intros H w. Qed.

Lemma deferred_run {A} (zero : A) (d : option string → M unit) (body : M A) w :
  deferred zero d body w =
  match body w with
  | (Ret a, w1, t1) => extend t1 ((d None;; ret a) w1)
  | (Panic v, w1, t1) => extend t1 ((d (Some v);; ret zero) w1)
  | (Gone, w1, t1) => (Gone, w1, t1)
  | (Spin, w1, t1) => (Spin, w1, t1)
  end.
Proof.
  unfold deferred, extend. destruct (body w) as [[[a|v| |] w1] t1]; try done.
  - by destruct ((d None;; ret a) w1) as [[r w2] t2].
  - by destruct ((d (Some v);; ret zero) w1) as [[r w2] t2].
Qed.

Lemma traces_deferred {A} (P : list event → Prop) `{!Closed P} (zero : A)
  (d : option string → M unit) (body : M A) :
  traces P body → (∀ r, traces P (d r)) → traces P (deferred zero d body).
Proof.
  intros Hb Hd w. unfold events. rewrite deferred_run.
  specialize (Hb w). unfold events in Hb.
  destruct (body w) as [[[a|v| |] w1] t1]; try done; cbn.
  - apply closed_app; [done|].
    apply (traces_bind P (d None) (λ _, ret a)); [done|]. intros _. by apply traces_ret.
  - apply closed_app; [done|].
    apply (traces_bind P (d (Some v)) (λ _, ret zero)); [done|].
    intros _. by apply traces_ret.
Qed.

Ltac traces_walk :=
  lazymatch goal with
  | |- traces _ (ret _) => apply traces_ret
  | |- traces _ (mret _) => apply traces_mret
  | |- traces _ (panic _) => apply traces_panic
  | |- traces _ (os_Getenv _) => apply traces_Getenv
  | |- traces _ (must _ _) => apply traces_must
  | |- traces _ (forM_ _ _) => apply traces_forM_; [.. | intros ? ?]
  | |- traces _ (sys _ _ _) => apply traces_sys
  | |- traces _ (kernel _ _) => apply traces_kernel
  | |- traces _ (collab _ _) => apply traces_collab
  | |- traces _ (syscall_Exec _ _ _ _) => apply traces_Exec
  | |- traces _ (url_FetchReqs _ _ _) => apply traces_FetchReqs
  | |- traces _ (fmt_Println _) => apply traces_Println
  | |- traces _ (fmt_Printf _) => apply traces_Printf
  | |- traces _ (log_Print _) => apply traces_log
  | |- traces _ (deferred _ _ _) => apply traces_deferred; [.. | | intros ?]
  | |- traces _ (_ ≫= _) => apply traces_bind; [.. | | intros ?]
  | |- traces _ (if ?b then _ else _) => destruct b
  | |- traces _ (match ?x with _ => _ end) => destruct x
  | |- traces _ ?m => let h := head_of m in unfold h
  end; closed_side.

Lemma finalize_events orc : traces (Forall final_event) (finalize orc).
Proof.
  unfold finalize. repeat traces_walk.
  all: try (intros rep; (constructor; [|constructor]); exact I).
  intros rep. constructor; [|constructor]. cbn.
  match goal with H : In _ targetMounts |- _ =>
    unfold targetMounts in H; in_list H; by simplify_eq end.
Qed.

Lemma emergencyShell_events orc fuel :
  traces (Forall recovery_event) (emergencyShell orc fuel).
Proof.
  induction fuel as [|fuel IH]; [intros w; constructor|].
  cbn [emergencyShell]. repeat traces_walk; try exact IH.
  all: try intros rep; (constructor; [|constructor]); exact I.
Qed.

Lemma recovery_events orc goesinstaller r :
  traces (Forall recovery_event) (recovery orc goesinstaller r).
Proof.
  unfold recovery, recovered, installer. repeat traces_walk.
  all: try intros n; try intros rep; (constructor; [|constructor]); exact I.
Qed.

Lemma events_extend {A} t (x : outcome A * world * list event) :
  events (extend t x) = t ++ events x.
Proof. done. Qed.

Lemma result_extend {A} t (x : outcome A * world * list event) :
  result (extend t x) = result x.
Proof. done. Qed.

Lemma bind_events_prefix {A B} (m : M A) (f : A → M B) w :
  ∃ t', events ((m ≫= f) w) = events (m w) ++ t'.
Proof.
  rewrite bind_run. destruct (m w) as [[[a|v| |] w1] t1];
    [by eexists | by exists []; rewrite app_nil_r ..].
Qed.

Lemma deferred_events_prefix {A} (zero : A) d (body : M A) w :
  ∃ t', events (deferred zero d body w) = events (body w) ++ t'.
Proof.
  rewrite deferred_run. destruct (body w) as [[[a|v| |] w1] t1];
    [by eexists | by eexists | by exists []; rewrite app_nil_r ..].
Qed.

Lemma boot_run orc goesRoot w :
  boot orc goesRoot w =
  match o_collab orc (clock w) BoardHook w with
  | (Done, w0) =>
      extend [Ev BoardHook Done]
        ((pivot_if orc (root_of goesRoot) (script_of goesRoot);; finalize orc)
           (after w w0))
  | (Fail e, w0) => (Panic (hook_message e), after w w0, [Ev BoardHook (Fail e)])
  | (Crash v, w0) => (Panic v, after w w0, [Ev BoardHook (Crash v)])
  | (Never, w0) => (Gone, after w w0, [Ev BoardHook Never])
  end.
Proof.
  unfold boot, Hook, collab. rewrite bind_run.
  by destruct (o_collab orc (clock w) BoardHook w) as [[|e|v|] w0].
Qed.

Lemma boundary_events orc fuel goesinstaller r :
  traces (Forall recovery_event) (boundary orc fuel goesinstaller r).
Proof.
  unfold boundary. apply traces_deferred; [apply _| |intros r'].
  - apply recovery_events.
  - apply traces_bind; [apply _| |intros _; apply emergencyShell_events].
    destruct r'; [|apply traces_ret, _].
    apply traces_Println. by repeat constructor.
Qed.

Lemma recovery_prints orc goesinstaller v w :
  ∃ t', events (recovery orc goesinstaller (Some v) w) = Ev (Println v) Done :: t'.
Proof.
  unfold recovery, recovered. rewrite bind_run. unfold fmt_Println.
  cbv beta iota. rewrite events_extend. by eexists.
Qed.

Lemma boundary_prints orc fuel goesinstaller v w :
  ∃ t', events (boundary orc fuel goesinstaller (Some v) w) =
        Ev (Println v) Done :: t'.
Proof.
  unfold boundary.
  destruct (deferred_events_prefix tt
              (λ r', recovered r';; emergencyShell orc fuel)
              (recovery orc goesinstaller (Some v)) w) as [t1 ->].
  destruct (recovery_prints orc goesinstaller v w) as [t2 ->]. by eexists.
Qed.

(** The events of [Main]: those of the boot sequence, then those of the
    recovery boundary, which begins by printing the panic value if the boot
    sequence panicked. *)
Lemma Main_run orc fuel w :
  ∃ t2,
    events (Main orc fuel w) =
      events (boot orc (SplitList (Getenv "goesroot" w)) w) ++ t2 ∧
    Forall recovery_event t2 ∧
    ∀ v, result (boot orc (SplitList (Getenv "goesroot" w)) w) = Panic v →
         ∃ t2', t2 = Ev (Println v) Done :: t2'.
Proof.
  unfold Main. fold (boundary orc fuel (Getenv "goesinstaller" w)).
  rewrite deferred_run.
  set (gi := Getenv "goesinstaller" w).
  destruct (boot orc (SplitList (Getenv "goesroot" w)) w) as [[[a|v| |] w1] t1].
  - eexists. split; [reflexivity|]. split; [|done].
    apply (traces_bind _ (boundary orc fuel gi None) (λ _, ret a));
      [apply boundary_events | intros _; apply traces_ret, _].
  - eexists. split; [reflexivity|]. split.
    + apply (traces_bind _ (boundary orc fuel gi (Some v)) (λ _, ret (None : option error)));
        [apply boundary_events | intros _; apply traces_ret, _].
    + intros v' [= <-].
      destruct (bind_events_prefix (boundary orc fuel gi (Some v))
                  (λ _, ret (None : option error)) w1) as [t' Ht'].
      destruct (boundary_prints orc fuel gi v w1) as [t'' Ht''].
      rewrite Ht'' in Ht'. unfold events in *. rewrite Ht'. by eexists.
  - exists []. by rewrite app_nil_r.
  - exists []. by rewrite app_nil_r.
Qed.

Lemma Forall_In (φ : event → Prop) t ev : Forall φ t → In ev t → φ ev.
Proof. intros Hall Hin. rewrite List.Forall_forall in Hall. by apply Hall. Qed.

(** C5. When the bind-move of "/newroot" onto "/" fails, no chroot is
    issued anywhere in the run of [Main], and the very next event is the
    outer deferred function printing the recovered panic value: nothing of
    the boot sequence runs any more, only the recovery pathway and the
    emergency shell. *)
Theorem failed_bind_move_reaches_recovery (orc : oracle) (fuel : nat)
  (w : world) (e : error) :
  In (Ev (bind_move "/newroot") (Fail e)) (events (Main orc fuel w)) →
  (∀ path rep, ¬ In (Ev (Chroot path) rep) (events (Main orc fuel w))) ∧
  ∃ pre post,
    events (Main orc fuel w) =
      pre ++ Ev (bind_move "/newroot") (Fail e)
          :: Ev (Println ("mount " +:+ "/newroot" +:+ " /: " +:+ Error e)) Done
          :: post ∧
    Forall recovery_event post.
Proof.
  intros Hin.
  destruct (Main_run orc fuel w) as (t2 & Hev & Hrec & Hpanic).
  revert Hev Hpanic Hin. generalize (SplitList (Getenv "goesroot" w)).
  intros goesRoot Hev Hpanic Hin. rewrite Hev in *. clear Hev.
  apply in_app_or in Hin as [Hin|Hin];
    [|by apply (Forall_In recovery_event t2 _ Hrec) in Hin].
  rewrite boot_run in *.
  destruct (o_collab orc (clock w) BoardHook w) as [[|e0|v0|] w0].
  2-4: by (unfold events in Hin; cbn [snd] in Hin; in_list Hin).
  rewrite events_extend, result_extend in *.
  apply in_app_or in Hin as [Hin|Hin]; [by in_list Hin|].
  unfold pivot_if in *. rewrite bind_run in *.
  destruct (0 <? len (root_of goesRoot)).
  2: { cbv beta iota delta [ret] in Hin. rewrite events_extend in Hin.
       by apply (Forall_In final_event _ _ (finalize_events orc _)) in Hin. }
  pose proof (pivotRoot_bind_move_fatal orc "/newroot" (root_of goesRoot)
                (script_of goesRoot) (after w w0) e) as Hp.
  destruct (pivotRoot orc "/newroot" (root_of goesRoot) (script_of goesRoot)
              (after w w0)) as [[rp wp] tp].
  unfold events, result in Hp. cbn [fst snd] in Hp.
  assert (In (Ev (bind_move "/newroot") (Fail e)) tp) as Htp.
  { destruct rp as [[]|v| |]; try done.
    rewrite events_extend in Hin. apply in_app_or in Hin as [Hin|Hin]; [done|].
    by apply (Forall_In final_event _ _ (finalize_events orc _)) in Hin. }
  destruct (Hp Htp) as (-> & Hno & pre & ->).
  destruct (Hpanic _ eq_refl) as [t2' ->].
  split.
  - intros path rep Hch. cbn [events snd] in Hch.
    apply in_app_or in Hch as [Hch|Hch].
    + apply in_app_or in Hch as [Hch|Hch]; [by in_list Hch|].
      by apply (Hno path rep).
    + by apply (Forall_In recovery_event _ _ Hrec) in Hch.
  - exists ([Ev BoardHook Done] ++ pre), t2'. split.
    + cbn [events snd]. by rewrite <- !app_assoc.
    + by apply Forall_cons in Hrec as [_ ?].
Qed.

(** *** Straight-line code does not loop *)

Lemma nospin_ret {A} (a : A) : nospin (ret a).
Proof. by intros w. Qed.

Lemma nospin_panic {A : Type} v : nospin (panic v : M A).
Proof. by intros w. Qed.

Lemma nospin_bind {A B} (m : M A) (f : A → M B) :
  nospin m → (∀ a, nospin (f a)) → nospin (m ≫= f).
Proof.
  intros Hm Hf w. specialize (Hm w). unfold result in *. rewrite bind_run.
  destruct (m w) as [[[a|v| |] w1] t1]; try done. apply Hf.
Qed.

Lemma nospin_collab orc c : nospin (collab orc c).
Proof.
  intros w. unfold collab, result.
  by destruct (o_collab orc (clock w) c w) as [[|e|v|] w1].
Qed.

Lemma nospin_FetchReqs orc workers reqs : nospin (url_FetchReqs orc workers reqs).
Proof.
  intros w. unfold url_FetchReqs, result.
  by destruct (o_fetch orc (clock w) reqs w) as [[n [|e|v|]] w1].
Qed.

Lemma nospin_Println s : nospin (fmt_Println s).
Proof. by intros w. Qed.

Lemma nospin_Printf s : nospin (fmt_Printf s).
Proof. by intros w. Qed.

Lemma nospin_log args : nospin (log_Print args).
Proof. by intros w. Qed.

Ltac nospin_step :=
  lazymatch goal with
  | |- nospin (ret _) => apply nospin_ret
  | |- nospin (mret _) => apply nospin_ret
  | |- nospin (panic _) => apply nospin_panic
  | |- nospin (collab _ _) => apply nospin_collab
  | |- nospin (url_FetchReqs _ _ _) => apply nospin_FetchReqs
  | |- nospin (fmt_Println _) => apply nospin_Println
  | |- nospin (fmt_Printf _) => apply nospin_Printf
  | |- nospin (log_Print _) => apply nospin_log
  | |- nospin (_ ≫= _) => apply nospin_bind; [|intros ?]
  | |- nospin (if ?b then _ else _) => destruct b
  | |- nospin (match ?x with _ => _ end) => destruct x
  | |- nospin ?m => let h := head_of m in unfold h
  end.

Lemma recovery_nospin orc goesinstaller r : nospin (recovery orc goesinstaller r).
Proof. unfold recovery, recovered, installer. repeat nospin_step. Qed.

(** *** Failures of the boot sequence *)

Lemma fatal_boot orc w v :
  fatal orc w v →
  result (boot orc (SplitList (Getenv "goesroot" w)) w) = Panic v.
Proof.
  intros H. rewrite boot_run.
  destruct H as [e w0 E|v w0 E|v w0 E Hp|v w0 E Hp Hf]; rewrite E; try done.
  - rewrite result_extend. unfold result in *. rewrite bind_run.
    destruct (pivot_if orc _ _ (after w w0)) as [[r w1] t1]. cbn in Hp. by subst r.
  - rewrite result_extend. unfold result, final in *. rewrite bind_run.
    destruct (pivot_if orc _ _ (after w w0)) as [[r w1] t1]. cbn in Hp, Hf.
    subst r. done.
Qed.

Lemma shell_enters orc fuel w :
  ∃ rep post,
    events (emergencyShell orc (S fuel) w) =
    Ev (Println shell_banner) Done :: Ev (GoesMain ["cli"]) rep :: post.
Proof.
  cbn [emergencyShell]. rewrite bind_run. unfold fmt_Println at 1.
  cbv beta iota. rewrite events_extend.
  match goal with |- context [events ((?m ≫= ?f) ?w1)] =>
    destruct (bind_events_prefix m f w1) as [t' ->] end.
  unfold goes_Main, collab, events.
  destruct (o_collab orc _ (GoesMain ["cli"]) _) as [[|e|v|] w1]; by eexists _, _.
Qed.

Lemma inner_enters orc fuel r' w :
  ∃ pre rep post,
    events ((recovered r';; emergencyShell orc (S fuel)) w) =
    pre ++ Ev (Println shell_banner) Done :: Ev (GoesMain ["cli"]) rep :: post.
Proof.
  rewrite bind_run. destruct r' as [v'|]; unfold recovered.
  - unfold fmt_Println at 1. cbv beta iota. rewrite events_extend.
    destruct (shell_enters orc fuel (tick w)) as (rep & post & ->).
    by eexists _, _, _.
  - unfold ret at 1. cbv beta iota. rewrite events_extend.
    destruct (shell_enters orc fuel w) as (rep & post & ->).
    by exists [], rep, post.
Qed.

(** C6. Every fatal failure of the boot sequence, whether signalled by the
    hook, by the pivot or by the finalizer, is taken through one and the
    same boundary: the outer deferred function prints the panic value and
    runs the recovery pathway; unless that replaces the process image, the
    inner deferred function then enters the emergency shell, also when the
    recovery pathway failed or panicked itself. *)
Theorem failure_reaches_emergency_shell (orc : oracle) (fuel : nat)
  (w : world) (v : string) :
  fatal orc w v →
  result (recovery orc (Getenv "goesinstaller" w) (Some v)
            (final (boot orc (SplitList (Getenv "goesroot" w)) w))) ≠ Gone →
  ∃ mid rep post,
    events (Main orc (S fuel) w) =
      events (boot orc (SplitList (Getenv "goesroot" w)) w)
      ++ Ev (Println v) Done :: mid
      ++ Ev (Println shell_banner) Done :: Ev (GoesMain ["cli"]) rep :: post.
Proof.
  intros Hfatal Hrec. apply fatal_boot in Hfatal.
  unfold Main. rewrite deferred_run.
  revert Hfatal Hrec.
  generalize (SplitList (Getenv "goesroot" w)) (Getenv "goesinstaller" w).
  intros goesRoot gi Hboot Hrec.
  destruct (boot orc goesRoot w) as [[r1 w1] t1]. cbn in Hboot. subst r1.
  unfold final in Hrec. cbn [fst snd] in Hrec.
  rewrite events_extend. unfold events at 2. cbn [snd].
  match goal with |- context [events ((?m ≫= ?f) w1)] =>
    destruct (bind_events_prefix m f w1) as [t' ->] end.
  rewrite deferred_run.
  pose proof (recovery_nospin orc gi (Some v) w1) as Hns.
  destruct (recovery_prints orc gi v w1) as [t2 Ht2].
  destruct (recovery orc gi (Some v) w1) as [[r2 w2] tr].
  unfold result in Hrec, Hns. unfold events in Ht2. cbn [fst snd] in *. subst tr.
  assert (∀ r', ∃ mid rep post,
            events (extend (Ev (Println v) Done :: t2)
                      (((recovered r';; emergencyShell orc (S fuel));; ret ()) w2))
            = Ev (Println v) Done :: mid
              ++ Ev (Println shell_banner) Done :: Ev (GoesMain ["cli"]) rep :: post)
    as Hinner.
  { intros r'. rewrite events_extend.
    match goal with |- context [events ((?m ≫= ?f) w2)] =>
      destruct (bind_events_prefix m f w2) as [t'' ->] end.
    destruct (inner_enters orc fuel r' w2) as (pre & rep & post & ->).
    exists (t2 ++ pre), rep, (post ++ t'').
    rewrite <- ?app_assoc. cbn [app]. by rewrite <- ?app_assoc. }
  destruct r2 as [[]|v'| |]; try done.
  - destruct (Hinner None) as (mid & rep & post & ->).
    exists mid, rep, (post ++ t'). rewrite <- ?app_assoc. cbn [app].
    by rewrite <- ?app_assoc.
  - destruct (Hinner (Some v')) as (mid & rep & post & ->).
    exists mid, rep, (post ++ t'). rewrite <- ?app_assoc. cbn [app].
    by rewrite <- ?app_assoc.
Qed.

(** ** Parsing [goesroot] *)

Lemma pivotRoot_prologue orc mountPoint root script w :
  pivotRoot orc mountPoint root script w =
  (prologue orc mountPoint root script;; epilogue orc mountPoint) w.
Proof.
  unfold pivotRoot, prologue, epilogue.
  repeat (rewrite bind_assoc; apply bind_ext; intros ? ?).
  reflexivity.
Qed.

Lemma prologue_events orc root script :
  traces (Forall prologue_event) (prologue orc "/newroot" root script).
Proof.
  unfold prologue. repeat traces_walk.
  all: intros rep; (constructor; [|constructor]); done.
Qed.

Lemma prologue_not_skeleton ev : prologue_event ev → skeleton_call ev = false.
Proof. destruct ev as [c r]; destruct c; cbn; try done; by intros ->. Qed.

Lemma recovery_not_skeleton ev : recovery_event ev → skeleton_call ev = false.
Proof. by destruct ev as [c r]; destruct c. Qed.

Lemma must_collab_Ret orc c msg w a w' t :
  must (collab orc c) msg w = (Ret a, w', t) → t = [Ev c Done].
Proof.
  unfold must. intros E.
  apply bind_Ret_inv in E as ([e|] & w1 & t1 & t2 & E1 & E2 & ->); [done|].
  unfold collab in E1.
  destruct (o_collab orc (clock w) c w) as [[|e|v|] w2]; try done.
  injection E1 as _ <-. injection E2 as _ _ <-. done.
Qed.

(** A prologue that returns ends with the mount and the boot script. *)
Lemma prologue_rets orc mp root script :
  0 < len script →
  rets (prologue orc mp root script)
    (λ t, ∃ a, t = a ++ [Ev (GoesMain ["mount"; root; mp]) Done;
                         Ev (GoesMain ["source"; script]) Done]).
Proof.
  intros Hs w a w' t E. unfold prologue in E.
  apply Z.ltb_lt in Hs. rewrite Hs in E.
  apply bind_Ret_inv in E as (err & w1 & t1 & t2 & _ & E & ->).
  apply bind_Ret_inv in E as ([] & w2 & t2' & t3 & _ & E & ->).
  apply bind_Ret_inv in E as ([] & w3 & t4 & t5 & Em & Es & ->).
  apply must_collab_Ret in Em as ->. apply must_collab_Ret in Es as ->.
  exists (t1 ++ t2'). by rewrite <- !app_assoc.
Qed.

Lemma noskel_Forall (φ : event → Prop) t :
  (∀ ev, φ ev → skeleton_call ev = false) → Forall φ t →
  Forall (λ ev, skeleton_call ev = false) t.
Proof. intros H Hall. eapply Forall_impl; [exact Hall | exact H]. Qed.

Lemma hook_noskel rep :
  Forall (λ ev, skeleton_call ev = false) [Ev BoardHook rep].
Proof. constructor; [reflexivity | constructor]. Qed.

(** With the colon-separated pair, the events of [Main] split into a head
    without any population call, and a tail that starts only after a mount
    and a boot script that both succeeded. *)
Lemma Main_prologue orc fuel w :
  Getenv "goesroot" w = colon_pair →
  ∃ head tail,
    events (Main orc fuel w) = head ++ tail ∧
    Forall (λ ev, skeleton_call ev = false) head ∧
    ((∃ a, head = a ++ [mount_root; source_script]) ∨
     Forall (λ ev, skeleton_call ev = false) tail).
Proof.
  intros Hroot.
  destruct (Main_run orc fuel w) as (t2 & Hev & Hrec & _).
  rewrite Hev, Hroot. clear Hev.
  apply (noskel_Forall _ _ recovery_not_skeleton) in Hrec.
  rewrite boot_run.
  destruct (o_collab orc (clock w) BoardHook w) as [[|e0|v0|] w0].
  2-4: by (eexists [_], t2; split; [reflexivity|]; split;
           [apply hook_noskel | by right]).
  rewrite events_extend.
  change (root_of (SplitList colon_pair)) with "/dev/sda1".
  change (script_of (SplitList colon_pair)) with "/etc/boot.conf".
  unfold pivot_if. change (0 <? len "/dev/sda1") with true. cbv iota.
  rewrite bind_run, pivotRoot_prologue, bind_run.
  pose proof (prologue_events orc "/dev/sda1" "/etc/boot.conf" (after w w0)) as Hpro.
  pose proof (prologue_rets orc "/newroot" "/dev/sda1" "/etc/boot.conf"
                ltac:(done) (after w w0)) as Hret.
  apply (noskel_Forall _ _ prologue_not_skeleton) in Hpro.
  destruct (prologue orc "/newroot" "/dev/sda1" "/etc/boot.conf" (after w w0))
    as [[[[]|v| |] wp] tp]; unfold events in Hpro; cbn [snd] in Hpro.
  - destruct (Hret () wp tp eq_refl) as [a ->].
    exists ([Ev BoardHook Done] ++ a ++ [mount_root; source_script]).
    destruct (epilogue orc "/newroot" wp) as [[re we] te].
    unfold extend at 1. cbn [fst snd].
    destruct re as [[]|v| |]; rewrite ?events_extend; unfold events; cbn [snd];
      (eexists; (split; [|split]);
       [ rewrite <- ?app_assoc; cbn [app]; rewrite <- ?app_assoc; cbn [app];
         reflexivity
       | apply Forall_app; split; [apply hook_noskel | done]
       | left; exists ([Ev BoardHook Done] ++ a); by rewrite <- app_assoc ]).
  - exists ([Ev BoardHook Done] ++ tp), t2. split; [done|]. split; [|by right].
    apply Forall_app. split; [apply hook_noskel | done].
  - exists ([Ev BoardHook Done] ++ tp), t2. split; [done|]. split; [|by right].
    apply Forall_app. split; [apply hook_noskel | done].
  - exists ([Ev BoardHook Done] ++ tp), t2. split; [done|]. split; [|by right].
    apply Forall_app. split; [apply hook_noskel | done].
Qed.

(** C3, amended.  With [goesroot] set to the colon-separated pair
    "/dev/sda1:/etc/boot.conf", [Main] takes "/dev/sda1" as the root and
    "/etc/boot.conf" as the boot script, and whenever a call that populates
    the skeleton under "/newroot" is issued, the events before it contain
    the successful mount of "/dev/sda1" on "/newroot" immediately followed
    by the successful run of the boot script. *)
Theorem colon_goesroot_mounts_then_sources (orc : oracle) (fuel : nat)
  (w : world) (pre post : list event) (e : event) :
  Getenv "goesroot" w = colon_pair →
  events (Main orc fuel w) = pre ++ e :: post →
  skeleton_call e = true →
  SplitList (Getenv "goesroot" w) = ["/dev/sda1"; "/etc/boot.conf"] ∧
  root_of (SplitList (Getenv "goesroot" w)) = "/dev/sda1" ∧
  script_of (SplitList (Getenv "goesroot" w)) = "/etc/boot.conf" ∧
  ∃ a b, pre = a ++ mount_root :: source_script :: b.
Proof.
  intros Hroot Heq He. rewrite Hroot. do 3 (split; [reflexivity|]).
  destruct (Main_prologue orc fuel w Hroot) as (head & tail & Hev & Hhead & Htail).
  rewrite Hev in Heq.
  destruct (prefix_before (λ ev, skeleton_call ev = false) head tail pre e post
              Hhead) as [pre' ->]; [by rewrite He | done |].
  destruct Htail as [[a ->]|Htail].
  - exists a, pre'. by rewrite <- app_assoc.
  - exfalso. rewrite <- app_assoc in Heq. apply app_inv_head in Heq.
    rewrite Heq in Htail.
    apply Forall_app in Htail as [_ Htail].
    apply Forall_cons in Htail as [Htail _]. by rewrite He in Htail.
Qed.

(** C3, as stated, fails: the comma is not the path-list separator, so the
    whole value is taken as the root and no boot script is run. *)
Lemma comma_goesroot_is_one_field :
  Getenv "goesroot" comma_boot = "/dev/sda1,/etc/boot.conf" ∧
  SplitList (Getenv "goesroot" comma_boot) = ["/dev/sda1,/etc/boot.conf"] ∧
  root_of (SplitList (Getenv "goesroot" comma_boot)) = "/dev/sda1,/etc/boot.conf" ∧
  script_of (SplitList (Getenv "goesroot" comma_boot)) = "" ∧
  In (Ev (GoesMain ["mount"; "/dev/sda1,/etc/boot.conf"; "/newroot"]) Done)
     (events (Main quiet 1 comma_boot)) ∧
  ¬ In mount_root (events (Main quiet 1 comma_boot)) ∧
  ∀ script rep,
    ¬ In (Ev (GoesMain ["source"; script]) rep) (events (Main quiet 1 comma_boot)).
Proof.
  do 4 (split; [by vm_compute|]).
  assert (∃ t, events (Main quiet 1 comma_boot) = t) as [t Ht] by by eexists.
  rewrite Ht. vm_compute in Ht. subst t.
  split; [|split].
  - find_in.
  - intros H. in_list H.
  - intros script rep H. in_list H.
Qed.

(** ** The finalizer inside [Main] *)

(** Every way [runSbinInit] can go. *)
Lemma runSbinInit_run orc w :
  ∃ pre, Forall setup_event pre ∧
    ((events (runSbinInit orc w) = pre ∧
      ∃ v, result (runSbinInit orc w) = Panic v)
     ∨ (events (runSbinInit orc w) = pre ++ [stat_init (Fail ENOENT)] ∧
        result (runSbinInit orc w) = Ret tt)
     ∨ (∃ e, e ≠ ENOENT ∧
        events (runSbinInit orc w) = pre ++ [stat_init (Fail e)] ∧
        ∃ v, result (runSbinInit orc w) = Panic v)
     ∨ (∃ argv envv,
        events (runSbinInit orc w) =
          pre ++ [stat_init Done; Ev (Exec sbininit argv envv) Never] ∧
        result (runSbinInit orc w) = Gone)
     ∨ (∃ argv envv e,
        events (runSbinInit orc w) =
          pre ++ [stat_init Done; Ev (Exec sbininit argv envv) (Fail e)] ∧
        result (runSbinInit orc w) =
          Panic ("exec " +:+ sbininit +:+ ": " +:+ Error e))).
Proof.
  unfold runSbinInit, stat_init. unfold_calls. split_answers.
  all: cbn [fst snd app].
  all: match goal with
       | |- ∃ pre, _ ∧ ((?L = pre ∧ _) ∨ _) =>
           first
             [ exists L; split; [by repeat constructor|];
               left; split; [reflexivity | by eexists]
             | exists (removelast L); split; [by repeat constructor|];
               right; left; split; reflexivity
             | exists (removelast L); split; [by repeat constructor|];
               right; right; left; eexists; split; [|split;
                 [reflexivity | by eexists]]; done
             | exists (removelast (removelast L)); split; [by repeat constructor|];
               right; right; right; left; eexists _, _; split; reflexivity
             | exists (removelast (removelast L)); split; [by repeat constructor|];
               right; right; right; right; eexists _, _, _; split; reflexivity ]
       end.
Qed.

Lemma finalize_approach orc root script w :
  (pivot_if orc root script;; finalize orc) w =
  (approach orc root script;; runSbinInit orc;; goes_Main orc ["start"]) w.
Proof.
  unfold approach, finalize.
  rewrite bind_assoc. apply bind_ext. intros ? ?.
  rewrite bind_assoc. apply bind_ext. intros ? ?.
  rewrite bind_assoc. apply bind_ext. intros ? ?.
  reflexivity.
Qed.

Ltac table_cases :=
  repeat match goal with
    | H : In _ _ |- _ =>
        unfold rootDirs, rootFiles, rootLinks, virtualFileSystems, targetDirs,
          targetLinks, targetMounts, oldRootFiles, oldRootDirs in H;
        in_list H; simplify_eq
    end.

Lemma approach_events orc root script :
  traces (Forall before_init) (approach orc root script).
Proof.
  unfold approach, pivot_if. repeat traces_walk.
  all: intros rep; (constructor; [|constructor]); cbn [before_init];
       try exact I.
  all: table_cases; by vm_compute.
Qed.

Lemma recovery_before_init ev : recovery_event ev → before_init ev.
Proof. by destruct ev as [c r]; destruct c. Qed.

Lemma setup_before_init ev : setup_event ev → before_init ev.
Proof. by destruct ev as [c r]; destruct c. Qed.

Lemma split_unique (φ : event → Prop) A T X pre post :
  Forall φ A → Forall φ T → ¬ φ X →
  A ++ X :: T = pre ++ X :: post → pre = A ∧ post = T.
Proof.
  intros HA HT HX Heq.
  destruct (prefix_before φ A (X :: T) pre X post HA HX Heq) as [pre' ->].
  rewrite <- app_assoc in Heq. apply app_inv_head in Heq.
  destruct pre' as [|x pre']; cbn in Heq; injection Heq as Heq.
  - split; [by rewrite app_nil_r | done].
  - exfalso. subst T.
    apply Forall_app in HT as [_ HT]. by apply Forall_cons in HT as [? _].
Qed.

(** The boot sequence either stops before [runSbinInit], or reaches it. *)
Lemma boot_approach orc goesRoot w :
  (∃ t, events (boot orc goesRoot w) = t ∧ Forall before_init t ∧
        ∀ a, result (boot orc goesRoot w) ≠ Ret a) ∨
  (∃ t wf, Forall before_init t ∧
           boot orc goesRoot w =
             extend t ((runSbinInit orc;; goes_Main orc ["start"]) wf)).
Proof.
  rewrite boot_run.
  destruct (o_collab orc (clock w) BoardHook w) as [[|e0|v0|] w0].
  2-4: by (left; eexists; split; [reflexivity|]; split;
           [by repeat constructor | done]).
  rewrite finalize_approach, bind_run.
  pose proof (approach_events orc (root_of goesRoot) (script_of goesRoot)
                (after w w0)) as Hev.
  destruct (approach orc (root_of goesRoot) (script_of goesRoot) (after w w0))
    as [[[[]|v| |] wf] t]; unfold events in Hev; cbn [snd] in Hev.
  - right. exists ([Ev BoardHook Done] ++ t), wf. split.
    + apply Forall_app. split; [by repeat constructor | done].
    + unfold extend. cbn [fst snd]. by rewrite <- app_assoc.
  - left. eexists. split; [reflexivity|]. split; [|done].
    apply Forall_app. split; [by repeat constructor | done].
  - left. eexists. split; [reflexivity|]. split; [|done].
    apply Forall_app. split; [by repeat constructor | done].
  - left. eexists. split; [reflexivity|]. split; [|done].
    apply Forall_app. split; [by repeat constructor | done].
Qed.

Lemma Forall_ne (φ : event → Prop) X t :
  Forall φ t → ¬ φ X → Forall (λ ev, ev ≠ X) t.
Proof.
  intros Hall HX. eapply Forall_impl; [exact Hall|].
  intros ev Hev ->. by apply HX.
Qed.

Lemma not_in_middle X pre post : ¬ Forall (λ ev : event, ev ≠ X) (pre ++ X :: post).
Proof.
  intros H. apply Forall_app in H as [_ H]. by apply Forall_cons in H as [? _].
Qed.

(** C8. In the finalizer, when "/sbin/init" does not exist [runSbinInit]
    returns normally without executing anything, and [Main] goes on to the
    daemon start, [goes.Main("start")]; when it exists and the exec fails,
    [runSbinInit] panics with the exec error, and the next thing [Main] does
    is to print that panic value in its outer deferred function, the
    recovery boundary. *)
Theorem finalizer_returns_or_aborts (orc : oracle) (fuel : nat) (w : world) :
  (In (stat_init (Fail ENOENT)) (events (runSbinInit orc w)) →
     result (runSbinInit orc w) = Ret tt ∧
     ∀ argv0 argv envv rep,
       ¬ In (Ev (Exec argv0 argv envv) rep) (events (runSbinInit orc w))) ∧
  (∀ argv envv e,
     In (Ev (Exec sbininit argv envv) (Fail e)) (events (runSbinInit orc w)) →
     In (stat_init Done) (events (runSbinInit orc w)) ∧
     result (runSbinInit orc w) =
       Panic ("exec " +:+ sbininit +:+ ": " +:+ Error e)) ∧
  (∀ pre post,
     events (Main orc fuel w) = pre ++ stat_init (Fail ENOENT) :: post →
     ∃ rep post', post = Ev (GoesMain ["start"]) rep :: post') ∧
  (∀ pre post argv envv e,
     events (Main orc fuel w) =
       pre ++ Ev (Exec sbininit argv envv) (Fail e) :: post →
     ∃ post',
       post = Ev (Println ("exec " +:+ sbininit +:+ ": " +:+ Error e)) Done
              :: post' ∧
       Forall recovery_event post').
Proof.
  assert (∀ pre X, Forall setup_event pre → In X pre → setup_event X) as Hset.
  { intros pre X Hall Hin. by apply (Forall_In setup_event pre). }
  split; [|split; [|split]].
  - intros Hin.
    destruct (runSbinInit_run orc w)
      as (p & Hp & [(E & v & R)|[(E & R)|[(e & Hne & E & v & R)|
            [(argv & envv & E & R)|(argv & envv & e & E & R)]]]]);
      rewrite E in *; try rewrite R.
    + by apply Hset in Hin; [|assumption].
    + split; [done|]. intros argv0 argv envv rep H.
      apply in_app_or in H as [H|H]; [by apply Hset in H; [|assumption] | in_list H].
    + apply in_app_or in Hin as [Hin|Hin]; [by apply Hset in Hin; [|assumption]|].
      in_list Hin. by injection Hin as ->.
    + apply in_app_or in Hin as [Hin|Hin]; [by apply Hset in Hin; [|assumption] | in_list Hin].
    + apply in_app_or in Hin as [Hin|Hin]; [by apply Hset in Hin; [|assumption] | in_list Hin].
  - intros argv envv e Hin.
    destruct (runSbinInit_run orc w)
      as (p & Hp & [(E & v & R)|[(E & R)|[(e' & Hne & E & v & R)|
            [(argv' & envv' & E & R)|(argv' & envv' & e' & E & R)]]]]);
      rewrite E in *; try rewrite R.
    + by apply Hset in Hin; [|assumption].
    + apply in_app_or in Hin as [Hin|Hin]; [by apply Hset in Hin; [|assumption] | in_list Hin].
    + apply in_app_or in Hin as [Hin|Hin]; [by apply Hset in Hin; [|assumption] | in_list Hin].
    + apply in_app_or in Hin as [Hin|Hin]; [by apply Hset in Hin; [|assumption] | in_list Hin].
    + apply in_app_or in Hin as [Hin|Hin]; [by apply Hset in Hin; [|assumption]|].
      in_list Hin. injection Hin as -> -> ->. split; [|done].
      apply in_or_app. right. by left.
  - intros pre post Heq.
    destruct (Main_run orc fuel w) as (t2 & Hev & Hrec & _).
    rewrite Hev in Heq. clear Hev. revert Heq.
    generalize (SplitList (Getenv "goesroot" w)). intros goesRoot Heq.
    set (X := stat_init (Fail ENOENT)) in *.
    assert (∀ t, Forall before_init t → Forall (λ ev, ev ≠ X) t) as Hne.
    { intros t Ht. apply (Forall_ne before_init); [done|]. by intros H. }
    pose proof (Hne t2 (Forall_impl _ _ _ Hrec recovery_before_init)) as H2.
    destruct (boot_approach orc goesRoot w)
      as [(t & Et & Hall & _)|(t & wf & Hall & Eb)].
    { exfalso. rewrite Et in Heq. apply (not_in_middle X pre post).
      rewrite <- Heq. apply Forall_app. split; [by apply Hne | done]. }
    rewrite Eb, events_extend in Heq. rewrite bind_run in Heq.
    destruct (runSbinInit_run orc wf)
      as (p & Hp & [(E & v & R)|[(E & R)|[(e & Hnoent & E & v & R)|
            [(argv & envv & E & R)|(argv & envv & e & E & R)]]]]);
      destruct (runSbinInit orc wf) as [[rr wr] tr];
      unfold events, result in E, R; cbn [fst snd] in E, R; subst rr tr.
    all: pose proof (Hne _ Hall) as Ht;
         pose proof (Hne _ (Forall_impl _ _ _ Hp setup_before_init)) as Hps.
    + exfalso. apply (not_in_middle X pre post). rewrite <- Heq.
      unfold events. cbn [snd]. repeat (apply Forall_app; split); done.
    + rewrite events_extend in Heq. unfold goes_Main, collab, events in Heq.
      destruct (o_collab orc (clock wr) (GoesMain ["start"]) wr) as [rep w1].
      assert (∃ tail, (t ++ (p ++ [X]) ++ [Ev (GoesMain ["start"]) rep]) ++ t2
                      = (t ++ p) ++ X :: tail ∧
                      tail = Ev (GoesMain ["start"]) rep :: t2) as (tail & Ht' & ->).
      { eexists. split; [|reflexivity]. by rewrite <- !app_assoc. }
      assert (post = Ev (GoesMain ["start"]) rep :: t2) as ->; [|by eexists _, _].
      refine (proj2 (split_unique (λ ev, ev ≠ X) (t ++ p) _ X pre post _ _ _ _)).
      * apply Forall_app. by split.
      * constructor; [done | exact H2].
      * by intros H.
      * rewrite <- Ht', <- Heq. by destruct rep.
    + exfalso. apply (not_in_middle X pre post). rewrite <- Heq.
      unfold events. cbn [snd]. repeat (apply Forall_app; split); try done.
      constructor; [|constructor]. intros [= H]. by apply Hnoent.
    + exfalso. apply (not_in_middle X pre post). rewrite <- Heq.
      unfold events. cbn [snd]. repeat (apply Forall_app; split); try done.
      by repeat constructor.
    + exfalso. apply (not_in_middle X pre post). rewrite <- Heq.
      unfold events. cbn [snd]. repeat (apply Forall_app; split); try done.
      by repeat constructor.
  - intros pre post argv envv e Heq.
    destruct (Main_run orc fuel w) as (t2 & Hev & Hrec & Hpanic).
    rewrite Hev in Heq. clear Hev. revert Heq Hpanic.
    generalize (SplitList (Getenv "goesroot" w)). intros goesRoot Heq Hpanic.
    set (Y := Ev (Exec sbininit argv envv) (Fail e)) in *.
    assert (∀ t, Forall before_init t → Forall (λ ev, ev ≠ Y) t) as Hne.
    { intros t Ht. apply (Forall_ne before_init); [done|]. by intros H. }
    pose proof (Hne t2 (Forall_impl _ _ _ Hrec recovery_before_init)) as H2.
    destruct (boot_approach orc goesRoot w)
      as [(t & Et & Hall & _)|(t & wf & Hall & Eb)].
    { exfalso. rewrite Et in Heq. apply (not_in_middle Y pre post).
      rewrite <- Heq. apply Forall_app. split; [by apply Hne | done]. }
    rewrite Eb, events_extend in Heq. rewrite Eb, result_extend in Hpanic.
    rewrite bind_run in Heq, Hpanic.
    destruct (runSbinInit_run orc wf)
      as (p & Hp & [(E & v & R)|[(E & R)|[(e' & Hnoent & E & v & R)|
            [(argv' & envv' & E & R)|(argv' & envv' & e' & E & R)]]]]);
      destruct (runSbinInit orc wf) as [[rr wr] tr];
      unfold events, result in E, R; cbn [fst snd] in E, R; subst rr tr.
    all: pose proof (Hne _ Hall) as Ht;
         pose proof (Hne _ (Forall_impl _ _ _ Hp setup_before_init)) as Hps.
    + exfalso. apply (not_in_middle Y pre post). rewrite <- Heq.
      unfold events. cbn [snd]. repeat (apply Forall_app; split); done.
    + exfalso. apply (not_in_middle Y pre post). rewrite <- Heq.
      rewrite events_extend. unfold goes_Main, collab, events.
      destruct (o_collab orc (clock wr) (GoesMain ["start"]) wr) as [rep w1].
      assert (Forall (λ ev, ev ≠ Y) [Ev (GoesMain ["start"]) rep]) as Hs
        by by repeat constructor.
      destruct rep; cbn [snd];
        repeat (apply Forall_app; split); try done; by repeat constructor.
    + exfalso. apply (not_in_middle Y pre post). rewrite <- Heq.
      unfold events. cbn [snd]. repeat (apply Forall_app; split); try done.
      by repeat constructor.
    + exfalso. apply (not_in_middle Y pre post). rewrite <- Heq.
      unfold events. cbn [snd]. repeat (apply Forall_app; split); try done.
      by repeat constructor.
    + unfold events in Heq. cbn [snd] in Heq.
      destruct (Hpanic _ eq_refl) as [t2' ->].
      set (Y' := Ev (Exec sbininit argv' envv') (Fail e')) in *.
      destruct (decide (Y' = Y)) as [EY|NY].
      * injection EY as -> -> ->. fold Y in Heq.
        assert ((t ++ p ++ [stat_init Done]) ++ Y ::
                  Ev (Println ("exec " +:+ sbininit +:+ ": " +:+ Error e)) Done :: t2'
                = pre ++ Y :: post) as Hre.
        { rewrite <- Heq. by rewrite <- !app_assoc. }
        clear Heq. rename Hre into Heq.
        apply (split_unique (λ ev, ev ≠ Y)) in Heq as [_ ->].
        -- eexists. split; [reflexivity|]. by apply Forall_cons in Hrec as [_ ?].
        -- repeat (apply Forall_app; split); try done. by repeat constructor.
        -- done.
        -- by intros H.
      * exfalso. apply (not_in_middle Y pre post). rewrite <- Heq.
        repeat (apply Forall_app; split); try done.
        by repeat constructor.
Qed.

(** ** [Main] never returns *)

Lemma emergencyShell_panic orc fuel w v :
  result (emergencyShell orc fuel w) = Panic v →
  In (Ev (GoesMain ["cli"]) (Crash v)) (events (emergencyShell orc fuel w)).
Proof.
  revert w. induction fuel as [|fuel IH]; intros w; [done|].
  cbn [emergencyShell]. unfold mbind, M_bind, bind, fmt_Println, goes_Main, collab.
  destruct (o_collab orc (clock (tick w)) (GoesMain ["cli"]) (tick w)) as [rep w1].
  destruct rep as [|e|v'|]; try done.
  - specialize (IH (after (tick w) w1)). unfold ret.
    destruct (emergencyShell orc fuel _) as [[r w2] t2].
    unfold result, events in *. cbn in *. intros ->. right. right. by apply IH.
  - unfold fmt_Println, ret. destruct (bool_decide (e ≠ EOF)).
    + specialize (IH (tick (after (tick w) w1))).
      destruct (emergencyShell orc fuel _) as [[r w2] t2].
      unfold result, events in *. cbn in *. intros ->.
      right. right. right. by apply IH.
    + specialize (IH (after (tick w) w1)).
      destruct (emergencyShell orc fuel _) as [[r w2] t2].
      unfold result, events in *. cbn in *. intros ->. right. right. by apply IH.
  - unfold result, events. cbn. intros [= ->]. right. by left.
Qed.

(** The recovery boundary never returns, and a panic that leaves it was
    raised by the interactive shell. *)
Lemma boundary_outcome orc fuel gi r w :
  (∀ u, result (boundary orc fuel gi r w) ≠ Ret u) ∧
  (∀ v, result (boundary orc fuel gi r w) = Panic v →
        In (Ev (GoesMain ["cli"]) (Crash v)) (events (boundary orc fuel gi r w))).
Proof.
  unfold boundary. rewrite deferred_run.
  assert (∀ r' w1 t1,
    (∀ u, result (extend t1 (((recovered r';; emergencyShell orc fuel);; ret tt) w1))
          ≠ Ret u) ∧
    (∀ v, result (extend t1 (((recovered r';; emergencyShell orc fuel);; ret tt) w1))
          = Panic v →
          In (Ev (GoesMain ["cli"]) (Crash v))
             (events (extend t1 (((recovered r';; emergencyShell orc fuel);; ret tt) w1)))))
    as Hinner.
  { intros r' w1 t1. rewrite result_extend, events_extend.
    rewrite !bind_run.
    assert (∃ w2 t2, recovered r' w1 = (Ret tt, w2, t2)) as (w2 & t2 & ->)
      by (destruct r'; by eexists _, _).
    pose proof (emergencyShell_not_Ret orc fuel w2) as Hnr.
    pose proof (emergencyShell_panic orc fuel w2) as Hp.
    destruct (emergencyShell orc fuel w2) as [[[u|v'| |] w3] t3];
      unfold result, events, extend in *; cbn [fst snd] in *.
    - by destruct (Hnr u).
    - split; [done|]. intros v [= <-].
      apply in_or_app. right. apply in_or_app. right. by apply Hp.
    - done.
    - done. }
  pose proof (recovery_nospin orc gi r w) as Hns.
  destruct (recovery orc gi r w) as [[[[]|v'| |] w1] t1];
    first [done | apply Hinner].
Qed.

(** [Main] never returns to its caller: the deferred functions end in the
    emergency shell, also when the boot sequence completed and
    [goes.Main("start")] returned.  Every panic of the boot sequence and of
    the recovery pathway is recovered; the only panic that can leave [Main]
    is one raised by the interactive shell of the emergency loop. *)
Theorem Main_does_not_return (orc : oracle) (fuel : nat) (w : world) :
  (∀ a, result (Main orc fuel w) ≠ Ret a) ∧
  (∀ v, result (Main orc fuel w) = Panic v →
        In (Ev (GoesMain ["cli"]) (Crash v)) (events (Main orc fuel w))).
Proof.
  unfold Main. fold (boundary orc fuel (Getenv "goesinstaller" w)).
  rewrite deferred_run.
  generalize (SplitList (Getenv "goesroot" w)) (Getenv "goesinstaller" w).
  intros goesRoot gi.
  assert (∀ {A} (a : A) r w1 t1,
    (∀ u, result (extend t1 ((boundary orc fuel gi r;; ret a) w1)) ≠ Ret u) ∧
    (∀ v, result (extend t1 ((boundary orc fuel gi r;; ret a) w1)) = Panic v →
          In (Ev (GoesMain ["cli"]) (Crash v))
             (events (extend t1 ((boundary orc fuel gi r;; ret a) w1)))))
    as Hb.
  { intros A a r w1 t1. rewrite result_extend, events_extend, bind_run.
    destruct (boundary_outcome orc fuel gi r w1) as [Hnr Hp].
    destruct (boundary orc fuel gi r w1) as [[[u|v'| |] w2] t2];
      unfold result, events in *; cbn [fst snd] in *.
    - by destruct (Hnr u).
    - split; [done|]. intros v [= <-]. apply in_or_app. right. by apply Hp.
    - done.
    - done. }
  destruct (boot orc goesRoot w) as [[[a|v'| |] w1] t1];
    first [done | apply Hb].
Qed.

(** ** After the daemon start *)

Lemma approach_not_start orc root script :
  traces (Forall not_start) (approach orc root script).
Proof.
  unfold approach, pivot_if. repeat traces_walk.
  all: intros rep; (constructor; [|constructor]); cbn [not_start];
       try exact I; done.
Qed.

Lemma runSbinInit_not_start orc : traces (Forall not_start) (runSbinInit orc).
Proof.
  unfold runSbinInit. repeat traces_walk.
  all: intros rep; (constructor; [|constructor]); exact I.
Qed.

Lemma emergencyShell_not_start orc fuel :
  traces (Forall not_start) (emergencyShell orc fuel).
Proof.
  induction fuel as [|fuel IH]; [intros w; constructor|].
  cbn [emergencyShell]. repeat traces_walk; try exact IH.
  all: try intros rep; (constructor; [|constructor]); cbn [not_start];
       try exact I; done.
Qed.

Lemma recovery_not_start orc goesinstaller r :
  traces (Forall not_start) (recovery orc goesinstaller r).
Proof.
  unfold recovery, recovered, installer. repeat traces_walk.
  all: try intros n; try intros rep; (constructor; [|constructor]);
       cbn [not_start]; try exact I; done.
Qed.

Lemma boundary_not_start orc fuel goesinstaller r :
  traces (Forall not_start) (boundary orc fuel goesinstaller r).
Proof.
  unfold boundary. apply traces_deferred; [apply _| |intros r'].
  - apply recovery_not_start.
  - apply traces_bind; [apply _| |intros _; apply emergencyShell_not_start].
    destruct r'; [|apply traces_ret, _].
    apply traces_Println. by repeat constructor.
Qed.

(** An event of a kind that occurs once in a list is where it is seen. *)
Lemma pin_event (φ : event → Prop) A T X X' pre post :
  Forall φ A → Forall φ T → ¬ φ X → ¬ φ X' →
  A ++ X' :: T = pre ++ X :: post → pre = A ∧ X = X' ∧ post = T.
Proof.
  intros HA HT HX HX'. revert pre. induction A as [|a A IH]; intros pre Heq.
  - destruct pre as [|y pre]; cbn in Heq; injection Heq as -> Heq; [done|].
    exfalso. subst T. apply Forall_app in HT as [_ HT].
    by apply Forall_cons in HT as [? _].
  - apply Forall_cons in HA as [Ha HA].
    destruct pre as [|y pre]; cbn in Heq; injection Heq as -> Heq; [done|].
    destruct (IH HA pre Heq) as (-> & -> & ->). done.
Qed.

(** The boot sequence ends with the daemon start, or stops before it. *)
Lemma boot_start orc goesRoot w :
  (Forall not_start (events (boot orc goesRoot w)) ∧
   ∀ a, result (boot orc goesRoot w) ≠ Ret a) ∨
  (∃ t rep w1,
     Forall not_start t ∧
     boot orc goesRoot w =
       (match rep with
        | Done => Ret None
        | Fail e => Ret (Some e)
        | Crash v => Panic v
        | Never => Gone
        end, w1, t ++ [start_event rep])).
Proof.
  rewrite boot_run.
  destruct (o_collab orc (clock w) BoardHook w) as [[|e0|v0|] w0].
  2-4: by (left; split; [by repeat constructor | done]).
  rewrite finalize_approach, bind_run.
  pose proof (approach_not_start orc (root_of goesRoot) (script_of goesRoot)
                (after w w0)) as Hev.
  destruct (approach orc (root_of goesRoot) (script_of goesRoot) (after w w0))
    as [[[[]|v| |] wf] t]; unfold events in Hev; cbn [snd] in Hev.
  2-4: by (left; split;
           [apply Forall_app; split; [by repeat constructor | done] | done]).
  rewrite bind_run.
  pose proof (runSbinInit_not_start orc wf) as Hr.
  destruct (runSbinInit orc wf) as [[[[]|v| |] w1] t1];
    unfold events in Hr; cbn [snd] in Hr.
  2-4: by (left; split;
           [apply Forall_app; split; [by repeat constructor |];
            apply Forall_app; by split | done]).
  right. unfold goes_Main, collab.
  destruct (o_collab orc (clock w1) (GoesMain ["start"]) w1) as [rep w2].
  exists ([Ev BoardHook Done] ++ t ++ t1), rep, (after w1 w2). split.
  - apply Forall_app. split; [by repeat constructor|]. apply Forall_app. by split.
  - unfold extend, start_event. destruct rep; cbn [fst snd];
      by rewrite <- ?app_assoc.
Qed.

Lemma len_zero s : (len s =? 0) = true → s = "".
Proof.
  destruct s; [done|]. unfold len. cbn [String.length]. intros H.
  apply Z.eqb_eq in H. lia.
Qed.

Lemma Split_length s sep : (1 <= length (Split s sep))%nat.
Proof.
  induction s as [|c s IH]; cbn [Split]; [cbn; lia|].
  destruct (Ascii.eqb c sep); [cbn; lia|].
  destruct (Split s sep); cbn in *; lia.
Qed.

(** The recovery pathway when nothing panicked before. *)
Lemma recovery_quiet orc gi w :
  ∃ w1 t1 (u : outcome unit),
    recovery orc gi None w = (u, w1, t1) ∧
    if len gi =? 0 then u = Ret tt ∧ t1 = []
    else if len (kernel_url gi) =? 0 then
      u = Ret tt ∧
      t1 = [Ev (LogPrint ["err"; "installer"; ""; ":"; "KERNEL: missing"]) Done]
    else ∃ rep t1', t1 = Ev (NewRequest (kernel_url gi)) rep :: t1'.
Proof.
  unfold recovery, recovered. rewrite bind_run. unfold ret at 1.
  cbv beta iota. unfold extend. cbn [fst snd app].
  assert ((len gi =? 0) = negb (0 <? len gi)) as ->.
  { destruct (Z.eqb_spec (len gi) 0), (Z.ltb_spec 0 (len gi));
      unfold len in *; try done; lia. }
  destruct (0 <? len gi) eqn:Hgi; cbn [negb]; [|by eexists _, _, _].
  fold (kernel_url gi). unfold installer.
  assert ((Z.of_nat (length (Split gi ",")) <? 1) = false) as ->.
  { pose proof (Split_length gi ","%char). lia. }
  cbn [orb]. fold (kernel_url gi).
  destruct (len (kernel_url gi) =? 0) eqn:Hk.
  - apply len_zero in Hk. rewrite Hk. by eexists _, _, _.
  - rewrite bind_run.
    match goal with |- context [match ?m ?w0 with _ => _ end] =>
      destruct (bind_events_prefix m (λ x, ret x) w0) as [t' Ht'];
      assert (∃ rep t1', events (m w0) = Ev (NewRequest (kernel_url gi)) rep :: t1')
        as (rep & t1' & Hm)
    end.
    { rewrite bind_run. unfold grab_NewRequest. rewrite bind_run.
      unfold collab.
      destruct (o_collab orc _ (NewRequest (kernel_url gi)) _) as [[|e|v|] w1];
        cbv beta iota; unfold ret, extend, events; cbn [fst snd app].
      all: try by eexists _, _.
      all: match goal with |- context [match ?x with _ => _ end] =>
             destruct x as [[? ?] ?] end; by eexists _, _. }
    match goal with |- context [match ?m ?w0 with _ => _ end] =>
      destruct (m w0) as [[[a|v| |] w1] t1] end;
      unfold events in Hm; cbn [snd] in Hm; subst.
    + destruct a as [e|]; unfold log_Print, ret, extend; cbn [fst snd app];
        (eexists _, _, _; split; [reflexivity|]; by eexists _, _).
    + eexists _, _, _; split; [reflexivity|]; by eexists _, _.
    + eexists _, _, _; split; [reflexivity|]; by eexists _, _.
    + eexists _, _, _; split; [reflexivity|]; by eexists _, _.
Qed.

Lemma boundary_after_start orc fuel gi w tail :
  after_start gi (events (boundary orc (S fuel) gi None w) ++ tail).
Proof.
  unfold boundary, after_start. rewrite deferred_run.
  destruct (recovery_quiet orc gi w) as (w1 & t1 & u & -> & H).
  assert (∀ w2, ∃ rep post',
            events (((recovered None;; emergencyShell orc (S fuel));; ret tt) w2)
            = Ev (Println shell_banner) Done :: Ev (GoesMain ["cli"]) rep :: post')
    as Hshell.
  { intros w2.
    match goal with |- context [events ((?m ≫= ?f) w2)] =>
      destruct (bind_events_prefix m f w2) as [t' ->] end.
    rewrite bind_run. unfold recovered, ret at 1. cbv beta iota.
    rewrite events_extend. cbn [app].
    destruct (shell_enters orc fuel w2) as (rep & post' & ->). by eexists _, _. }
  destruct (len gi =? 0).
  { destruct H as [-> ->]. rewrite events_extend. cbn [app].
    destruct (Hshell w1) as (rep & post' & ->). by eexists _, _. }
  destruct (len (kernel_url gi) =? 0).
  { destruct H as [-> ->]. rewrite events_extend. cbn [app].
    destruct (Hshell w1) as (rep & post' & ->). by eexists. }
  destruct H as (rep & t1' & ->).
  destruct u as [[]|v| |]; rewrite ?events_extend; unfold events; cbn [snd app];
    by eexists _, _.
Qed.

(** When the boot sequence completes and [goes.Main("start")] returns, with
    or without an error, [Main] does not return: the deferred functions run
    as after a failure.  Without [goesinstaller] the next thing is the
    emergency shell; with it the installer is started on the kernel URL,
    or, when that URL is empty, its complaint is logged and the shell
    follows.  The error of the daemon start is neither printed nor
    returned. *)
Theorem start_return_enters_recovery (orc : oracle) (fuel : nat) (w : world)
  (pre post : list event) (rep : reply) :
  events (Main orc (S fuel) w) = pre ++ start_event rep :: post →
  is_return rep = true →
  after_start (Getenv "goesinstaller" w) post.
Proof.
  unfold Main. fold (boundary orc (S fuel) (Getenv "goesinstaller" w)).
  rewrite deferred_run.
  generalize (SplitList (Getenv "goesroot" w)) (Getenv "goesinstaller" w).
  intros goesRoot gi Heq Hret.
  assert (¬ not_start (start_event rep)) as HX by (by intros H).
  assert (∀ {A} (a : A) r w1,
            Forall not_start (events ((boundary orc (S fuel) gi r;; ret a) w1)))
    as Hb.
  { intros A a r w1.
    apply (traces_bind _ (boundary orc (S fuel) gi r) (λ _, ret a));
      [apply boundary_not_start | intros _; apply traces_ret, _]. }
  destruct (boot_start orc goesRoot w) as [[Hall Hnr]|(t & rep' & w1 & Hall & E)].
  - exfalso.
    destruct (boot orc goesRoot w) as [[[a|v| |] w1] t1];
      unfold events in Hall; cbn [snd] in Hall.
    + by destruct (Hnr a).
    + rewrite events_extend in Heq. apply HX.
      apply (Forall_In not_start (pre ++ start_event rep :: post));
        [|apply in_or_app; right; by left].
      rewrite <- Heq. apply Forall_app. split; [done | apply Hb].
    + unfold events in Heq. cbn [snd] in Heq. apply HX.
      apply (Forall_In not_start (pre ++ start_event rep :: post));
        [|apply in_or_app; right; by left].
      by rewrite <- Heq.
    + unfold events in Heq. cbn [snd] in Heq. apply HX.
      apply (Forall_In not_start (pre ++ start_event rep :: post));
        [|apply in_or_app; right; by left].
      by rewrite <- Heq.
  - rewrite E in Heq.
    assert (∀ T, Forall not_start T →
                 (t ++ [start_event rep']) ++ T = pre ++ start_event rep :: post →
                 rep = rep' ∧ post = T) as Hpin.
    { intros T HT H. rewrite <- app_assoc in H. cbn [app] in H.
      destruct (pin_event not_start t T (start_event rep) (start_event rep')
                  pre post Hall HT HX) as (_ & HXX & ->); [by intros ?|done|].
      by injection HXX as ->. }
    destruct rep' as [|e|v|]; cbv beta iota in Heq.
    + rewrite events_extend in Heq.
      apply Hpin in Heq as [_ ->]; [|apply Hb].
      match goal with |- context [events ((?m ≫= ?f) w1)] =>
        destruct (bind_events_prefix m f w1) as [t' ->] end.
      apply boundary_after_start.
    + rewrite events_extend in Heq.
      apply Hpin in Heq as [_ ->]; [|apply Hb].
      match goal with |- context [events ((?m ≫= ?f) w1)] =>
        destruct (bind_events_prefix m f w1) as [t' ->] end.
      apply boundary_after_start.
    + rewrite events_extend in Heq.
      apply Hpin in Heq as [-> _]; [done | apply Hb].
    + unfold events in Heq. cbn [snd] in Heq.
      rewrite <- (app_nil_r (t ++ _)) in Heq.
      apply Hpin in Heq as [-> _]; [done | constructor].
Qed.

(** ** No root, no pivot *)

Lemma colon_root_is_empty g :
  g = "" ∨ String.prefix ":" g = true → root_of (SplitList g) = "".
Proof.
  intros [->|H]; [done|].
  destruct g as [|c g]; [done|]. cbn [String.prefix] in H.
  destruct (Ascii.ascii_dec ":" c) as [<-|]; [|done].
  unfold SplitList, ListSeparator. cbn [Split].
  change (Ascii.eqb ":" ":") with true. cbv iota.
  unfold root_of. cbn [nth]. change (0 <? len "") with false.
  by rewrite andb_false_r.
Qed.

Lemma boot_no_pivot orc goesRoot :
  root_of goesRoot = "" →
  traces (Forall (λ ev, pivot_event ev = false)) (boot orc goesRoot).
Proof.
  intros Hroot. unfold boot. rewrite Hroot.
  change (0 <? len "") with false. cbv iota.
  unfold Hook, makeTargetDirs, makeTargetLinks, mountTargetVirtualFilesystems,
    runSbinInit.
  repeat traces_walk.
  all: try intros rep; (constructor; [|constructor]); cbn [pivot_event];
       try reflexivity.
  all: table_cases; by vm_compute.
Qed.

Lemma boundary_no_pivot orc fuel goesinstaller r :
  traces (Forall (λ ev, pivot_event ev = false))
         (boundary orc fuel goesinstaller r).
Proof.
  assert (∀ fuel, traces (Forall (λ ev, pivot_event ev = false))
                         (emergencyShell orc fuel)) as Hshell.
  { clear fuel. intros fuel. induction fuel as [|fuel IH]; [intros w; constructor|].
    cbn [emergencyShell]. repeat traces_walk; try exact IH.
    all: try intros rep; (constructor; [|constructor]); reflexivity. }
  unfold boundary. apply traces_deferred; [apply _| |intros r'].
  - unfold recovery, recovered, installer. repeat traces_walk.
    all: try intros n; try intros rep; (constructor; [|constructor]);
         reflexivity.
  - apply traces_bind; [apply _| |intros _; apply Hshell].
    destruct r'; [|apply traces_ret, _].
    apply traces_Println. by repeat constructor.
Qed.

(** Without a root in [goesroot] there is no pivot: when the variable is
    unset or empty, or begins with the list separator so that only a script
    is named, [Main] mounts no root, runs no boot script, populates and
    moves nothing, removes nothing from the ramdisk and does not change the
    root; the script is ignored. *)
Theorem no_root_no_pivot (orc : oracle) (fuel : nat) (w : world) :
  Getenv "goesroot" w = "" ∨ String.prefix ":" (Getenv "goesroot" w) = true →
  Forall (λ ev, pivot_event ev = false) (events (Main orc fuel w)).
Proof.
  intros H. apply colon_root_is_empty in H.
  unfold Main. fold (boundary orc fuel (Getenv "goesinstaller" w)).
  apply (traces_deferred _ None (boundary orc fuel (Getenv "goesinstaller" w))
           (boot orc (SplitList (Getenv "goesroot" w)))).
  - by apply boot_no_pivot.
  - intros r. apply boundary_no_pivot.
Qed.

(** ** The environment of "/sbin/init" *)

Lemma default_insert (k k' v : string) (m : gmap string string) :
  default "" (<[k:=v]> m !! k') =
  if String.eqb k k' then v else default "" (m !! k').
Proof.
  rewrite lookup_insert. destruct (String.eqb_spec k k') as [->|Hne].
  - by rewrite decide_True.
  - by rewrite decide_False.
Qed.

Ltac eval_eqb :=
  repeat match goal with
    | |- context [String.eqb ?a ?b] =>
        let r := eval vm_compute in (String.eqb a b) in
        change (String.eqb a b) with r
    | H : context [String.eqb ?a ?b] |- _ =>
        let r := eval vm_compute in (String.eqb a b) in
        change (String.eqb a b) with r in H
    end.

(** [runSbinInit] executes "/sbin/init" under its own name, from "/root",
    with an environment of exactly four variables: PATH, SHELL and HOME
    are the values the function has just set, whatever was inherited, and
    TERM is the inherited value, or "linux" when there was none. *)
Theorem init_gets_fixed_environment (orc : oracle) (w : world)
  (argv0 : string) (argv envv : list string) (rep : reply) :
  In (Ev (Exec argv0 argv envv) rep) (events (runSbinInit orc w)) →
  argv0 = sbininit ∧ argv = [sbininit] ∧ envv = init_environment w ∧
  In (Ev (Chdir "/root") Done) (events (runSbinInit orc w)).
Proof.
  unfold runSbinInit, init_environment. unfold_calls. unfold Getenv.
  split_answers.
  all: cbn [fst snd app]; intros H; in_list H; simplify_eq.
  all: split; [done|]; split; [done|]; (split; [|find_in]).
  all: cbn [env].
  all: repeat match goal with
         | H : context [<[_:=_]> _ !! _] |- _ => rewrite !default_insert in H
         end;
       rewrite ?default_insert; eval_eqb; cbv iota in *.
  all: first [reflexivity | congruence].
Qed.

(** ** Cleanup of the old root *)

Lemma forM_cons {A} (x : A) rest (body : A → M unit) w :
  forM_ (x :: rest) body w = (body x ≫= λ _, forM_ rest body) w.
Proof. reflexivity. Qed.

Lemma forM_sys_run {A} orc (table : list A) (c : A → call)
  (sem : A → world → option error * world) w :
  ∃ reps w1,
    length reps = length table ∧
    forM_ table (λ x, sys orc (c x) (sem x);; ret tt) w =
      (Ret tt, w1, zip_with (λ x rep, Ev (c x) rep) table reps).
Proof.
  revert w. induction table as [|x rest IH]; intros w.
  { by exists [], w. }
  rewrite forM_cons, bind_run, bind_run.
  destruct (sys_run orc (c x) (sem x) w) as (err & w1 & -> & _).
  unfold ret at 1, extend at 1. cbn [fst snd app].
  destruct (IH (tick w1)) as (reps & w2 & Hlen & ->).
  exists (reply_of err :: reps), w2. split; [cbn; by rewrite Hlen | done].
Qed.

Lemma cleanup_run orc w :
  ∃ ureps rreps w1,
    length ureps = length oldRootFiles ∧ length rreps = length oldRootDirs ∧
    cleanup orc w = (Ret tt, w1, cleanup_calls ureps rreps).
Proof.
  unfold cleanup, unlinkRootFiles, rmdirRootDirs, syscall_Unlink, syscall_Rmdir.
  rewrite bind_run.
  destruct (forM_sys_run orc oldRootFiles Unlink
              (λ name w, match fs w !! name with
                         | None => (Some ENOENT, w)
                         | Some (Dir _) => (Some (Errno "is a directory"), w)
                         | Some _ => (None, set_fs (delete name (fs w)) w)
                         end) w) as (ureps & w1 & Hu & ->).
  destruct (forM_sys_run orc oldRootDirs Rmdir
              (λ name w, match fs w !! name with
                         | None => (Some ENOENT, w)
                         | Some (Dir _) =>
                             if has_child name (fs w)
                             then (Some (Errno "directory not empty"), w)
                             else (None, set_fs (delete name (fs w)) w)
                         | Some _ => (Some (Errno "not a directory"), w)
                         end) w1) as (rreps & w2 & Hr & ->).
  by exists ureps, rreps, w2.
Qed.

Lemma switch_begins orc mp w :
  ∃ ureps rreps rep post',
    length ureps = length oldRootFiles ∧ length rreps = length oldRootDirs ∧
    events (switch orc mp w) =
      cleanup_calls ureps rreps ++ Ev (bind_move mp) rep :: post'.
Proof.
  destruct (cleanup_run orc w) as (ureps & rreps & w1 & Hu & Hr & Ec).
  assert (switch orc mp w =
          extend (cleanup_calls ureps rreps)
            ((must (syscall_Mount orc mp "/" "" MS_MOVE "")
                (λ e, "mount " +:+ mp +:+ " /: " +:+ Error e);;
              must (syscall_Chroot orc ".")
                (λ e, "chroot .:" +:+ Error e)) w1)) as ->.
  { rewrite <- (bind_Ret (cleanup orc) (λ _, _) _ _ _ _ Ec).
    unfold switch, cleanup. symmetry.
    apply (bind_assoc (unlinkRootFiles orc) (λ _, rmdirRootDirs orc)). }
  rewrite events_extend.
  match goal with |- context [events ((?m ≫= ?f) w1)] =>
    destruct (bind_events_prefix m f w1) as [t' ->] end.
  unfold must, syscall_Mount. rewrite bind_run.
  destruct (kernel_run orc (bind_move mp) w1) as (err & w2 & Em).
  fold (bind_move mp). rewrite Em.
  exists ureps, rreps, (reply_of err). cbv beta iota.
  destruct err; unfold panic, ret, extend, events; cbn [fst snd app];
    by eexists.
Qed.

Lemma ends_chdir_bind {A} mp (m : M A) (f : A → M unit) w :
  traces (Forall not_chdir) m →
  (∀ a w1, ends_chdir mp (f a w1)) →
  ends_chdir mp ((m ≫= f) w).
Proof.
  intros Hm Hf. rewrite bind_run. specialize (Hm w).
  destruct (m w) as [[[a|v| |] w1] t1]; unfold events in Hm; cbn [snd] in Hm.
  2-4: by (exists t1; split; [done|]; left).
  destruct (Hf a w1) as (t & Ht & [[E Hnr]|(err & E & Hok & Hko)]).
  - exists (t1 ++ t). split; [apply Forall_app; by split|]. left.
    rewrite events_extend, result_extend, E. done.
  - exists (t1 ++ t). split; [apply Forall_app; by split|]. right.
    exists err. rewrite events_extend, result_extend, E, app_assoc. done.
Qed.

Lemma stage_ends_chdir orc mp root script w :
  ends_chdir mp (stage orc mp root script w).
Proof.
  assert (∀ w1, ends_chdir mp
            (must (os_Chdir orc mp)
               (λ e, "chdir " +:+ mp +:+ ": " +:+ Error e) w1)) as Hlast.
  { intros w1. exists []. split; [constructor|]. right.
    unfold must, os_Chdir. rewrite bind_run.
    match goal with |- context [sys orc ?c ?sem w1] =>
      destruct (sys_run orc c sem w1) as (err & w2 & -> & _) end.
    exists err. destruct err; by cbn. }
  unfold stage.
  repeat first [apply Hlast | apply ends_chdir_bind; [|intros ? ?]].
  all: traces_auto.
  all: intros rep; (constructor; [|constructor]); exact I.
Qed.

(** Failures of the cleanup are not fatal.  Once [pivotRoot] has changed
    into the staging path, it issues the three unlinks and the seven rmdirs
    of its tables, in order and whatever each of them returns, and then
    attempts the bind-move onto "/". *)
Theorem cleanup_errors_are_ignored (orc : oracle)
  (mountPoint root script : string) (w : world) (pre post : list event) :
  events (pivotRoot orc mountPoint root script w)
    = pre ++ Ev (Chdir mountPoint) Done :: post →
  ∃ ureps rreps rep post',
    length ureps = length oldRootFiles ∧ length rreps = length oldRootDirs ∧
    post = cleanup_calls ureps rreps ++ Ev (bind_move mountPoint) rep :: post'.
Proof.
  intros Heq. rewrite pivotRoot_stages, bind_run in Heq.
  destruct (stage_ends_chdir orc mountPoint root script w)
    as (t & Ht & [[E Hnr]|(err & E & Hok & Hko)]).
  - exfalso.
    destruct (stage orc mountPoint root script w) as [[[[]|v| |] w1] t1];
      unfold events in E, Heq; cbn [snd] in E, Heq;
      try (by destruct (Hnr tt)).
    all: rewrite E in Heq; rewrite Heq in Ht; apply Forall_app in Ht as [_ Ht];
         by apply Forall_cons in Ht as [? _].
  - assert (¬ not_chdir (Ev (Chdir mountPoint) Done)) as HX by (by intros ?).
    assert (¬ not_chdir (Ev (Chdir mountPoint) (reply_of err))) as HX'
      by (by intros ?).
    destruct (stage orc mountPoint root script w) as [[r w1] t1].
    unfold events, result in E, Hok, Hko, Heq. cbn [fst snd] in *. subst t1.
    destruct err as [e|].
    + exfalso. specialize (Hko e eq_refl).
      assert (pre ++ Ev (Chdir mountPoint) Done :: post
              = t ++ Ev (Chdir mountPoint) (Fail e) :: []) as Heq'.
      { destruct r as [[]|v| |]; [by destruct (Hko tt)|by rewrite <- Heq..]. }
      symmetry in Heq'.
      by destruct (pin_event not_chdir t [] _ _ pre post Ht
                     (List.Forall_nil _) HX HX' Heq') as (_ & ? & _).
    + rewrite (Hok eq_refl) in Heq. cbn [reply_of] in *.
      destruct (switch_begins orc mountPoint w1)
        as (ureps & rreps & rep & post' & Hu & Hr & Es).
      assert (Forall not_chdir (events (switch orc mountPoint w1))) as Hs.
      { generalize w1. change (traces (Forall not_chdir) (switch orc mountPoint)).
        unfold switch. traces_auto.
        all: intros ?; (constructor; [|constructor]); exact I. }
      destruct (switch orc mountPoint w1) as [[rs ws] ts].
      unfold events, extend in Es, Hs, Heq. cbn [fst snd] in Es, Hs, Heq.
      rewrite <- app_assoc in Heq. cbn [app] in Heq.
      exists ureps, rreps, rep, post'. split; [done|]. split; [done|].
      rewrite <- Es.
      by destruct (pin_event not_chdir t ts _ _ pre post Ht Hs HX HX' Heq)
        as (_ & _ & ->).
Qed.

(** ** What the installer fetches *)

(** Whenever the installer fetches with [url.FetchReqs] it does so with
    zero workers, the kernel URL is not empty, and it asks for the kernel
    under the name "kernel", then for the second URL as "initramfs" and the
    third as "fdt", each only when it is present and not empty; an empty
    second URL does not stop the third, and URLs after the third are
    ignored. *)
Theorem installer_fetches_named_files (orc : oracle) (params : list string)
  (w : world) (workers n : Z) (reqs : list request) (rep : reply) :
  In (Ev (FetchReqs workers reqs n) rep) (events (installer orc params w)) →
  workers = 0 ∧ nth 0 params "" ≠ "" ∧ reqs = wanted params.
Proof.
  unfold installer, wanted.
  assert (∀ s, (0 <? len s) = negb (len s =? 0)) as Hlen.
  { intros s. unfold len.
    destruct (Z.ltb_spec 0 (Z.of_nat (String.length s))),
             (Z.eqb_spec (Z.of_nat (String.length s)) 0); try done; lia. }
  rewrite !Hlen.
  destruct params as [|p0 [|p1 [|p2 rest]]]; cbn [nth length].
  all: change (len "" =? 0) with true; cbn [negb andb orb].
  all: try (cbn; by intros []).
  all: repeat match goal with
         | |- context [Z.of_nat (S ?n)] => rewrite (Nat2Z.inj_succ n)
         end; change (Z.of_nat 0) with 0.
  all: repeat match goal with
         | |- context [?a <? ?b] =>
             destruct (Z.ltb_spec a b); try (exfalso; lia)
         | |- context [?a <=? ?b] =>
             destruct (Z.leb_spec a b); try (exfalso; lia)
         end; cbn [negb andb orb].
  all: unfold_calls.
  all: destruct (len p0 =? 0) eqn:Hk; [by intros []|].
  all: assert (p0 ≠ "") as Hp0 by (by intros ->).
  all: split_answers.
  all: cbn [fst snd app]; intros Hin; in_list Hin; simplify_eq.
  all: done.
Qed.

(** ** The recovery pathway inside [Main] *)

Lemma installer_nospin orc params : nospin (installer orc params).
Proof. unfold installer. repeat nospin_step. Qed.

(** The installer on its own: when it hands off, when it prints, and why
    it does not hand off. *)
Lemma installer_cases orc params w :
  ((∃ rep, In (Ev (GoesMain kexec_args) rep) (events (installer orc params w)))
   ↔ (∃ reqs n, In (Ev (FetchReqs 0 reqs n) Done)
                   (events (installer orc params w)))) ∧
  ((∃ rep, In (Ev (Printf loaded_message) rep) (events (installer orc params w)))
   ↔ (∃ reqs, In (Ev (FetchReqs 0 reqs (Z.of_nat (length reqs))) Done)
                 (events (installer orc params w)))) ∧
  ((∀ rep, ¬ In (Ev (GoesMain kexec_args) rep) (events (installer orc params w)))
   → (nth 0 params "" = "" ∧ events (installer orc params w) = [] ∧
      result (installer orc params w) = Ret (Some (Errno "KERNEL: missing")))
     ∨ (∃ url rep,
          In (Ev (NewRequest url) rep) (events (installer orc params w)) ∧
          rep ≠ Done ∧ result (installer orc params w) = answered rep)
     ∨ (∃ reqs n rep,
          In (Ev (FetchReqs 0 reqs n) rep) (events (installer orc params w)) ∧
          rep ≠ Done ∧ result (installer orc params w) = answered rep)).
Proof.
  unfold installer, loaded_message.
  destruct ((Z.of_nat (length params) <? 1) || (len (nth 0 params "") =? 0))
    eqn:Hk.
  { cbn. split; [|split].
    - split; [intros [? []] | intros (? & ? & [])].
    - split; [intros [? []] | intros (? & [])].
    - intros _. left. split; [|done].
      apply orb_true_iff in Hk as [Hk|Hk]; [|by apply len_zero].
      destruct params; [done|]. cbn [length] in Hk.
      apply Z.ltb_lt in Hk. lia. }
  unfold_calls. split_answers.
  all: repeat match goal with
         | E : (_ =? _) = true |- _ => apply Z.eqb_eq in E; subst
         | E : (_ =? _) = false |- _ => apply Z.eqb_neq in E
         end.
  all: cbn [fst snd app]; split; [|split].
  all: try (split; [intros [rep H] | intros [reqs [n H]]]).
  all: try (split; [intros [rep H] | intros [reqs H]]).
  all: try (in_list H; simplify_eq).
  all: try (eexists; find_in; fail).
  all: try (do 2 eexists; find_in; fail).
  all: try done.
  all: intros Hno.
  all: try (exfalso; eapply Hno; find_in; fail).
  all: try (right; right; eexists _, _, _; split; [find_in|]; (by split); fail).
  all: right; left.
  all: first
    [ eexists _, _; split; [cbn [In]; left; reflexivity|]; (by split)
    | eexists _, _; split; [cbn [In]; right; left; reflexivity|]; (by split)
    | eexists _, _; split; [cbn [In]; right; right; left; reflexivity|];
      (by split) ].
Qed.

Lemma recovery_run orc gi r w :
  0 < len gi →
  recovery orc gi r w =
  extend (events (recovered r w))
    (let '(x, w1, t1) :=
       installer orc (Split gi ",") (final (recovered r w)) in
     match x with
     | Ret (Some e) =>
         (Ret tt, tick w1, t1 ++ installer_report (Split gi ",") x)
     | Ret None => (Ret tt, w1, t1)
     | Panic v => (Panic v, w1, t1)
     | Gone => (Gone, w1, t1)
     | Spin => (Spin, w1, t1)
     end).
Proof.
  intros Hgi. apply Z.ltb_lt in Hgi. unfold recovery. rewrite Hgi.
  rewrite bind_run.
  assert (recovered r w = (Ret tt, final (recovered r w), events (recovered r w)))
    as ->.
  { by destruct r. }
  cbv beta iota zeta. unfold final at 1 3. cbn [fst snd].
  rewrite bind_run.
  destruct (installer orc _ _) as [[[[e|]|v| |] w1] t1];
    unfold extend, log_Print, ret, events; cbn [fst snd installer_report];
    by rewrite ?app_nil_r.
Qed.

(** The emergency shell after the installer: what the inner deferred
    function logs when the recovery pathway ended with [x]. *)
Lemma shell_follows orc fuel r' w :
  ∃ rep post,
    events ((recovered r';; emergencyShell orc (S fuel)) w) =
    match r' with Some v => [Ev (Println v) Done] | None => [] end
    ++ Ev (Println shell_banner) Done :: Ev (GoesMain ["cli"]) rep :: post.
Proof.
  rewrite bind_run. destruct r' as [v'|]; unfold recovered.
  - unfold fmt_Println at 1. cbv beta iota. rewrite events_extend.
    destruct (shell_enters orc fuel (tick w)) as (rep & post & ->).
    by eexists _, _.
  - unfold ret at 1. cbv beta iota. rewrite events_extend.
    destruct (shell_enters orc fuel w) as (rep & post & ->).
    by exists rep, post.
Qed.

(** The recovery boundary with a descriptor: the panic value of the boot
    sequence, the installer, its report, the emergency shell; or nothing
    after the installer when a collaborator replaced the process. *)
Lemma boundary_run orc fuel gi r w :
  0 < len gi →
  let x := installer orc (Split gi ",") (final (recovered r w)) in
  match result x with
  | Gone =>
      events (boundary orc (S fuel) gi r w)
        = events (recovered r w) ++ events x ∧
      result (boundary orc (S fuel) gi r w) = Gone
  | Spin => False
  | _ =>
      ∃ rep post,
        events (boundary orc (S fuel) gi r w)
          = events (recovered r w) ++ events x
            ++ installer_report (Split gi ",") (result x)
            ++ Ev (Println shell_banner) Done
               :: Ev (GoesMain ["cli"]) rep :: post
  end.
Proof.
  intros Hgi x. unfold boundary. rewrite deferred_run, (recovery_run _ _ _ _ Hgi).
  pose proof (installer_nospin orc (Split gi ",") (final (recovered r w))) as Hns.
  fold x in Hns |- *.
  destruct x as [[[[e|]|v| |] w1] t1]; unfold result in *; cbn [fst snd] in *;
    try done.
  - unfold extend at 1. cbn [fst snd]. rewrite events_extend.
    match goal with |- context [events ((?m ≫= ?f) ?w0)] =>
      destruct (bind_events_prefix m f w0) as [t' ->] end.
    destruct (shell_follows orc fuel None (tick w1)) as (rep & post & ->).
    exists rep, (post ++ t'). cbn [app]. unfold events at 3. cbn [snd].
    by rewrite <- !app_assoc.
  - unfold extend at 1. cbn [fst snd]. rewrite events_extend.
    match goal with |- context [events ((?m ≫= ?f) ?w0)] =>
      destruct (bind_events_prefix m f w0) as [t' ->] end.
    destruct (shell_follows orc fuel None w1) as (rep & post & ->).
    exists rep, (post ++ t'). cbn [app installer_report].
    unfold events at 3. cbn [snd]. by rewrite <- !app_assoc.
  - unfold extend at 1. cbn [fst snd]. rewrite events_extend.
    match goal with |- context [events ((?m ≫= ?f) ?w0)] =>
      destruct (bind_events_prefix m f w0) as [t' ->] end.
    destruct (shell_follows orc fuel (Some v) w1) as (rep & post & ->).
    exists rep, (post ++ t'). cbn [app installer_report].
    unfold events at 3. cbn [snd]. by rewrite <- !app_assoc.
Qed.

Lemma then_ret_run {A B} (m : M A) (b : B) w :
  events ((m ≫= λ _, ret b) w) = events (m w) ∧
  (result (m w) = Gone → result ((m ≫= λ _, ret b) w) = Gone).
Proof.
  rewrite bind_run. destruct (m w) as [[[a|v| |] w1] t1]; try done.
  unfold ret, events, result. cbn [fst snd]. split; [apply app_nil_r|done].
Qed.

(** C1, amended.  For every configured descriptor, once the boot sequence
    has returned or panicked, the installer attempts the kexec hand-off
    exactly when [url.FetchReqs] returned without an error, whatever
    success count it reported; the count only decides whether the success
    message is printed.  The hand-off is skipped only when the kernel URL
    is missing, or when [grab.NewRequest] or [url.FetchReqs] did not return
    nil: it returned an error, panicked, or replaced the process, and the
    installer ends accordingly.  Unless a collaborator replaced the
    process, [Main] then falls through to the emergency shell: after the
    events of the installer it logs the returned error or prints the panic
    value, and the next events are the banner and the shell.  When a
    collaborator replaced the process nothing runs after the installer. *)
Theorem installer_hands_off_iff_fetch_returns (orc : oracle) (fuel : nat)
  (w : world) :
  let gi := Getenv "goesinstaller" w in
  let params := Split gi "," in
  let body := boot orc (SplitList (Getenv "goesroot" w)) w in
  let r := panic_value (result body) in
  let x := installer orc params (final (recovered r (final body))) in
  0 < len gi →
  ended (result body) →
  ((∃ rep, In (Ev (GoesMain kexec_args) rep) (events x))
   ↔ (∃ reqs n, In (Ev (FetchReqs 0 reqs n) Done) (events x))) ∧
  ((∃ rep, In (Ev (Printf loaded_message) rep) (events x))
   ↔ (∃ reqs, In (Ev (FetchReqs 0 reqs (Z.of_nat (length reqs))) Done)
                 (events x))) ∧
  ((∀ rep, ¬ In (Ev (GoesMain kexec_args) rep) (events x))
   → (nth 0 params "" = "" ∧ events x = [] ∧
      result x = Ret (Some (Errno "KERNEL: missing")))
     ∨ (∃ url rep,
          In (Ev (NewRequest url) rep) (events x) ∧
          rep ≠ Done ∧ result x = answered rep)
     ∨ (∃ reqs n rep,
          In (Ev (FetchReqs 0 reqs n) rep) (events x) ∧
          rep ≠ Done ∧ result x = answered rep)) ∧
  match result x with
  | Gone =>
      events (Main orc (S fuel) w)
        = events body ++ events (recovered r (final body)) ++ events x ∧
      result (Main orc (S fuel) w) = Gone
  | Spin => False
  | _ =>
      ∃ rep post,
        events (Main orc (S fuel) w)
          = events body ++ events (recovered r (final body)) ++ events x
            ++ installer_report params (result x)
            ++ Ev (Println shell_banner) Done
               :: Ev (GoesMain ["cli"]) rep :: post
  end.
Proof.
  intros gi params body r x Hgi Hend.
  destruct (installer_cases orc params (final (recovered r (final body))))
    as (HA & HB & HC).
  fold x in HA, HB, HC. split; [done|]. split; [done|]. split; [done|].
  pose proof (boundary_run orc fuel gi r (final body) Hgi) as Hb.
  cbv zeta in Hb. fold params in Hb. fold x in Hb.
  assert (events (Main orc (S fuel) w)
          = events body ++ events (boundary orc (S fuel) gi r (final body)) ∧
          (result (boundary orc (S fuel) gi r (final body)) = Gone →
           result (Main orc (S fuel) w) = Gone)) as [HM HG].
  { unfold Main. fold (boundary orc (S fuel) (Getenv "goesinstaller" w)).
    fold gi. rewrite deferred_run. fold body. clear HA HB HC Hb. subst x r.
    destruct body as [[[a|v| |] wb] tb]; try done;
      rewrite events_extend, result_extend.
      destruct (then_ret_run (boundary orc (S fuel) gi None) a wb) as [-> HG].
      done.
    - destruct (then_ret_run (boundary orc (S fuel) gi (Some v))
                  (None : option error) wb) as [-> HG].
      done. }
  rewrite HM.
  destruct (result x) as [[e|]|v| |]; try done.
  - destruct Hb as (rep & post & ->). by exists rep, post.
  - destruct Hb as (rep & post & ->). by exists rep, post.
  - destruct Hb as (rep & post & ->). by exists rep, post.
  - destruct Hb as [-> Hb]. split; [done|]. by apply HG.
Qed.

(** * Properties of the mount command *)

Lemma run_bind_run {E A B} (m : Run E A) (f : A → Run E B) n :
  (m ≫= f) n =
  match m n with
  | (Val a, n1, t1) =>
      let '(r, n2, t2) := f a n1 in (r, n2, t1 ++ t2)
  | (Throw v, n1, t1) => (Throw v, n1, t1)
  | (Block, n1, t1) => (Block, n1, t1)
  | (Loop, n1, t1) => (Loop, n1, t1)
  end.
Proof. reflexivity. Qed.

Lemma run_ret_run {E A} (a : A) n : run_ret (E:=E) a n = (Val a, n, []).
Proof. reflexivity. Qed.

Lemma last_cons_default {A} (l : list A) (x d : A) :
  List.last (x :: l) d = List.last l x.
Proof.
  revert x d. induction l as [|y l IH]; intros x d; [done|].
  change (List.last (x :: y :: l) d) with (List.last (y :: l) d).
  by rewrite !IH.
Qed.

(** The loop over the types: all failed, or the first success ends it. *)
Lemma try_types_run kernel dev dir flags data types err0 n :
  (∃ es,
     length es = length types ∧
     mount.try_types kernel dev dir flags data types err0 n =
       (Val (inr (List.last (map Some es) err0)), (n + length types)%nat,
        mount.attempts dev dir flags data types (map Some es)))
  ∨ (∃ tys ty rest es,
       types = tys ++ ty :: rest ∧ length es = length tys ∧
       mount.try_types kernel dev dir flags data types err0 n =
         (Val (inl ty), (n + S (length tys))%nat,
          mount.attempts dev dir flags data tys (map Some es)
          ++ [mount.Ev (mount.Mount dev dir ty flags data) None])).
Proof.
  revert err0 n. induction types as [|t rest IH]; intros err0 n.
  { left. exists []. split; [done|]. cbn. by rewrite Nat.add_0_r. }
  assert (mount.try_types kernel dev dir flags data (t :: rest) err0 n =
          match kernel n (mount.Mount dev dir t flags data) with
          | None =>
              (Val (inl t), S n,
               [mount.Ev (mount.Mount dev dir t flags data) None])
          | Some e =>
              let '(r, n2, t2) :=
                mount.try_types kernel dev dir flags data rest (Some e) (S n) in
              (r, n2, mount.Ev (mount.Mount dev dir t flags data) (Some e) :: t2)
          end) as ->.
  { cbn [mount.try_types]. rewrite run_bind_run.
    unfold mount.syscall_Mount at 1. cbv zeta.
    by destruct (kernel n (mount.Mount dev dir t flags data)). }
  destruct (kernel n (mount.Mount dev dir t flags data)) as [e|].
  - destruct (IH (Some e) (S n))
      as [(es & Hlen & ->)|(tys & ty & rest' & es & -> & Hlen & ->)].
    + left. exists (e :: es). split; [cbn; by rewrite Hlen|].
      cbn [length map mount.attempts zip_with app].
      replace (n + S (length rest))%nat with (S n + length rest)%nat by lia.
      by rewrite last_cons_default.
    + right. exists (t :: tys), ty, rest', (e :: es).
      split; [done|]. split; [cbn; by rewrite Hlen|].
      cbn [length map mount.attempts zip_with app].
      replace (n + S (S (length tys)))%nat with (S n + S (length tys))%nat by lia.
      done.
  - right. exists [], t, rest, []. split; [done|]. split; [done|].
    cbn. by rewrite Nat.add_1_r.
Qed.

(** [mountone] tries the file-system types in order and stops at the
    first that mounts.  With the type "auto", which is also what an empty
    type becomes under [-defaults], the types are those of the automatic
    list of "/proc/filesystems"; otherwise the named type is the only one.
    Every attempt mounts the same device on the same directory with the
    same flag word and the value of [-o].  When one attempt succeeds the
    result names its type and has no error; when all fail the result has
    the error of the last one and the type asked for.  When the automatic
    list is empty nothing is mounted and the result has no error. *)
Theorem mountone_tries_types_in_order (kernel : nat → mount.call → option error)
  (fsys : mount.filesystems) (t dev dir : string) (flag : mount.Flag)
  (parm : mount.Parm) (n : nat) :
  mount.on flag "--fake" = false →
  let t' := if mount.on flag "-defaults" && String.eqb t "" then "auto" else t in
  let types := if String.eqb t' "auto" then mount.autoList fsys else [t'] in
  let mounts := mount.attempts dev dir (mount.mount_flags flag)
                  (mount.get parm "-o") in
  let x := mount.mountone kernel (Some fsys) t dev dir flag parm n in
  (∃ es,
     length es = length types ∧
     run_events x = mounts types (map Some es) ∧
     run_result x =
       Val (mount.Result (List.last (map Some es) None) dev t' dir flag))
  ∨ (∃ tys ty rest es,
       types = tys ++ ty :: rest ∧ length es = length tys ∧
       run_events x =
         mounts tys (map Some es)
         ++ [mount.Ev (mount.Mount dev dir ty (mount.mount_flags flag)
                         (mount.get parm "-o")) None] ∧
       run_result x = Val (mount.Result None dev ty dir flag)).
Proof.
  intros Hfake t' types mounts x. subst x. unfold mount.mountone.
  fold t'. rewrite Hfake.
  assert (∃ nodev,
    (if String.eqb t' "auto"
     then f ← mount.deref (Some fsys); run_ret (mount.autoList f, false)
     else f ← mount.deref (Some fsys);
          run_ret ([t'], default false (mount.isNoDev f !! t'))) n
    = (Val (types, nodev), n, [])) as [nodev E].
  { subst types. destruct (String.eqb t' "auto"); by eexists. }
  rewrite run_bind_run, E. cbv beta iota.
  assert ((if negb nodev then (mount.readSuperBlock dev).2 else None) = None)
    as -> by (by destruct nodev).
  rewrite run_bind_run.
  destruct (try_types_run kernel dev dir (mount.mount_flags flag)
              (mount.get parm "-o") types None n)
    as [(es & Hlen & ->)|(tys & ty & rest & es & Hty & Hlen & ->)].
  - left. exists es. split; [done|].
    unfold run_ret, run_events, run_result. cbn [fst snd app].
    by rewrite app_nil_r.
  - right. exists tys, ty, rest, es. split; [done|]. split; [done|].
    unfold run_ret, run_events, run_result. cbn [fst snd app].
    by rewrite app_nil_r.
Qed.

(** ** The flag word *)

(** One bit of the flag word after a run through a translation table. *)
Lemma translate_testbit (flag : mount.Flag) (table : list (string * Z * bool))
  (flags : Z) (i : Z) :
  0 ≤ i →
  Z.testbit
    (fold_left (fun flags '(name, bits, set) =>
                  if mount.on flag name then
                    if set : bool then Z.lor flags bits else Z.ldiff flags bits
                  else flags) table flags) i =
  fold_left (fun b '(name, bits, set) =>
               if mount.on flag name && Z.testbit bits i then set else b)
            table (Z.testbit flags i).
Proof.
  intros Hi. revert flags. induction table as [|[[name bits] set] table IH];
    intros flags; [done|].
  cbn [fold_left]. rewrite IH. f_equal.
  destruct (mount.on flag name); [|done]. cbn [andb].
  destruct set.
  - rewrite Z.lor_spec. by destruct (Z.testbit bits i), (Z.testbit flags i).
  - rewrite Z.ldiff_spec. by destruct (Z.testbit bits i), (Z.testbit flags i).
Qed.

Ltac eval_testbit :=
  repeat match goal with
    | |- context [Z.testbit ?a ?i] =>
        lazymatch a with
        | context [mount.on] => fail
        | _ => let r := eval vm_compute in (Z.testbit a i) in
               change (Z.testbit a i) with r
        end
    end.

Lemma mount_flags_bits (flag : mount.Flag) :
  Z.testbit (mount.mount_flags flag) 0 =
    (mount.on flag "-defaults" || mount.on flag "-read-only")
    && negb (mount.on flag "-read-write") ∧
  Z.testbit (mount.mount_flags flag) 4 =
    mount.on flag "-synchronous" || mount.on flag "-no-synchronous".
Proof.
  unfold mount.mount_flags. rewrite !translate_testbit by done.
  split.
  - assert (Z.testbit
              (if mount.on flag "-defaults"
               then Z.lor (Z.lor (Z.ldiff (Z.ldiff (Z.ldiff (Z.ldiff 0
                      mount.MS_RDONLY) mount.MS_NOSUID) mount.MS_NODEV)
                      mount.MS_NOEXEC) mount.MS_NOUSER) mount.MS_ASYNC
               else 0) 0 = mount.on flag "-defaults") as ->.
    { by destruct (mount.on flag "-defaults"). }
    unfold mount.translations. cbn [fold_left]. eval_testbit.
    rewrite ?andb_false_r, ?andb_true_r.
    by destruct (mount.on flag "-defaults"), (mount.on flag "-read-only"),
         (mount.on flag "-read-write").
  - assert (Z.testbit
              (if mount.on flag "-defaults"
               then Z.lor (Z.lor (Z.ldiff (Z.ldiff (Z.ldiff (Z.ldiff 0
                      mount.MS_RDONLY) mount.MS_NOSUID) mount.MS_NODEV)
                      mount.MS_NOEXEC) mount.MS_NOUSER) mount.MS_ASYNC
               else 0) 4 = false) as ->.
    { by destruct (mount.on flag "-defaults"). }
    unfold mount.translations. cbn [fold_left]. eval_testbit.
    rewrite ?andb_false_r, ?andb_true_r.
    by destruct (mount.on flag "-synchronous"), (mount.on flag "-no-synchronous").
Qed.

Lemma In_zip_with {A B C} (f : A → B → C) l1 l2 z :
  In z (zip_with f l1 l2) → ∃ x y, z = f x y.
Proof.
  revert l2. induction l1 as [|x l1 IH]; intros [|y l2] Hin; try done.
  destruct Hin as [<-|Hin]; [by eexists _, _ | by apply (IH l2)].
Qed.

(** Every mount [mountone] attempts carries the flag word of the flags. *)
Lemma mountone_flag_word kernel fs t dev dir flag parm n s d ty fl data e :
  In (mount.Ev (mount.Mount s d ty fl data) e)
     (run_events (mount.mountone kernel fs t dev dir flag parm n)) →
  fl = mount.mount_flags flag.
Proof.
  unfold mount.mountone.
  set (t' := if mount.on flag "-defaults" && String.eqb t "" then "auto" else t).
  destruct (mount.on flag "--fake"); [by intros []|].
  rewrite run_bind_run.
  destruct fs as [fsys|].
  2: { by destruct (String.eqb t' "auto"); intros []. }
  assert (∃ types nodev,
    (if String.eqb t' "auto"
     then f ← mount.deref (Some fsys); run_ret (mount.autoList f, false)
     else f ← mount.deref (Some fsys);
          run_ret ([t'], default false (mount.isNoDev f !! t'))) n
    = (Val (types, nodev), n, [])) as (types & nodev & ->).
  { destruct (String.eqb t' "auto"); by eexists _, _. }
  cbv beta iota.
  assert ((if negb nodev then (mount.readSuperBlock dev).2 else None) = None)
    as -> by (by destruct nodev).
  rewrite run_bind_run.
  destruct (try_types_run kernel dev dir (mount.mount_flags flag)
              (mount.get parm "-o") types None n)
    as [(es & Hlen & ->)|(tys & ty' & rest & es & Hty & Hlen & ->)].
  all: unfold run_ret, run_events, mount.attempts; cbn [fst snd app];
       rewrite !app_nil_r; intros Hin.
  - apply In_zip_with in Hin as (x & y & Heq). by injection Heq.
  - apply in_app_or in Hin as [Hin|Hin].
    + apply In_zip_with in Hin as (x & y & Heq). by injection Heq.
    + destruct Hin as [Heq|[]]. by injection Heq.
Qed.

(** The read-only bit and the synchronous bit of every mount [mountone]
    attempts.  [-defaults], documented as read-write, sets the read-only
    bit, because it adds [MS_ASYNC], which has the value of [MS_RDONLY];
    only [-read-write] clears it again.  [-no-synchronous] sets the
    synchronous bit just as [-synchronous] does. *)
Theorem defaults_mounts_read_only (kernel : nat → mount.call → option error)
  (fs : option mount.filesystems) (t dev dir : string) (flag : mount.Flag)
  (parm : mount.Parm) (n : nat) (s d ty data : string) (fl : Z)
  (e : option error) :
  In (mount.Ev (mount.Mount s d ty fl data) e)
     (run_events (mount.mountone kernel fs t dev dir flag parm n)) →
  Z.testbit fl 0 =
    (mount.on flag "-defaults" || mount.on flag "-read-only")
    && negb (mount.on flag "-read-write") ∧
  Z.testbit fl 4 =
    mount.on flag "-synchronous" || mount.on flag "-no-synchronous".
Proof.
  intros Hin. apply mountone_flag_word in Hin as ->. apply mount_flags_bits.
Qed.

Lemma on_insert (flag : mount.Flag) (k name : string) (b : bool) :
  mount.on (<[k := b]> flag) name =
  if String.eqb k name then b else mount.on flag name.
Proof.
  unfold mount.on, mount.Flag in *. rewrite lookup_insert.
  destruct (String.eqb_spec k name) as [->|Hne].
  - by rewrite decide_True.
  - by rewrite decide_False.
Qed.

Lemma on_insert_other (flag : mount.Flag) (k name : string) (b : bool) :
  String.eqb k name = false → mount.on (<[k := b]> flag) name = mount.on flag name.
Proof. intros H. by rewrite on_insert, H. Qed.

Lemma fold_left_ext_Forall {A B} (f g : A → B → A) (l : list B) (a : A) :
  Forall (λ x, ∀ a, f a x = g a x) l → fold_left f l a = fold_left g l a.
Proof.
  intros H. revert a. induction H as [|x l Hx _ IH]; intros a; [done|].
  cbn [fold_left]. by rewrite Hx, IH.
Qed.

(** The flag word does not depend on [-r]. *)
Lemma mount_flags_without_r (flag : mount.Flag) (b : bool) :
  mount.mount_flags (<["-r" := b]> flag) = mount.mount_flags flag.
Proof.
  unfold mount.mount_flags.
  rewrite (on_insert_other flag "-r" "-defaults" b eq_refl).
  apply fold_left_ext_Forall. unfold mount.translations.
  repeat (constructor;
          [intros a; by rewrite on_insert_other by reflexivity|]).
  constructor.
Qed.

(** [-r], documented as "read only" and accepted by [Main], has no effect:
    it is not in the translation table, so [mountone] attempts the same
    mounts, with the same flag word, and reports the same error and type,
    whether the flag is given or not. *)
Theorem r_flag_is_ignored (kernel : nat → mount.call → option error)
  (fs : option mount.filesystems) (t dev dir : string) (flag : mount.Flag)
  (parm : mount.Parm) (n : nat) (b : bool) :
  run_events (mount.mountone kernel fs t dev dir (<["-r" := b]> flag) parm n)
  = run_events (mount.mountone kernel fs t dev dir flag parm n) ∧
  match run_result (mount.mountone kernel fs t dev dir (<["-r" := b]> flag) parm n),
        run_result (mount.mountone kernel fs t dev dir flag parm n) with
  | Val r', Val r =>
      mount.err r' = mount.err r ∧ mount.fstype r' = mount.fstype r ∧
      mount.dev r' = mount.dev r ∧ mount.dir r' = mount.dir r
  | Throw v', Throw v => v' = v
  | Block, Block | Loop, Loop => True
  | _, _ => False
  end.
Proof.
  unfold mount.mountone. rewrite mount_flags_without_r.
  rewrite (on_insert_other flag "-r" "-defaults" b eq_refl).
  rewrite (on_insert_other flag "-r" "--fake" b eq_refl).
  set (t' := if mount.on flag "-defaults" && String.eqb t "" then "auto" else t).
  destruct (mount.on flag "--fake"); [done|].
  rewrite !run_bind_run.
  destruct fs as [fsys|].
  2: { by destruct (String.eqb t' "auto"). }
  assert (∃ types nodev,
    (if String.eqb t' "auto"
     then f ← mount.deref (Some fsys); run_ret (mount.autoList f, false)
     else f ← mount.deref (Some fsys);
          run_ret ([t'], default false (mount.isNoDev f !! t'))) n
    = (Val (types, nodev), n, [])) as (types & nodev & ->).
  { destruct (String.eqb t' "auto"); by eexists _, _. }
  cbv beta iota.
  assert ((if negb nodev then (mount.readSuperBlock dev).2 else None) = None)
    as -> by (by destruct nodev).
  rewrite !run_bind_run.
  destruct (mount.try_types kernel dev dir (mount.mount_flags flag)
              (mount.get parm "-o") types None n) as [[[[ty|err]|v| |] n1] t1];
    done.
Qed.

(** ** Reading "/etc/fstab" *)

Lemma index_inside {E} fields i n :
  (i < length fields)%nat →
  index (E:=E) fields i n = (Val (nth i fields ""), n, []).
Proof.
  intros Hi. unfold index.
  destruct (nth_error fields i) as [field|] eqn:Hnth.
  - by rewrite (nth_error_nth _ _ _ Hnth).
  - apply nth_error_None in Hnth. lia.
Qed.

Lemma index_outside {E} fields i n :
  (length fields <= i)%nat →
  index (E:=E) fields i n = (Throw index_out_of_range, n, []).
Proof.
  intros Hi. unfold index.
  by rewrite (proj2 (nth_error_None fields i) Hi).
Qed.

Lemma fstab_line_run Fields fstab line n :
  mount.fstab_line Fields fstab line n =
  if mount.no_hash line then
    if (4 <=? length (Fields line))%nat
    then (Val (fstab ++ [mount.entry_of Fields line]), n, [])
    else (Throw index_out_of_range, n, [])
  else (Val fstab, n, []).
Proof.
  unfold mount.fstab_line. destruct (mount.no_hash line); [|done].
  destruct (Nat.leb_spec 4 (length (Fields line))) as [H|H].
  - repeat (rewrite run_bind_run, index_inside by lia; cbv beta iota).
    done.
  - rewrite run_bind_run.
    destruct (Nat.le_gt_cases (length (Fields line)) 0) as [H0|H0].
    { by rewrite index_outside. }
    rewrite index_inside by lia. cbv beta iota. rewrite run_bind_run.
    destruct (Nat.le_gt_cases (length (Fields line)) 1) as [H1|H1].
    { by rewrite index_outside. }
    rewrite index_inside by lia. cbv beta iota. rewrite run_bind_run.
    destruct (Nat.le_gt_cases (length (Fields line)) 2) as [H2|H2].
    { by rewrite index_outside. }
    rewrite index_inside by lia. cbv beta iota. rewrite run_bind_run.
    by rewrite index_outside by lia.
Qed.

Lemma scanning_cons {A} (body : A → string → Run mount.event A) line rest acc n :
  mount.scanning body (line :: rest) acc n =
  (body acc line ≫= λ acc, mount.scanning body rest acc) n.
Proof. reflexivity. Qed.

Lemma scanning_fstab Fields lines acc n :
  (Forall (λ line, (4 <= length (Fields line))%nat)
          (List.filter mount.no_hash lines) →
   mount.scanning (mount.fstab_line Fields) lines acc n =
     (Val (acc ++ map (mount.entry_of Fields)
                          (List.filter mount.no_hash lines)), n, [])) ∧
  (Exists (λ line, (length (Fields line) < 4)%nat)
          (List.filter mount.no_hash lines) →
   mount.scanning (mount.fstab_line Fields) lines acc n =
     (Throw index_out_of_range, n, [])).
Proof.
  revert acc. induction lines as [|line rest IH]; intros acc.
  { split; [intros _; cbn; by rewrite app_nil_r | by intros H; inversion H]. }
  rewrite scanning_cons, run_bind_run, fstab_line_run.
  cbn [List.filter]. destruct (mount.no_hash line).
  - destruct (Nat.leb_spec 4 (length (Fields line))) as [H|H].
    + destruct (IH (acc ++ [mount.entry_of Fields line])) as [IH1 IH2]. split.
      * intros Hall. apply Forall_cons in Hall as [_ Hall].
        rewrite (IH1 Hall). cbn [map]. by rewrite <- app_assoc.
      * intros Hex. apply Exists_cons in Hex as [Hex|Hex]; [lia|].
        by rewrite (IH2 Hex).
    + split; [|done]. intros Hall. apply Forall_cons in Hall as [Hall _]. lia.
  - destruct (IH acc) as [IH1 IH2]. split.
    + intros Hall. by rewrite (IH1 Hall).
    + intros Hex. by rewrite (IH2 Hex).
Qed.

(** [loadFstab] drops every line that has a "#" anywhere, also a line that
    carries an entry before the "#", and makes an entry of the first four
    fields of every other line.  A line without "#" that has fewer than
    four fields, an empty line for one, makes it panic. *)
Theorem loadFstab_needs_four_fields
  (scan : string → error + (list string * option error))
  (Fields : string → list string) (lines : list string)
  (serr : option error) (n : nat) :
  scan "/etc/fstab" = inr (lines, serr) →
  (Forall (λ line, (4 <= length (Fields line))%nat)
          (List.filter mount.no_hash lines) →
   mount.loadFstab scan Fields n =
     (Val (map (mount.entry_of Fields) (List.filter mount.no_hash lines),
                 serr), n, [])) ∧
  (Exists (λ line, (length (Fields line) < 4)%nat)
          (List.filter mount.no_hash lines) →
   ∃ v, mount.loadFstab scan Fields n = (Throw v, n, [])).
Proof.
  intros Hscan. unfold mount.loadFstab. rewrite Hscan, run_bind_run.
  destruct (scanning_fstab Fields lines [] n) as [H1 H2]. split.
  - intros Hall. by rewrite (H1 Hall).
  - intros Hex. rewrite (H2 Hex). by eexists.
Qed.

Lemma fstab_entries_run kernel fs name flag parm entries n :
  (Forall (λ x, mount.names name x = false) entries →
   mount.fstab_entries kernel fs name flag parm entries n
   = (Val None, n, [])) ∧
  (∀ pre x post,
     entries = pre ++ x :: post →
     Forall (λ x, mount.names name x = false) pre →
     mount.names name x = true →
     mount.fstab_entries kernel fs name flag parm entries n =
     (r ← mount.mountone kernel fs (mount.fsType x) (mount.fsSpec x)
            (mount.fsFile x) flag parm;
      mount.ShowResult r;; run_ret (mount.err r)) n).
Proof.
  induction entries as [|y rest [IH1 IH2]].
  { split; [done|]. by intros [|? ?] ? ? ?. }
  cbn [mount.fstab_entries]. fold (mount.names name y). split.
  - intros Hall. apply Forall_cons in Hall as [-> Hall]. by apply IH1.
  - intros [|p pre] x post Heq Hpre Hx; cbn in Heq; injection Heq as -> ->.
    + by rewrite Hx.
    + apply Forall_cons in Hpre as [-> Hpre]. by apply (IH2 pre x post).
Qed.

(** [mount NAME] looks the name up in "/etc/fstab" among the devices and
    the mount points, and mounts the first entry that has it, with the type
    of that entry; the options of the entry are read and not used.  When no
    entry has the name nothing is mounted and no error is returned. *)
Theorem fstab_mounts_first_match (kernel : nat → mount.call → option error)
  (scan : string → error + (list string * option error))
  (Fields : string → list string) (fs : option mount.filesystems)
  (name : string) (flag : mount.Flag) (parm : mount.Parm)
  (lines : list string) (n : nat) :
  scan "/etc/fstab" = inr (lines, None) →
  Forall (λ line, (4 <= length (Fields line))%nat)
         (List.filter mount.no_hash lines) →
  let entries := map (mount.entry_of Fields) (List.filter mount.no_hash lines) in
  (Forall (λ x, mount.names name x = false) entries →
   mount.fstab kernel scan Fields fs name flag parm n = (Val None, n, [])) ∧
  (∀ pre x post,
     entries = pre ++ x :: post →
     Forall (λ x, mount.names name x = false) pre →
     mount.names name x = true →
     mount.fstab kernel scan Fields fs name flag parm n =
     (r ← mount.mountone kernel fs (mount.fsType x) (mount.fsSpec x)
            (mount.fsFile x) flag parm;
      mount.ShowResult r;; run_ret (mount.err r)) n).
Proof.
  intros Hscan Hall entries.
  assert (mount.loadFstab scan Fields n = (Val (entries, None), n, []))
    as Hload.
  { unfold mount.loadFstab. rewrite Hscan, run_bind_run.
    destruct (scanning_fstab Fields lines [] n) as [H1 _].
    by rewrite (H1 Hall). }
  unfold mount.fstab. rewrite run_bind_run, Hload. cbv beta iota.
  destruct (fstab_entries_run kernel fs name flag parm entries n) as [H1 H2].
  split.
  - intros Hno. by rewrite (H1 Hno).
  - intros pre x post Heq Hpre Hx. rewrite (H2 pre x post Heq Hpre Hx).
    by destruct ((mount.mountone kernel fs (mount.fsType x) (mount.fsSpec x)
                    (mount.fsFile x) flag parm ≫= _) n) as [[r n1] t1].
Qed.

(** ** The command without "/proc/filesystems" *)

Lemma getFilesystems_fails scan TrimSpace n :
  (∀ lines, scan mount.procFilesystems ≠ inr (lines, None)) →
  ∃ e t, mount.getFilesystems scan TrimSpace n = (Val (None, Some e), n, t) ∧
         Forall (λ ev, ∃ s, ev = mount.Ev (mount.Eprintln s) None) t.
Proof.
  intros H. unfold mount.getFilesystems.
  destruct (scan mount.procFilesystems) as [e|[lines [e|]]] eqn:E.
  - exists e, []. by split.
  - exists e, [mount.Ev (mount.Eprintln
                           ("scan: " +:+ mount.procFilesystems +:+ " " +:+ Error e))
                        None].
    split; [done|]. constructor; [by eexists | constructor].
  - by destruct (H lines).
Qed.

(** [Main] does not look at the error of [getFilesystems].  When
    "/proc/filesystems" cannot be opened or read, [mount DEVICE DIRECTORY]
    does not return that error: unless [--fake] is given it panics on the
    nil pointer it was handed, and nothing is mounted. *)
Theorem mount_needs_proc_filesystems
  (kernel : nat → mount.call → option error)
  (scan : string → error + (list string * option error))
  (Fields : string → list string) (TrimSpace : string → string)
  (flags_New : list string → list string → mount.Flag * list string)
  (parms_New : list string → list string → mount.Parm * list string)
  (mountall : option mount.filesystems → mount.Flag → mount.Parm
              → Run mount.event (option error))
  (mountprobe : option mount.filesystems → string → mount.Flag → mount.Parm
                → Run mount.event (option error))
  (args rest : list string) (flag : mount.Flag) (parm : mount.Parm)
  (device directory : string) (n : nat) :
  flags_New args mount.known_flags = (flag, rest) →
  parms_New rest ["-match"; "-o"; "-t"] = (parm, [device; directory]) →
  mount.on flag "-a" = false →
  mount.on flag "--fake" = false →
  (∀ lines, scan mount.procFilesystems ≠ inr (lines, None)) →
  let x := mount.Main kernel scan Fields TrimSpace flags_New parms_New
             mountall mountprobe args n in
  run_result x = Throw nil_dereference ∧
  Forall (λ ev, ∃ s, ev = mount.Ev (mount.Eprintln s) None) (run_events x).
Proof.
  intros Hflags Hparms Ha Hfake Hscan x. subst x.
  unfold mount.Main. rewrite Hflags, Hparms, Ha.
  destruct (getFilesystems_fails scan TrimSpace n Hscan) as (e & t & E & Ht).
  rewrite run_bind_run, E. cbv beta iota.
  rewrite run_bind_run. unfold mount.mountone. rewrite Hfake.
  rewrite run_bind_run.
  match goal with |- context [String.eqb ?a "auto"] =>
    destruct (String.eqb a "auto") end.
  all: unfold run_result, run_events, mbind, Run_bind, run_bind,
         mount.deref, throw; cbn [fst snd]; by rewrite ?app_nil_r.
Qed.

(** * Properties of the boot client *)

Lemma Split_first_slash x rest :
  has_slash x = false →
  Split (x +:+ String "/" rest) "/" = x :: Split rest "/".
Proof.
  unfold has_slash. induction x as [|c x IH]; intros H.
  { change ("" +:+ String "/" rest) with (String "/" rest). cbn [Split].
    by change (Ascii.eqb "/" "/") with true. }
  cbn [list_ascii_of_string existsb] in H.
  apply orb_false_elim in H as [Hc Hx].
  change (String c x +:+ String "/" rest) with (String c (x +:+ String "/" rest)).
  cbn [Split]. rewrite Ascii.eqb_sym, Hc, (IH Hx). done.
Qed.

Lemma install_run content answer fstab vmlinuz initrd n :
  let dat := content n fstab in
  let read := bootc.Ev (bootc.ReadFile fstab) (answer n (bootc.ReadFile fstab)) in
  ((length (SplitStr dat "UUID=") < 3)%nat →
   bootc.install content answer fstab vmlinuz initrd n
   = (Throw index_out_of_range, S n, [read])) ∧
  (∀ x rest,
     nth_error (SplitStr dat "UUID=") 2 = Some (x +:+ String "/" rest) →
     has_slash x = false → x ≠ "" →
     let kexc := bootc.kexec_line vmlinuz initrd (chop x) in
     let written := answer (S n) (bootc.WriteFile "kexec1" kexc (perm 6 4 4)) in
     let sourced := answer (S (S n)) (bootc.GoesMain ["source"; "kexec1"]) in
     bootc.install content answer fstab vmlinuz initrd n
     = (Val sourced, S (S (S n)),
        read :: bootc.install_events vmlinuz initrd (chop x) written sourced)).
Proof.
  intros dat read. split.
  - intros Hlen. unfold bootc.install. rewrite run_bind_run.
    unfold bootc.ioutil_ReadFile at 1. cbv zeta beta iota. fold dat.
    rewrite run_bind_run, index_outside by lia. done.
  - intros x rest Hnth Hx Hne kexc written sourced.
    unfold bootc.install. rewrite run_bind_run.
    unfold bootc.ioutil_ReadFile at 1. cbv zeta beta iota. fold dat.
    rewrite run_bind_run. unfold index at 1. rewrite Hnth.
    unfold run_ret at 1. cbv beta iota.
    rewrite Split_first_slash by done.
    rewrite run_bind_run. unfold index at 1. cbn [nth_error].
    unfold run_ret at 1. cbv beta iota.
    rewrite run_bind_run. unfold bootc.but_last.
    assert ((len x =? 0) = false) as ->.
    { destruct x; [done|]. unfold len. cbn [String.length].
      apply Z.eqb_neq. lia. }
    unfold run_ret at 1. cbv beta iota. fold (chop x). fold kexc.
    subst written sourced. unfold bootc.install_events.
    set (cw := bootc.WriteFile "kexec1" kexc (perm 6 4 4)).
    set (cs := bootc.GoesMain ["source"; "kexec1"]).
    cbv beta iota zeta delta [mbind Run_bind run_bind bootc.ioutil_WriteFile
      bootc.helper bootc.fmt_Println emit run_ret].
    fold cw. destruct (answer (S n) cw);
      cbv beta iota zeta; fold cs; destruct (answer (S (S n)) cs); reflexivity.
Qed.

Lemma Main_installs text reply content answer Quote arg fstab vmlinuz initrd n :
  In (arg, fstab, vmlinuz, initrd) bootc.install_cases →
  bootc.Main text reply content answer Quote [arg] n =
  (bootc.getMasterIP text ≫= λ _, bootc.install content answer fstab vmlinuz initrd) n.
Proof.
  intros H. unfold bootc.install_cases in H.
  destruct H as [H|[H|[H|[]]]]; injection H as <- <- <- <-; reflexivity.
Qed.

(** The install cases of the boot client, 1, 2 and 6, take the UUID of the
    root from what follows the second "UUID=" of the fstab.  When the fstab
    has fewer than two of them, and so when it could not be read, whose
    error is ignored, [Main] panics on the index and returns no error;
    nothing is printed, written or sourced. *)
Theorem install_needs_the_second_uuid (text : nat → bootc.call → string)
  (reply : nat → bootc.call → Z * string) (content : nat → string → string)
  (answer : nat → bootc.call → option error) (Quote : string → string)
  (arg fstab vmlinuz initrd : string) (n : nat) :
  In (arg, fstab, vmlinuz, initrd) bootc.install_cases →
  (length (SplitStr (content (S n) fstab) "UUID=") < 3)%nat →
  bootc.Main text reply content answer Quote [arg] n =
    (Throw index_out_of_range, S (S n),
     [ bootc.Ev bootc.GetMasterIP None;
       bootc.Ev (bootc.ReadFile fstab) (answer (S n) (bootc.ReadFile fstab)) ]).
Proof.
  intros Hcase Hlen. rewrite (Main_installs _ _ _ _ _ _ _ _ _ _ Hcase).
  rewrite run_bind_run. unfold bootc.getMasterIP, bootc.getter. cbv beta iota.
  destruct (install_run content answer fstab vmlinuz initrd (S n)) as [H _].
  by rewrite (H Hlen).
Qed.

(** In the install cases the UUID is the text between the second "UUID="
    of the fstab and the first slash after it, less its last byte, the
    blank before the mount point.  [Main] prints it, prints the kexec line
    made with it, writes that line to "kexec1" with mode 0644 and sources
    "kexec1".  A failed write is reported on the terminal and stops
    nothing: "kexec1" is sourced all the same, and the error of the source
    is what [Main] returns. *)
Theorem install_sources_after_failed_write (text : nat → bootc.call → string)
  (reply : nat → bootc.call → Z * string) (content : nat → string → string)
  (answer : nat → bootc.call → option error) (Quote : string → string)
  (arg fstab vmlinuz initrd x rest : string) (n : nat) :
  In (arg, fstab, vmlinuz, initrd) bootc.install_cases →
  nth_error (SplitStr (content (S n) fstab) "UUID=") 2
    = Some (x +:+ String "/" rest) →
  has_slash x = false → x ≠ "" →
  let kexc := bootc.kexec_line vmlinuz initrd (chop x) in
  let written :=
    answer (S (S n)) (bootc.WriteFile "kexec1" kexc (perm 6 4 4)) in
  let sourced :=
    answer (S (S (S n))) (bootc.GoesMain ["source"; "kexec1"]) in
  bootc.Main text reply content answer Quote [arg] n =
    (Val sourced, S (S (S (S n))),
     bootc.Ev bootc.GetMasterIP None
     :: bootc.Ev (bootc.ReadFile fstab) (answer (S n) (bootc.ReadFile fstab))
     :: bootc.install_events vmlinuz initrd (chop x) written sourced).
Proof.
  intros Hcase Hnth Hx Hne kexc written sourced.
  rewrite (Main_installs _ _ _ _ _ _ _ _ _ _ Hcase).
  rewrite run_bind_run. unfold bootc.getMasterIP, bootc.getter. cbv beta iota.
  destruct (install_run content answer fstab vmlinuz initrd (S n)) as [_ H].
  by rewrite (H x rest Hnth Hx Hne).
Qed.

(** ** Registration at boot *)

(** [boot] registers at most twice, the second time when the first
    attempt failed or was answered with another code than "registered".
    After a second attempt it returns the error of that attempt, which is
    nil when the master answered, whatever it answered: [boot] then reports
    success although the client is not registered. *)
Theorem boot_gives_up_after_two_attempts (text : nat → bootc.call → string)
  (reply : nat → bootc.call → Z * string)
  (answer : nat → bootc.call → option error) (RegReplyRegistered : Z)
  (n : nat) :
  let c := bootc.Register (text n bootc.GetMasterIP) (text (S n) bootc.GetMAC)
             (text (S (S n)) bootc.GetIP) in
  let asked := [ bootc.Ev bootc.GetMasterIP None; bootc.Ev bootc.GetMAC None;
                 bootc.Ev bootc.GetIP None ] in
  let registered k :=
    bool_decide (answer k c = None) && ((reply k c).1 =? RegReplyRegistered) in
  bootc.boot text reply answer RegReplyRegistered n =
  if registered (3 + n)%nat then
    (Val None, (4 + n)%nat, asked ++ [bootc.Ev c (answer (3 + n)%nat c)])
  else
    (Val (answer (4 + n)%nat c), (5 + n)%nat,
     asked ++ [ bootc.Ev c (answer (3 + n)%nat c);
                bootc.Ev c (answer (4 + n)%nat c) ]).
Proof.
  intros c asked registered. subst registered. cbv beta.
  unfold bootc.boot.
  cbv beta iota zeta delta [mbind Run_bind run_bind bootc.getMasterIP
    bootc.getMAC bootc.getIP bootc.getter bootc.register run_ret].
  fold c. cbn [Nat.add app].
  destruct (reply (S (S (S n))) c) as [r1 name1].
  destruct (answer (S (S (S n))) c) as [e1|] eqn:E1; cbn [fst].
  - rewrite bool_decide_true by done. rewrite bool_decide_false by done.
    cbn [orb andb]. cbv beta iota zeta.
    destruct (reply (S (S (S (S n)))) c) as [r2 name2].
    destruct (answer (S (S (S (S n)))) c) as [e2|] eqn:E2.
    + by rewrite bool_decide_true by done.
    + rewrite bool_decide_false by (by intros ?). cbn [orb].
      by destruct (r2 =? RegReplyRegistered).
  - rewrite bool_decide_false by (by intros ?). rewrite bool_decide_true by done.
    cbn [orb andb]. destruct (r1 =? RegReplyRegistered); cbn [negb]; [done|].
    cbv beta iota zeta.
    destruct (reply (S (S (S (S n)))) c) as [r2 name2].
    destruct (answer (S (S (S (S n)))) c) as [e2|] eqn:E2.
    + by rewrite bool_decide_true by done.
    + rewrite bool_decide_false by (by intros ?). cbn [orb].
      by destruct (r2 =? RegReplyRegistered).
Qed.

(** * Properties of the start command *)

Lemma run_all_ret {E A} (φ : E → Prop) (a : A) : run_all φ (run_ret a).
Proof. intros n. constructor. Qed.

Lemma run_all_bind {E A B} (φ : E → Prop) (m : Run E A) (f : A → Run E B) :
  run_all φ m → (∀ a, run_all φ (f a)) → run_all φ (m ≫= f).
Proof.
  intros Hm Hf n. rewrite run_bind_run. specialize (Hm n).
  destruct (m n) as [[[a|v| |] n1] t1]; try done.
  specialize (Hf a n1). destruct (f a n1) as [[r n2] t2].
  unfold run_events in *. cbn [snd] in *. apply Forall_app. by split.
Qed.

Lemma run_all_ask (φ : start.event → Prop) answer c :
  (∀ r, φ (start.Ev c r)) → run_all φ (start.ask answer c).
Proof. intros H n. by repeat constructor. Qed.

Lemma run_all_say (φ : start.event → Prop) c :
  φ (start.Ev c None) → run_all φ (start.say c).
Proof. intros H n. by repeat constructor. Qed.

Lemma run_all_block {A} (φ : start.event → Prop) :
  run_all φ (start.block : Run start.event A).
Proof. intros n. constructor. Qed.

Lemma run_all_each {A} (φ : start.event → Prop) (xs : list A) body :
  (∀ x, run_all φ (body x)) → run_all φ (start.each xs body).
Proof.
  intros Hb. induction xs as [|x xs IH]; [apply run_all_ret|].
  cbn [start.each]. apply run_all_bind; [apply Hb|].
  intros [e|]; [apply run_all_ret | apply IH].
Qed.

Lemma run_all_serve (φ : start.event → Prop) answer login fuel :
  (∀ r, φ (start.Ev (start.GoesMain ["cli"]) r)) →
  (∀ r, φ (start.Ev (start.GoesMain ["login"]) r)) →
  (∀ s, φ (start.Ev (start.Println s) None)) →
  φ (start.Ev (start.Sleep 3) None) →
  run_all φ (start.serve answer login fuel).
Proof.
  intros Hcli Hlogin Hprint Hsleep.
  induction fuel as [|fuel IH]; [intros n; constructor|].
  cbn [start.serve].
  assert (run_all φ
            (err ← start.ask answer (start.GoesMain ["cli"]);
             match err with
             | Some e =>
                 if bool_decide (e ≠ EOF)
                 then start.say (start.Println (Error e));; start.block
                 else start.serve answer login fuel
             | None => start.serve answer login fuel
             end)) as Hc.
  { apply run_all_bind; [by apply run_all_ask|]. intros [e|]; [|done].
    destruct (bool_decide (e ≠ EOF)); [|done].
    apply run_all_bind; [by apply run_all_say | intros _; apply run_all_block]. }
  destruct login; [|done].
  apply run_all_bind; [by apply run_all_ask|]. intros [e|]; [|done].
  apply run_all_bind; [by apply run_all_say|]. intros _.
  apply run_all_bind; [by apply run_all_say|]. by intros _.
Qed.

Lemma ask_bind_run {A} answer c (f : option error → Run start.event A) n :
  (start.ask answer c ≫= f) n
  = let '(r, n2, t2) := f (answer n c) (S n) in
    (r, n2, start.Ev c (answer n c) :: t2).
Proof. rewrite run_bind_run. unfold start.ask. by destruct (f _ _) as [[? ?] ?]. Qed.

Lemma say_bind_run {A} c (f : unit → Run start.event A) n :
  (start.say c ≫= f) n
  = let '(r, n2, t2) := f tt (S n) in (r, n2, start.Ev c None :: t2).
Proof. rewrite run_bind_run. unfold start.say. by destruct (f _ _) as [[? ?] ?]. Qed.

Lemma serving_cons {A} x (r : res A) n n' t :
  (∀ e, x = start.Ev (start.GoesMain ["cli"]) (Some e) → e = EOF) →
  serving (r, n, t) → serving (r, n', x :: t).
Proof.
  intros Hx [Hr Hs]. split; [done|]. intros mid e post Heq Hne.
  unfold run_events, run_result in *. cbn [fst snd] in *.
  destruct mid as [|y mid]; cbn [app] in Heq.
  - injection Heq as -> _. by destruct (Hne (Hx e eq_refl)).
  - injection Heq as _ Heq. by apply (Hs mid).
Qed.

(** The loop of process 1 does not return, and the first shell error
    other than end-of-input is printed and blocks it for good. *)
Lemma serve_run answer login fuel n :
  serving (start.serve answer login fuel n).
Proof.
  revert n. induction fuel as [|fuel IH]; intros n.
  { split; [by right|]. intros [|x mid] e post H; discriminate H. }
  cbn [start.serve].
  set (cli := err ← start.ask answer (start.GoesMain ["cli"]);
              match err with
              | Some e =>
                  if bool_decide (e ≠ EOF)
                  then start.say (start.Println (Error e));; start.block
                  else start.serve answer login fuel
              | None => start.serve answer login fuel
              end).
  assert (∀ k, serving (cli k)) as Hcli.
  { intros k. subst cli. rewrite ask_bind_run.
    destruct (answer k (start.GoesMain ["cli"])) as [e0|].
    - destruct (bool_decide (e0 ≠ EOF)) eqn:He0.
      + rewrite say_bind_run. unfold start.block.
        split; [by left|]. intros mid e post Heq Hne.
        unfold run_events, run_result in *. cbn [fst snd] in *.
        destruct mid as [|x mid]; cbn [app] in Heq.
        * by injection Heq as <- <-.
        * injection Heq as _ Heq. destruct mid as [|y mid]; cbn [app] in Heq;
            [discriminate Heq|]. injection Heq as _ Heq. by destruct mid.
      + apply bool_decide_eq_false in He0. specialize (IH (S k)).
        destruct (start.serve answer login fuel (S k)) as [[r n1] t1].
        eapply serving_cons; [|exact IH]. intros e [= ->].
        destruct (decide (e = EOF)) as [|Hne]; [done|]. by destruct (He0 Hne).
    - specialize (IH (S k)).
      destruct (start.serve answer login fuel (S k)) as [[r n1] t1].
      by eapply serving_cons; [|exact IH]. }
  destruct login; [|apply Hcli].
  rewrite ask_bind_run.
  destruct (answer n (start.GoesMain ["login"])) as [e0|].
  - rewrite say_bind_run, say_bind_run. specialize (IH (S (S (S n)))).
    destruct (start.serve answer true fuel (S (S (S n)))) as [[r n1] t1].
    do 3 (apply (serving_cons _ _ n1); [done|]). exact IH.
  - specialize (Hcli (S n)). destruct (cli (S n)) as [[r n1] t1].
    by eapply serving_cons; [|exact Hcli].
Qed.

Lemma ask_bind_head {A} answer c (f : option error → Run start.event A) n :
  ∃ t, run_events ((start.ask answer c ≫= f) n)
       = start.Ev c (answer n c) :: t.
Proof. rewrite ask_bind_run. destruct (f _ _) as [[? ?] ?]. by eexists. Qed.

Lemma serve_head answer fuel n :
  run_events (start.serve answer true fuel n) = [] ∨
  ∃ rep t,
    run_events (start.serve answer true fuel n)
      = start.Ev (start.GoesMain ["login"]) rep :: t.
Proof.
  destruct fuel as [|fuel]; [by left|]. right. cbn [start.serve].
  eexists. apply ask_bind_head.
Qed.

(** Login is run only if it was found, and what follows it in the log is
    [after_login]. *)
Lemma serve_login_run answer login fuel n mid rep post :
  run_events (start.serve answer login fuel n)
    = mid ++ start.Ev (start.GoesMain ["login"]) rep :: post →
  login = true ∧ after_login rep post.
Proof.
  revert n mid. induction fuel as [|fuel IH]; intros n mid.
  { intros H. by destruct mid. }
  cbn [start.serve].
  set (cli := err ← start.ask answer (start.GoesMain ["cli"]);
              match err with
              | Some e =>
                  if bool_decide (e ≠ EOF)
                  then start.say (start.Println (Error e));; start.block
                  else start.serve answer login fuel
              | None => start.serve answer login fuel
              end).
  assert (∀ k mid',
    run_events (cli k)
      = mid' ++ start.Ev (start.GoesMain ["login"]) rep :: post →
    login = true ∧ after_login rep post) as Hcli.
  { intros k mid'. subst cli. rewrite ask_bind_run.
    destruct (answer k (start.GoesMain ["cli"])) as [e0|].
    - destruct (bool_decide (e0 ≠ EOF)).
      + rewrite say_bind_run. unfold start.block, run_events. cbn [snd].
        intros Heq. destruct mid' as [|x [|y mid']]; try discriminate Heq.
        injection Heq as _ _ Heq. by destruct mid'.
      + specialize (IH (S k)).
        destruct (start.serve answer login fuel (S k)) as [[r n1] t1].
        unfold run_events in *. cbn [snd] in *. intros Heq.
        destruct mid' as [|x mid']; [discriminate Heq|].
        injection Heq as _ Heq. by apply (IH mid').
    - specialize (IH (S k)).
      destruct (start.serve answer login fuel (S k)) as [[r n1] t1].
      unfold run_events in *. cbn [snd] in *. intros Heq.
      destruct mid' as [|x mid']; [discriminate Heq|].
      injection Heq as _ Heq. by apply (IH mid'). }
  destruct login; [|apply Hcli].
  rewrite ask_bind_run.
  destruct (answer n (start.GoesMain ["login"])) as [e0|].
  - rewrite say_bind_run, say_bind_run.
    specialize (IH (S (S (S n)))).
    destruct (serve_head answer fuel (S (S (S n)))) as [Hh|Hh];
    destruct (start.serve answer true fuel (S (S (S n)))) as [[r n1] t1];
    unfold run_events in *; cbn [snd] in *; intros Heq;
    (destruct mid as [|x mid];
     [ injection Heq as <- <-; split; [done|]; eexists; split; [done|];
       first [by left | by right]
     | injection Heq as _ Heq;
       destruct mid as [|y [|z mid]]; try discriminate Heq;
       injection Heq as _ _ Heq; by apply (IH mid) ]).
  - specialize (Hcli (S n)).
    assert (∃ rep' t, run_events (cli (S n))
              = start.Ev (start.GoesMain ["cli"]) rep' :: t) as (rep' & t & Ht).
    { subst cli. eexists. apply ask_bind_head. }
    destruct (cli (S n)) as [[r n1] t1].
    unfold run_events in *. cbn [snd] in *. subst t1. intros Heq.
    destruct mid as [|x mid].
    + injection Heq as <- <-. split; [done|]. by eexists _, _.
    + injection Heq as _ Heq. by apply (Hcli mid).
Qed.

Lemma events_prefix_before {E} (φ : E → Prop) t1 ts pre x post :
  Forall φ t1 → ¬ φ x → t1 ++ ts = pre ++ x :: post →
  ∃ pre', pre = t1 ++ pre' ∧ ts = pre' ++ x :: post.
Proof.
  revert pre. induction t1 as [|y t1 IH]; intros pre Hall Hx Heq.
  { by exists pre. }
  apply Forall_cons in Hall as [Hy Hall].
  destruct pre as [|z pre]; cbn in Heq; injection Heq as -> Heq; [done|].
  destruct (IH pre Hall Hx Heq) as (pre' & -> & ->). by exists pre'.
Qed.

Lemma events_before_last {E} (t1 : list E) c pre x post :
  x ≠ c → t1 ++ [c] = pre ++ x :: post →
  ∃ post', post = post' ++ [c] ∧ t1 = pre ++ x :: post'.
Proof.
  intros Hx Heq. destruct post as [|p post _] using rev_ind.
  - apply app_inj_tail in Heq as [_ ->]. done.
  - rewrite app_comm_cons, app_assoc in Heq.
    apply app_inj_tail in Heq as [-> ->]. by exists post.
Qed.

(** An event that the head of a sequence never logs is logged by the rest,
    and the head has returned. *)
Lemma pin_bind {E A B} (φ : E → Prop) (m : Run E A) (f : A → Run E B)
    n x pre post :
  run_all φ m → ¬ φ x →
  run_events ((m ≫= f) n) = pre ++ x :: post →
  ∃ a k pre',
    pre = run_events (m n) ++ pre' ∧
    run_events (f a k) = pre' ++ x :: post ∧
    run_result ((m ≫= f) n) = run_result (f a k).
Proof.
  intros Hm Hx. rewrite run_bind_run. specialize (Hm n).
  destruct (m n) as [[[a|v| |] n1] t1];
    unfold run_events, run_result in *; cbn [fst snd] in *.
  - destruct (f a n1) as [[r n2] t2] eqn:Hf. cbn [fst snd]. intros Heq.
    destruct (events_prefix_before φ _ _ _ _ _ Hm Hx Heq) as (pre' & -> & ->).
    exists a, n1, pre'. by rewrite Hf.
  - intros Heq. exfalso. rewrite Heq in Hm.
    apply Forall_app in Hm as [_ Hm]. by apply Forall_cons in Hm as [? _].
  - intros Heq. exfalso. rewrite Heq in Hm.
    apply Forall_app in Hm as [_ Hm]. by apply Forall_cons in Hm as [? _].
  - intros Heq. exfalso. rewrite Heq in Hm.
    apply Forall_app in Hm as [_ Hm]. by apply Forall_cons in Hm as [? _].
Qed.

Lemma pin_first {E} (x y : E) t pre post :
  Forall (λ ev, ev ≠ x) t → y :: t = pre ++ x :: post →
  pre = [] ∧ y = x ∧ post = t.
Proof.
  intros Ht Heq. destruct pre as [|z pre]; cbn [app] in Heq.
  - by injection Heq as <- <-.
  - injection Heq as _ ->. apply Forall_app in Ht as [_ Ht].
    by apply Forall_cons in Ht as [? _].
Qed.

Lemma pin_first_other {E} (x y : E) t pre post :
  y ≠ x → Forall (λ ev, ev ≠ x) t → y :: t = pre ++ x :: post → False.
Proof.
  intros Hy Ht Heq. destruct pre as [|z pre]; cbn [app] in Heq.
  - by injection Heq as ->.
  - injection Heq as _ ->. apply Forall_app in Ht as [_ Ht].
    by apply Forall_cons in Ht as [? _].
Qed.

Lemma pin_ret {E A} (a : A) n (x : E) pre post :
  run_events (run_ret a n) = pre ++ x :: post → False.
Proof. by destruct pre. Qed.

Lemma pin_defer_close {A} (body : Run start.event A) n x pre post :
  x ≠ start.Ev start.Close None →
  run_events (start.defer_close body n) = pre ++ x :: post →
  ∃ post',
    run_events (body n) = pre ++ x :: post' ∧
    post = post' ++ closing (run_result (body n)) ∧
    run_result (start.defer_close body n) = run_result (body n).
Proof.
  intros Hx. unfold start.defer_close.
  destruct (body n) as [[[a|v| |] n1] t1];
    unfold run_events, run_result; cbn [fst snd closing]; intros Heq.
  - destruct (events_before_last _ _ _ _ _ Hx Heq) as (post' & -> & ->).
    by exists post'.
  - destruct (events_before_last _ _ _ _ _ Hx Heq) as (post' & -> & ->).
    by exists post'.
  - exists post. by rewrite app_nil_r.
  - exists post. by rewrite app_nil_r.
Qed.

Lemma run_all_defer_close {A} (φ : start.event → Prop)
    (body : Run start.event A) :
  φ (start.Ev start.Close None) → run_all φ body →
  run_all φ (start.defer_close body).
Proof.
  intros Hc Hb n. specialize (Hb n). unfold start.defer_close.
  destruct (body n) as [[[a|v| |] n1] t1];
    unfold run_events in *; cbn [snd] in *; try done.
  - apply Forall_app. split; [done|]. by repeat constructor.
  - apply Forall_app. split; [done|]. by repeat constructor.
Qed.

Lemma run_all_Interfaces (φ : start.event → Prop) answer interfaces :
  (∀ r, φ (start.Ev start.Interfaces r)) →
  run_all φ (start.net_Interfaces answer interfaces).
Proof. intros H n. by repeat constructor. Qed.

Lemma run_all_Hostname (φ : start.event → Prop) answer hostname :
  (∀ r, φ (start.Ev start.Hostname r)) →
  run_all φ (start.os_Hostname answer hostname).
Proof. intros H n. by repeat constructor. Qed.

Lemma run_all_Cmdline (φ : start.event → Prop) answer cmdline :
  (∀ r, φ (start.Ev start.Cmdline r)) →
  run_all φ (start.cmdline_New answer cmdline).
Proof. intros H n. by repeat constructor. Qed.

(** Walks a run, leaving one goal for each call it can issue. *)
Ltac run_all_walk :=
  repeat first
    [ apply run_all_ret
    | apply run_all_block
    | apply run_all_ask; intros ?
    | apply run_all_say
    | apply run_all_Interfaces; intros ?
    | apply run_all_Hostname; intros ?
    | apply run_all_Cmdline; intros ?
    | apply run_all_each; intros ?
    | apply run_all_serve; [intros ?|intros ?|intros ?|]
    | apply run_all_defer_close
    | apply run_all_bind; [|intros ?]
    | match goal with
      | |- run_all _ (match ?a with Some _ => _ | None => _ end) => destruct a
      | |- run_all _ (if ?b then _ else _) => destruct b
      | |- run_all _ (let '(_, _) := ?p in _) => destruct p
      | |- run_all _ (let (_, _) := ?p in _) => destruct p
      end ].

Section start_properties.

Variable parms_New :
  list string → list string → gmap string string * list string.
Variable RedisDevs : list string.
Variable Machine : string.
Variable redis_Machine : string.
Variable Version : string.
Variable sockfile_Path : string → string.
Variable Daemon : list (string * Z).
Variable pid : Z.
Variable answer : nat → start.call → option error.
Variable interfaces : nat → list string.
Variable hostname : nat → string.
Variable cmdline : nat → list string * gmap string string.

Local Abbreviation Main :=
  (start.Main parms_New RedisDevs Machine redis_Machine Version sockfile_Path
     Daemon pid answer interfaces hostname cmdline).
Local Abbreviation published :=
  (start.published Machine Version Daemon pid answer hostname cmdline).
Local Abbreviation daemons := (start.daemons Daemon pid answer).
Local Abbreviation configure := (start.configure pid answer).
Local Abbreviation shells := (start.shells pid answer).
Local Abbreviation redisd_args :=
  (start.redisd_args RedisDevs answer interfaces).






(** Pins an event of the log to the part of the run that can log it. *)
Ltac pin_step x H tac :=
  first
    [ by apply pin_ret in H
    | let Hr := fresh "Hr" in
      apply (pin_bind (λ ev, ev ≠ x)) in H as (? & ? & ? & _ & H & Hr);
      [ rewrite Hr; clear Hr
      | run_all_walk; tac
      | let Hn := fresh in intros Hn; by apply Hn ]
    | match type of H with
      | run_events (match ?a with Some _ => _ | None => _ end _) = _ =>
          destruct a
      | run_events ((if ?b then _ else _) _) = _ => destruct b eqn:?
      | run_events ((let '(_, _) := ?p in _) _) = _ => destruct p
      | run_events ((let (_, _) := ?p in _) _) = _ => destruct p
      end ].

Lemma Main_pin_published x pre post fuel args n :
  published_event x →
  run_events (Main fuel args n) = pre ++ x :: post →
  ∃ k pre' post',
    run_events (published (parms_New args ["-conf"]).1 fuel k)
      = pre' ++ x :: post' ∧
    post
      = post' ++ closing
          (run_result (published (parms_New args ["-conf"]).1 fuel k)) ∧
    run_result (Main fuel args n)
      = run_result (published (parms_New args ["-conf"]).1 fuel k).
Proof.
  intros Hx Heq. unfold start.Main in *.
  destruct (parms_New args ["-conf"]) as [parm rest]. cbn [fst].
  unfold start.redisd_args in *.
  repeat pin_step x Heq ltac:(intros <-; exact Hx).
  apply pin_defer_close in Heq as (post' & Heq & -> & ->);
    [|intros ->; exact Hx].
  by eexists _, _, _.
Qed.

Lemma published_pin_PubHook parm fuel k pre post :
  run_events (published parm fuel k)
    = pre ++ start.Ev start.PubHook None :: post →
  ∃ k',
    post = run_events (daemons parm fuel k') ∧
    run_result (published parm fuel k) = run_result (daemons parm fuel k').
Proof.
  intros Heq. unfold start.published in *.
  repeat pin_step (start.Ev start.PubHook None) Heq ltac:(done).
  rewrite ask_bind_run in Heq |- *.
  destruct (answer _ start.PubHook) as [e|].
  { rewrite run_ret_run in Heq. unfold run_events in Heq. cbn [snd] in Heq.
    apply pin_first_other in Heq; done. }
  match goal with |- context [daemons parm fuel ?j] => exists j end.
  assert (run_all (λ ev, ev ≠ start.Ev start.PubHook None)
            (daemons parm fuel)) as Hd.
  { unfold start.daemons, start.configure, start.shells.
    run_all_walk; done. }
  match goal with |- context [daemons parm fuel ?j] => specialize (Hd j) end.
  destruct (daemons parm fuel _) as [[r n2] t2].
  unfold run_events, run_result in *. cbn [fst snd] in *.
  by apply pin_first in Heq as (_ & _ & ->).
Qed.

Lemma published_pin_Find parm fuel k r pre post :
  run_events (published parm fuel k)
    = pre ++ start.Ev (start.Find "login") r :: post →
  pid = 1 ∧
  ∃ k',
    post = run_events (start.serve answer (bool_decide (r = None)) fuel k') ∧
    run_result (published parm fuel k)
      = run_result (start.serve answer (bool_decide (r = None)) fuel k').
Proof.
  intros Heq.
  unfold start.published, start.daemons, start.configure, start.shells in *.
  cbv zeta in *.
  repeat pin_step (start.Ev (start.Find "login") r) Heq ltac:(done).
  rewrite ask_bind_run in Heq |- *.
  split; [by apply Z.eqb_eq|].
  match goal with
  | |- context [start.serve answer (bool_decide (?a = None)) fuel ?j] =>
      exists j;
      assert (run_all (λ ev, ev ≠ start.Ev (start.Find "login") r)
                (start.serve answer (bool_decide (a = None)) fuel)) as Hs
        by (run_all_walk; done);
      specialize (Hs j);
      destruct (start.serve answer (bool_decide (a = None)) fuel j)
        as [[res n2] t2] eqn:Hserve
  end.
  unfold run_events, run_result in *. cbn [fst snd] in *.
  apply pin_first in Heq as (_ & [= <-] & ->); [|done]. by rewrite Hserve.
Qed.

Lemma each_daemons_run daemons' n :
  let run :=
    start.each daemons'
      (λ '(daemon, lvl),
         if lvl <? 0 then run_ret None
         else start.ask answer (start.GoesMain [daemon])) n in
  ∃ errs,
    run_events run = started (wanted_daemons daemons') errs ∧
    ((run_result run = Val None ∧
      errs = replicate (length (wanted_daemons daemons')) None) ∨
     (∃ j e,
        errs = replicate j None ++ [Some e] ∧
        (j < length (wanted_daemons daemons'))%nat ∧
        run_result run = Val (Some e))).
Proof.
  cbv zeta. revert n.
  induction daemons' as [|[d lvl] rest IH]; intros n.
  { exists []. split; [done|]. by left. }
  cbn [start.each]. unfold wanted_daemons. cbn [List.filter].
  destruct (lvl <? 0); cbn [negb map fst].
  - rewrite run_bind_run, run_ret_run.
    destruct (IH n) as (errs & Hev & Hres).
    destruct (start.each rest _ n) as [[r n2] t2].
    exists errs. done.
  - rewrite ask_bind_run.
    destruct (answer n (start.GoesMain [d])) as [e|].
    + exists [Some e].
      split; [unfold started; cbn [zip_with]; by rewrite zip_with_nil_r|].
      right. exists 0%nat, e.
      split; [done|]. split; [cbn [length]; lia | done].
    + destruct (IH (S n)) as (errs & Hev & Hres).
      destruct (start.each rest _ (S n)) as [[r n2] t2].
      unfold run_events, run_result in *. cbn [fst snd] in *.
      exists (None :: errs). split; [by rewrite Hev|].
      destruct Hres as [[-> ->]|(j & e & -> & Hj & ->)]; [by left|].
      right. exists (S j), e. split; [done|].
      split; [cbn [length]; fold (wanted_daemons rest); lia | done].
Qed.

Lemma pin_ask {A} (f : option error → Run start.event A) c n x pre post :
  run_events ((start.ask answer c ≫= f) n) = pre ++ x :: post →
  run_all (λ ev, ev ≠ x) (f (answer n c)) →
  pre = [] ∧ x = start.Ev c (answer n c) ∧
  post = run_events (f (answer n c) (S n)) ∧
  run_result ((start.ask answer c ≫= f) n)
    = run_result (f (answer n c) (S n)).
Proof.
  rewrite ask_bind_run. intros Heq Hf. specialize (Hf (S n)).
  destruct (f (answer n c) (S n)) as [[r n2] t2].
  unfold run_events, run_result in *. cbn [fst snd] in *.
  by apply pin_first in Heq as (-> & <- & ->).
Qed.

Lemma serve_not_returns login fuel k :
  closing (run_result (start.serve answer login fuel k)) = [].
Proof.
  destruct (serve_run answer login fuel k) as [[Hr|Hr] _]; by rewrite Hr.
Qed.

(** Once [start.Main] looks for the login command, the rest of its log is
    that of the loop of process 1. *)
Lemma Main_pin_serve fuel args n r pre post :
  run_events (Main fuel args n)
    = pre ++ start.Ev (start.Find "login") r :: post →
  pid = 1 ∧
  ∃ k,
    post = run_events (start.serve answer (bool_decide (r = None)) fuel k) ∧
    run_result (Main fuel args n)
      = run_result (start.serve answer (bool_decide (r = None)) fuel k).
Proof.
  intros Heq.
  apply Main_pin_published in Heq as (k & pre' & post' & Heq & -> & ->);
    [|done].
  apply published_pin_Find in Heq as (Hpid & k' & -> & Hres).
  split; [done|]. exists k'. rewrite Hres, serve_not_returns.
  by rewrite app_nil_r.
Qed.

(** start: a second start is refused.  If [os.Stat] finds the socket of
    redisd, [Main] returns the error "already started" and does nothing
    after that call; before it, it has only asked for the interfaces and
    checked for root. *)
Theorem start_refuses_second_start fuel args n p pre post :
  run_events (Main fuel args n)
    = pre ++ start.Ev (start.Stat p) None :: post →
  run_result (Main fuel args n) = Val (Some (Errno "already started")) ∧
  Forall preliminary pre ∧ post = [].
Proof.
  intros Heq. unfold start.Main in *.
  destruct (parms_New args ["-conf"]) as [parm rest].
  assert (run_all preliminary (redisd_args rest)) as H1.
  { unfold start.redisd_args. run_all_walk; done. }
  apply (pin_bind (λ ev, ev ≠ start.Ev (start.Stat p) None)) in Heq
    as (redisd & k & pre1 & -> & Heq & ->);
    [| unfold start.redisd_args; run_all_walk; done
     | intros H; by apply H ].
  apply (pin_bind (λ ev, ev ≠ start.Ev (start.Stat p) None)) in Heq
    as (a & k2 & pre2 & -> & Heq & ->);
    [| run_all_walk; done | intros H; by apply H ].
  destruct a as [e|]; [by apply pin_ret in Heq|].
  apply pin_ask in Heq as (-> & [= -> Hans] & -> & ->).
  - rewrite <- Hans. split; [done|]. split; [|done].
    apply Forall_app. split; [apply H1|].
    apply Forall_app. split; [|done]. by repeat constructor.
  - destruct (answer k2 _); [|apply run_all_ret].
    unfold start.published, start.daemons, start.configure, start.shells.
    run_all_walk; done.
Qed.


(** start: the daemons are started in the order of the range, those of a
    negative level left out, until one fails.  After [PubHook] the log
    goes on with [goes.Main(daemon)] for the wanted daemons; if one of them
    fails, none is started after it, [Main] closes the publisher and
    returns that error. *)
Theorem start_stops_at_first_failed_daemon fuel args n pre post :
  run_events (Main fuel args n)
    = pre ++ start.Ev start.PubHook None :: post →
  ∃ errs rest,
    post = started (wanted_daemons Daemon) errs ++ rest ∧
    (errs = replicate (length (wanted_daemons Daemon)) None ∨
     ∃ j e,
       errs = replicate j None ++ [Some e] ∧
       (j < length (wanted_daemons Daemon))%nat ∧
       rest = [start.Ev start.Close None] ∧
       run_result (Main fuel args n) = Val (Some e)).
Proof.
  intros Heq.
  apply Main_pin_published in Heq as (k & pre' & post' & Heq & -> & ->);
    [|done].
  apply published_pin_PubHook in Heq as (k' & -> & ->).
  unfold start.daemons. rewrite run_bind_run.
  destruct (each_daemons_run Daemon k') as (errs & Hev & Hres).
  destruct (start.each Daemon _ k') as [[r n1] t1].
  unfold run_events, run_result in *. cbn [fst snd] in *. subst t1.
  exists errs.
  destruct Hres as [[-> ->]|(j & e & -> & Hj & ->)].
  - destruct (configure _ fuel n1) as [[r2 n2] t2]. cbn [fst snd].
    eexists. split; [by rewrite <- app_assoc|]. by left.
  - rewrite run_ret_run. cbn [fst snd closing]. eexists.
    split; [by rewrite app_nil_r|]. right. by exists j, e.
Qed.


(** start: a shell that fails stops process 1 for good.  When the shell of
    process 1 returns an error other than [io.EOF], [Main] prints it and
    blocks: nothing is logged after the message, no shell is started
    again. *)
Theorem start_blocks_after_shell_error fuel args n r pre mid e post :
  run_events (Main fuel args n)
    = pre ++ start.Ev (start.Find "login") r
          :: mid ++ start.Ev (start.GoesMain ["cli"]) (Some e) :: post →
  e ≠ EOF →
  post = [start.Ev (start.Println (Error e)) None] ∧
  run_result (Main fuel args n) = Block.
Proof.
  intros Heq Hne.
  apply Main_pin_serve in Heq as (_ & k & Heq & ->).
  destruct (serve_run answer (bool_decide (r = None)) fuel k) as [_ Hs].
  by apply (Hs mid).
Qed.

(** start: login is run only if [goes.Find] found it; a failed login is
    reported and retried after three seconds without a shell in between,
    and a successful one is followed by the shell. *)
Theorem start_retries_failed_login fuel args n r pre mid rep post :
  run_events (Main fuel args n)
    = pre ++ start.Ev (start.Find "login") r
          :: mid ++ start.Ev (start.GoesMain ["login"]) rep :: post →
  r = None ∧ after_login rep post.
Proof.
  intros Heq.
  apply Main_pin_serve in Heq as (_ & k & Heq & _).
  symmetry in Heq. apply serve_login_run in Heq as [Hl Ha].
  split; [|done]. by apply bool_decide_eq_true in Hl.
Qed.

End start_properties.

(** ** The theorems at concrete inputs *)

Lemma installer_hands_off_iff_fetch_returns_witness :
  let gi := Getenv "goesinstaller" installer_boot in
  let params := Split gi "," in
  let body :=
    boot fetch_refused (SplitList (Getenv "goesroot" installer_boot))
      installer_boot in
  let r := panic_value (result body) in
  let x := installer fetch_refused params (final (recovered r (final body))) in
  ((∃ rep, In (Ev (GoesMain kexec_args) rep) (events x))
   ↔ (∃ reqs n, In (Ev (FetchReqs 0 reqs n) Done) (events x))) ∧
  ((∃ rep, In (Ev (Printf loaded_message) rep) (events x))
   ↔ (∃ reqs, In (Ev (FetchReqs 0 reqs (Z.of_nat (length reqs))) Done)
                 (events x))) ∧
  ((∀ rep, ¬ In (Ev (GoesMain kexec_args) rep) (events x))
   → (nth 0 params "" = "" ∧ events x = [] ∧
      result x = Ret (Some (Errno "KERNEL: missing")))
     ∨ (∃ url rep,
          In (Ev (NewRequest url) rep) (events x) ∧
          rep ≠ Done ∧ result x = answered rep)
     ∨ (∃ reqs n rep,
          In (Ev (FetchReqs 0 reqs n) rep) (events x) ∧
          rep ≠ Done ∧ result x = answered rep)) ∧
  match result x with
  | Gone =>
      events (Main fetch_refused 1 installer_boot)
        = events body ++ events (recovered r (final body)) ++ events x ∧
      result (Main fetch_refused 1 installer_boot) = Gone
  | Spin => False
  | _ =>
      ∃ rep post,
        events (Main fetch_refused 1 installer_boot)
          = events body ++ events (recovered r (final body)) ++ events x
            ++ installer_report params (result x)
            ++ Ev (Println shell_banner) Done
               :: Ev (GoesMain ["cli"]) rep :: post
  end.
Proof.
  apply (installer_hands_off_iff_fetch_returns fetch_refused 0 installer_boot).
  - by vm_compute.
  - by vm_compute.
Defined.

Lemma emergencyShell_loops_forever_witness :
  ∃ replies w',
    emergencyShell grumpy 3 initrd
      = (Spin, w', concat (map shell_round replies)) ∧
    length replies = 3%nat ∧
    Forall (fun rep => is_return rep = true) replies.
Proof.
  apply (emergencyShell_loops_forever grumpy). intros n w.
  unfold grumpy, o_collab. reflexivity.
Defined.

Lemma cleanup_after_staging_witness :
  staged "/newroot" "/dev/sda1" ""
    (firstn 36 (events (pivotRoot quiet "/newroot" "/dev/sda1" "" initrd))).
Proof.
  apply (cleanup_after_staging quiet "/newroot" "/dev/sda1" "" initrd
           (firstn 36 (events (pivotRoot quiet "/newroot" "/dev/sda1" "" initrd)))
           (skipn 37 (events (pivotRoot quiet "/newroot" "/dev/sda1" "" initrd)))
           (Ev (Unlink "/usr/bin/gdbserver") Done)).
  - by vm_compute.
  - reflexivity.
Defined.

Lemma failed_bind_move_reaches_recovery_witness :
  (∀ path rep, ¬ In (Ev (Chroot path) rep) (events (Main stuck 1 sda1_boot))) ∧
  ∃ pre post,
    events (Main stuck 1 sda1_boot) =
      pre ++ Ev (bind_move "/newroot") (Fail (Errno "device or resource busy"))
          :: Ev (Println ("mount " +:+ "/newroot" +:+ " /: "
                          +:+ Error (Errno "device or resource busy"))) Done
          :: post ∧
    Forall recovery_event post.
Proof.
  apply (failed_bind_move_reaches_recovery stuck 1 sda1_boot
           (Errno "device or resource busy")).
  vm_compute. find_in.
Defined.

Lemma failure_reaches_emergency_shell_witness :
  ∃ mid rep post,
    events (Main no_disk 1 recovery_boot) =
      events (boot no_disk (SplitList (Getenv "goesroot" recovery_boot))
                recovery_boot)
      ++ Ev (Println mount_failure) Done :: mid
      ++ Ev (Println shell_banner) Done :: Ev (GoesMain ["cli"]) rep :: post.
Proof.
  apply (failure_reaches_emergency_shell no_disk 0 recovery_boot mount_failure).
  - apply (fatal_pivot no_disk recovery_boot mount_failure recovery_boot);
      by vm_compute.
  - by vm_compute.
Defined.

Lemma colon_goesroot_mounts_then_sources_witness :
  SplitList (Getenv "goesroot" colon_boot) = ["/dev/sda1"; "/etc/boot.conf"] ∧
  root_of (SplitList (Getenv "goesroot" colon_boot)) = "/dev/sda1" ∧
  script_of (SplitList (Getenv "goesroot" colon_boot)) = "/etc/boot.conf" ∧
  ∃ a b, firstn 5 (events (Main quiet 1 colon_boot))
         = a ++ mount_root :: source_script :: b.
Proof.
  apply (colon_goesroot_mounts_then_sources quiet 1 colon_boot
           (firstn 5 (events (Main quiet 1 colon_boot)))
           (skipn 6 (events (Main quiet 1 colon_boot)))
           (Ev (Stat "/newroot/bin") (Fail ENOENT))).
  - by vm_compute.
  - by vm_compute.
  - reflexivity.
Defined.

Lemma populate_idempotent_witness :
  result (populate quiet "/newroot" settled_root) = Ret tt ∧
  fs (final (populate quiet "/newroot" settled_root)) = fs settled_root ∧
  env (final (populate quiet "/newroot" settled_root)) = env settled_root ∧
  Forall is_stat (events (populate quiet "/newroot" settled_root)) ∧
  List.filter is_write (events (populate quiet "/newroot" settled_root)) = [].
Proof.
  apply (populate_idempotent quiet "/newroot" settled_root).
  - exact populated_root_has_skeleton.
  - by vm_compute.
Defined.

Lemma start_return_enters_recovery_witness :
  after_start "http://x/k" (skipn 17 (events (Main quiet 1 installer_boot))).
Proof.
  apply (start_return_enters_recovery quiet 0 installer_boot
           (firstn 16 (events (Main quiet 1 installer_boot)))
           (skipn 17 (events (Main quiet 1 installer_boot))) Done).
  - by vm_compute.
  - reflexivity.
Defined.

Lemma no_root_no_pivot_witness :
  Forall (λ ev, pivot_event ev = false) (events (Main quiet 1 script_only_boot)).
Proof.
  apply (no_root_no_pivot quiet 1 script_only_boot). right. by vm_compute.
Defined.

Lemma init_gets_fixed_environment_witness :
  [ "PATH=/bin:/usr/bin"; "SHELL=/bin/goes"; "HOME=/root"; "TERM=vt100" ]
    = init_environment served_root ∧
  In (Ev (Chdir "/root") Done) (events (runSbinInit quiet served_root)).
Proof.
  apply (init_gets_fixed_environment quiet served_root sbininit [sbininit]
           [ "PATH=/bin:/usr/bin"; "SHELL=/bin/goes"; "HOME=/root"; "TERM=vt100" ]
           Never).
  vm_compute. auto 10.
Defined.

Lemma cleanup_errors_are_ignored_witness :
  ∃ ureps rreps rep post',
    length ureps = length oldRootFiles ∧ length rreps = length oldRootDirs ∧
    skipn 36 (events (pivotRoot quiet "/newroot" "/dev/sda1" "" initrd)) =
      cleanup_calls ureps rreps ++ Ev (bind_move "/newroot") rep :: post'.
Proof.
  apply (cleanup_errors_are_ignored quiet "/newroot" "/dev/sda1" "" initrd
           (firstn 35 (events (pivotRoot quiet "/newroot" "/dev/sda1" "" initrd)))).
  by vm_compute.
Defined.

Lemma installer_fetches_named_files_witness :
  0 = 0 ∧ nth 0 [ "http://x/k"; ""; "http://x/d" ] "" ≠ "" ∧
  [ Request "http://x/k" "kernel"; Request "http://x/d" "fdt" ]
    = wanted [ "http://x/k"; ""; "http://x/d" ].
Proof.
  apply (installer_fetches_named_files quiet [ "http://x/k"; ""; "http://x/d" ]
           initrd 0 2 [ Request "http://x/k" "kernel"; Request "http://x/d" "fdt" ]
           Done).
  vm_compute. auto.
Defined.

(** ** The mount command at concrete inputs *)

Lemma mountone_tries_types_in_order_witness :
  let x := mount.mountone ext4_only (Some sample_types) "auto" "/dev/sda1"
             "/newroot" ∅ ∅ 0%nat in
  let mounts := mount.attempts "/dev/sda1" "/newroot" (mount.mount_flags ∅)
                  (mount.get ∅ "-o") in
  (∃ es,
     length es = length [ "ext2"; "ext4"; "vfat" ] ∧
     run_events x = mounts [ "ext2"; "ext4"; "vfat" ] (map Some es) ∧
     run_result x =
       Val (mount.Result (List.last (map Some es) None) "/dev/sda1"
                    "auto" "/newroot" ∅))
  ∨ (∃ tys ty rest es,
       [ "ext2"; "ext4"; "vfat" ] = tys ++ ty :: rest ∧
       length es = length tys ∧
       run_events x =
         mounts tys (map Some es)
         ++ [mount.Ev (mount.Mount "/dev/sda1" "/newroot" ty
                         (mount.mount_flags ∅) (mount.get ∅ "-o")) None] ∧
       run_result x =
         Val (mount.Result None "/dev/sda1" ty "/newroot" ∅)).
Proof.
  exact (mountone_tries_types_in_order ext4_only sample_types "auto"
           "/dev/sda1" "/newroot" ∅ ∅ 0%nat eq_refl).
Defined.

Lemma defaults_mounts_read_only_witness :
  Z.testbit 2147483649 0 =
    (mount.on {[ "-defaults" := true ]} "-defaults"
     || mount.on {[ "-defaults" := true ]} "-read-only")
    && negb (mount.on {[ "-defaults" := true ]} "-read-write") ∧
  Z.testbit 2147483649 4 =
    mount.on {[ "-defaults" := true ]} "-synchronous"
    || mount.on {[ "-defaults" := true ]} "-no-synchronous".
Proof.
  apply (defaults_mounts_read_only ext4_only (Some sample_types) "ext4"
           "/dev/sda1" "/newroot" {[ "-defaults" := true ]} ∅ 0%nat
           "/dev/sda1" "/newroot" "ext4" "" 2147483649 None).
  vm_compute. by left.
Defined.

Lemma loadFstab_needs_four_fields_witness :
  (Forall (λ line, (4 <= length (blank_fields line))%nat)
          (List.filter mount.no_hash sample_fstab) →
   mount.loadFstab sample_scan blank_fields 0%nat =
     (Val (map (mount.entry_of blank_fields)
                     (List.filter mount.no_hash sample_fstab), None), 0%nat, [])) ∧
  (Exists (λ line, (length (blank_fields line) < 4)%nat)
          (List.filter mount.no_hash sample_fstab) →
   ∃ v, mount.loadFstab sample_scan blank_fields 0%nat = (Throw v, 0%nat, [])).
Proof.
  apply (loadFstab_needs_four_fields sample_scan blank_fields sample_fstab None 0%nat).
  reflexivity.
Defined.

Lemma fstab_mounts_first_match_witness :
  let entries := map (mount.entry_of blank_fields)
                     (List.filter mount.no_hash sample_fstab) in
  (Forall (λ x, mount.names "/var" x = false) entries →
   mount.fstab ext4_only sample_scan blank_fields (Some sample_types) "/var"
     ∅ ∅ 0%nat = (Val None, 0%nat, [])) ∧
  (∀ pre x post,
     entries = pre ++ x :: post →
     Forall (λ x, mount.names "/var" x = false) pre →
     mount.names "/var" x = true →
     mount.fstab ext4_only sample_scan blank_fields (Some sample_types) "/var"
       ∅ ∅ 0%nat =
     (r ← mount.mountone ext4_only (Some sample_types) (mount.fsType x)
            (mount.fsSpec x) (mount.fsFile x) ∅ ∅;
      mount.ShowResult r;; run_ret (mount.err r)) 0%nat).
Proof.
  apply (fstab_mounts_first_match ext4_only sample_scan blank_fields
           (Some sample_types) "/var" ∅ ∅ sample_fstab 0%nat).
  - reflexivity.
  - vm_compute. repeat constructor.
Defined.

Lemma mount_needs_proc_filesystems_witness :
  let x := mount.Main ext4_only no_proc blank_fields id no_flags no_parms
             not_called not_probed [ "/dev/sda1"; "/newroot" ] 0%nat in
  run_result x = Throw nil_dereference ∧
  Forall (λ ev, ∃ s, ev = mount.Ev (mount.Eprintln s) None) (run_events x).
Proof.
  apply (mount_needs_proc_filesystems ext4_only no_proc blank_fields id
           no_flags no_parms not_called not_probed
           [ "/dev/sda1"; "/newroot" ] [ "/dev/sda1"; "/newroot" ] ∅ ∅
           "/dev/sda1" "/newroot" 0%nat); try reflexivity.
  by intros lines.
Defined.

(** ** The boot client at concrete inputs *)

Lemma install_needs_the_second_uuid_witness :
  bootc.Main master_ip no_reply unreadable no_disk_at_all id ["6"] 0%nat =
    (Throw index_out_of_range, 2%nat,
     [ bootc.Ev bootc.GetMasterIP None;
       bootc.Ev (bootc.ReadFile "/newroot/sda6/etc/fstab") (Some ENOENT) ]).
Proof.
  apply (install_needs_the_second_uuid master_ip no_reply unreadable
           no_disk_at_all id "6" "/newroot/sda6/etc/fstab"
           "/newroot/sda6/boot/vmlinuz-3.16.0-4-amd64"
           "/newroot/sda6/boot/initrd.img-3.16.0-4-amd64" 0%nat).
  - right. right. by left.
  - vm_compute. lia.
Defined.

Lemma install_sources_after_failed_write_witness :
  bootc.Main master_ip no_reply disk_with_fstab read_only_disk id ["1"] 0%nat =
    (Val None, 4%nat,
     bootc.Ev bootc.GetMasterIP None
     :: bootc.Ev (bootc.ReadFile "/newroot/sda1/etc/fstab") None
     :: bootc.install_events "/newroot/sda1/boot/vmlinuz"
          "/newroot/sda1/boot/initrd.gz" "0a1b-2c3d"
          (Some (Errno "read-only file system")) None).
Proof.
  apply (install_sources_after_failed_write master_ip no_reply disk_with_fstab
           read_only_disk id "1" "/newroot/sda1/etc/fstab"
           "/newroot/sda1/boot/vmlinuz" "/newroot/sda1/boot/initrd.gz"
           "0a1b-2c3d " (" ext4 errors=remount-ro 0 1" +:+ newline) 0%nat).
  - by left.
  - by vm_compute.
  - reflexivity.
  - done.
Defined.

(** ** The start command at concrete inputs *)

Lemma start_refuses_second_start_witness :
  run_result (sample_start 1 running 2)
    = Val (Some (Errno "already started")) ∧
  Forall preliminary [start.Ev start.AssertRoot None] ∧
  @nil start.event = [].
Proof.
  exact (start_refuses_second_start keep_args ["eth0"] "mk1" "platina" "1.0"
           socks sample_daemons 1 running no_interfaces sample_hostname
           sample_cmdline 2 [] 0%nat "/run/goes/socks/redisd"
           [start.Ev start.AssertRoot None] [] eq_refl).
Defined.


Lemma start_stops_at_first_failed_daemon_witness :
  ∃ errs rest,
    skipn 12 (run_events (sample_start 1 (fails "uptimed") 2))
      = started (wanted_daemons sample_daemons) errs ++ rest ∧
    (errs = replicate (length (wanted_daemons sample_daemons)) None ∨
     ∃ j e,
       errs = replicate j None ++ [Some e] ∧
       (j < length (wanted_daemons sample_daemons))%nat ∧
       rest = [start.Ev start.Close None] ∧
       run_result (sample_start 1 (fails "uptimed") 2) = Val (Some e)).
Proof.
  apply (start_stops_at_first_failed_daemon keep_args ["eth0"] "mk1"
           "platina" "1.0" socks sample_daemons 1 (fails "uptimed")
           no_interfaces sample_hostname sample_cmdline 2 [] 0%nat
           (firstn 11 (run_events (sample_start 1 (fails "uptimed") 2)))).
  vm_compute. reflexivity.
Defined.


Lemma start_blocks_after_shell_error_witness :
  [start.Ev (start.Println "exit status 1") None]
    = [start.Ev (start.Println (Error (Errno "exit status 1"))) None] ∧
  run_result (sample_start 1 (fails "cli") 2) = Block.
Proof.
  apply (start_blocks_after_shell_error keep_args ["eth0"] "mk1" "platina"
           "1.0" socks sample_daemons 1 (fails "cli") no_interfaces
           sample_hostname sample_cmdline 2 [] 0%nat None
           (firstn 14 (run_events (sample_start 1 (fails "cli") 2)))
           [start.Ev (start.GoesMain ["login"]) None]
           (Errno "exit status 1")).
  - vm_compute. reflexivity.
  - discriminate.
Defined.

Lemma start_retries_failed_login_witness :
  @None error = None ∧
  after_login (Some (Errno "exit status 1"))
    (skipn 16 (run_events (sample_start 1 (fails "login") 2))).
Proof.
  apply (start_retries_failed_login keep_args ["eth0"] "mk1" "platina" "1.0"
           socks sample_daemons 1 (fails "login") no_interfaces
           sample_hostname sample_cmdline 2 [] 0%nat None
           (firstn 14 (run_events (sample_start 1 (fails "login") 2)))
           []).
  vm_compute. reflexivity.
Defined.

